(** * test_astro: the astrological computation core, embedded in Rocq

    The development follows the layout of the Python package:
    [core/constants.py], [core/utils.py], [data/ephemeris.py],
    [core/houses.py], [core/aspects.py] and [core/calculator.py] each
    become a module of definitions; the properties come afterwards.

    Numbers.  Python [int] values are [Z].  Python [float] values are
    read in three ways.  In the modules of the package they are real
    numbers ([R]) and float arithmetic is exact real arithmetic; the
    functions of Python's [math] module are the functions of the same
    name of the real-number library ([atan2] is defined from [atan]),
    and a division by a computed divisor raises on zero, as in Python.
    What is proved there is about ranges, structure and formulas, not
    about last digits.  Where rounding decides (the loops of
    [normalize_angle] on large angles, the round trip through the
    Julian day), [core/utils.py] is embedded twice more: in [Binary64]
    on the doubles themselves, for evaluating the code on given
    numbers, and in [Rounded] with every operation followed by a
    rounding that is left open, for proofs.  Infinities and NaN are
    outside the models.

    Control.  A [while] loop is a function defined by well-founded
    recursion (by recursion on fuel in [Binary64] and [Rounded], where
    a loop need not end), a [raise] is the [Raise] constructor of a
    result type, a [dict] is an association list in insertion order. *)

From Equations Require Import Equations.
From Stdlib Require Import Reals Lra Lia ZArith List String Bool.
From Stdlib Require Import Permutation Sorted.
From Stdlib Require Import DecimalString.
From Stdlib Require Floats.
Import ListNotations.

(* ================================================================== *)
(** ** Python runtime: exceptions, dictionaries, list update           *)
(* ================================================================== *)

Module Py.

(** The exceptions the embedded code can raise. *)
Inductive exn : Type :=
| NameError (name : string)
| ValueError (message : string)
| KeyError (key : string)
| ZeroDivisionError.

Inductive result (A : Type) : Type :=
| Ok (value : A)
| Raise (e : exn).
Arguments Ok {A} value.
Arguments Raise {A} e.

Definition bind {A B} (m : result A) (k : A -> result B) : result B :=
  match m with
  | Ok v => k v
  | Raise e => Raise e
  end.

(** [for x in xs: acc = body(acc, x)], stopping at the first raise. *)
Fixpoint for_each {A S} (xs : list A) (body : S -> A -> result S) (acc : S)
  : result S :=
  match xs with
  | [] => Ok acc
  | x :: rest => bind (body acc x) (for_each rest body)
  end.

(** A [dict] with string keys, kept in insertion order. *)
Definition dict (V : Type) : Type := list (string * V).

Fixpoint get {V} (d : dict V) (key : string) : option V :=
  match d with
  | [] => None
  | (k, v) :: rest => if String.eqb key k then Some v else get rest key
  end.

(** [d[key]] *)
Definition getitem {V} (d : dict V) (key : string) : result V :=
  match get d key with Some v => Ok v | None => Raise (KeyError key) end.

(** [key in d] *)
Definition contains {V} (d : dict V) (key : string) : bool :=
  match get d key with Some _ => true | None => false end.

(** [d[key] = v]: overwrite in place, or append a new entry. *)
Fixpoint set {V} (d : dict V) (key : string) (v : V) : dict V :=
  match d with
  | [] => [(key, v)]
  | (k, v0) :: rest =>
      if String.eqb key k then (k, v) :: rest else (k, v0) :: set rest key v
  end.

Definition keys {V} (d : dict V) : list string := map fst d.

(** [enumerate(xs)] *)
Definition enumerate {A} (xs : list A) : list (nat * A) :=
  combine (seq 0 (List.length xs)) xs.

(** [xs[i] = v] for an index inside the list (every index used by the
    embedded code is a literal below the length of its list). *)
Fixpoint list_set {A} (xs : list A) (i : nat) (v : A) : list A :=
  match xs, i with
  | [], _ => []
  | _ :: rest, O => v :: rest
  | x :: rest, S j => x :: list_set rest j v
  end.

End Py.

Import Py.

Declare Scope py_scope.
Delimit Scope py_scope with py.
Notation "x <- m ;; k" := (Py.bind m (fun x => k))
  (at level 61, m at next level, right associativity) : py_scope.

Open Scope R_scope.
Open Scope string_scope.

(* ================================================================== *)
(** ** core/constants.py                                               *)
(* ================================================================== *)

Module Constants.

Definition DEGTORAD : R := PI / 180.
Definition RADTODEG : R := 180 / PI.

(** One entry of the [ASPECTS] table. *)
Record AspectDef : Type := mkAspectDef {
  name : string;
  angle : R;
  orb : R;
  type : string;
  score : Z
}.

Definition ASPECTS : list AspectDef := [
  mkAspectDef "Conjonction" 0 8 "majeur" 10;
  mkAspectDef "Opposition" 180 8 "majeur" (-5);
  mkAspectDef "Trigone" 120 8 "majeur" 8;
  mkAspectDef "Carré" 90 8 "majeur" (-6);
  mkAspectDef "Sextile" 60 6 "majeur" 6;
  mkAspectDef "Quintile" 72 2 "mineur" 3;
  mkAspectDef "Biquintile" 144 2 "mineur" 3;
  mkAspectDef "Quincunce" 150 3 "mineur" (-2)
].

End Constants.

(* ================================================================== *)
(** ** core/utils.py                                                   *)
(* ================================================================== *)

Module Utils.

Lemma Zfloor_pred (x : R) : Zfloor (x - 1) = (Zfloor x - 1)%Z.
Proof.
  replace (x - 1) with (x + IZR (-1)) by (simpl; lra).
  rewrite Zfloor_addz. lia.
Qed.

(** [while angle < 0: angle += 360] *)
Equations? while_negative (angle : R) : R
  by wf (Z.to_nat (Zfloor (- angle / 360) + 1)) lt :=
  while_negative angle with Rlt_dec angle 0 => {
    | left _ := while_negative (angle + 360);
    | right _ := angle }.
Proof.
  replace (- (angle + 360) / 360) with (- angle / 360 - 1) by field.
  rewrite Zfloor_pred.
  assert (0 <= Zfloor (- angle / 360))%Z by (apply Zfloor_lub; simpl; lra).
  lia.
Qed.

(** [while angle >= 360: angle -= 360] *)
Equations? while_full_turn (angle : R) : R
  by wf (Z.to_nat (Zfloor (angle / 360))) lt :=
  while_full_turn angle with Rge_dec angle 360 => {
    | left _ := while_full_turn (angle - 360);
    | right _ := angle }.
Proof.
  replace ((angle - 360) / 360) with (angle / 360 - 1) by field.
  rewrite Zfloor_pred.
  assert (1 <= Zfloor (angle / 360))%Z by (apply Zfloor_lub; simpl; lra).
  lia.
Qed.

(** On real numbers both loops end for every angle.  On doubles they
    need not: the properties of [normalize_angle] itself are those of
    [Binary64.normalize_angle] and [Rounded.normalize_angle] below;
    this one serves where an angle of ordinary size is normalized
    inside another function. *)
Definition normalize_angle (angle : R) : R :=
  let angle := while_negative angle in
  let angle := while_full_turn angle in
  angle.

Definition calculate_distance (angle1 angle2 : R) : R :=
  let diff := Rabs (angle1 - angle2) in
  Rmin diff (360 - diff).

End Utils.

(* ================================================================== *)
(** ** Python arithmetic and the [math] module                         *)
(* ================================================================== *)

Module Math.

(** [x / y] with a computed divisor: Python raises on a zero divisor.
    (A division by a nonzero literal is written as plain [/].) *)
Definition truediv (x y : R) : result R :=
  if Req_dec_T y 0 then Raise ZeroDivisionError else Ok (x / y).

(** [math.atan2(y, x)]: the angle of the point [(x, y)], in (-PI, PI]. *)
Definition atan2 (y x : R) : R :=
  if Rlt_dec 0 x then atan (y / x)
  else if Rlt_dec x 0 then
    (if Rle_dec 0 y then atan (y / x) + PI else atan (y / x) - PI)
  else if Rlt_dec 0 y then PI / 2
  else if Rlt_dec y 0 then - (PI / 2)
  else 0.

(** Comparisons as Python booleans. *)
Definition ltb (x y : R) : bool := if Rlt_dec x y then true else false.
Definition leb (x y : R) : bool := if Rle_dec x y then true else false.

(** [sorted(xs, key=key)] / [xs.sort(key=key)]: a stable sort; an
    element goes in front of the first later element whose key is not
    smaller, so equal keys keep the order they arrived in. *)
Section StableSort.
Variable A : Type.
Variable key : A -> R.

Fixpoint insert_by_key (x : A) (sorted : list A) : list A :=
  match sorted with
  | [] => [x]
  | y :: rest =>
      if leb (key x) (key y) then x :: y :: rest
      else y :: insert_by_key x rest
  end.

Definition sort_by_key (xs : list A) : list A :=
  fold_right insert_by_key [] xs.
End StableSort.
Arguments insert_by_key {A} key x sorted.
Arguments sort_by_key {A} key xs.

End Math.

(* ================================================================== *)
(** ** data/ephemeris.py                                               *)
(* ================================================================== *)

Module Ephemeris.
Import Constants Utils Math.
Local Open Scope py_scope.

(** The orbital elements of one body (keys "a", "e", "i", "L", "w",
    "Node", "period" of the source dictionaries). *)
Record Elements : Type := mkElements {
  el_a : R;
  el_e : R;
  el_i : R;
  el_L : R;
  el_w : R;
  el_Node : R;
  el_period : R
}.

Definition _load_planet_elements : dict Elements := [
  ("Sun", mkElements 1.00000011 0.01671022 0.00005 0.0 282.9404 0.0 365.25);
  ("Moon", mkElements 0.002569555 0.0549 5.145 0.0 0.0 0.0 27.32166);
  ("Mercury",
    mkElements 0.38709893 0.20563069 7.00487 252.25084 77.45645 48.33167 87.969);
  ("Venus",
    mkElements 0.72333199 0.00677323 3.39471 181.97973 131.53298 76.68069 224.701);
  ("Mars",
    mkElements 1.52366231 0.09341233 1.85061 355.45332 336.04084 49.57854 686.98);
  ("Jupiter",
    mkElements 5.20336301 0.04839266 1.30530 34.40438 14.75385 100.55615 4332.59);
  ("Saturn",
    mkElements 9.53707032 0.05415060 2.48446 49.94432 92.43194 113.71504 10759.22);
  ("Uranus",
    mkElements 19.19126393 0.04716771 0.76986 313.23218 170.96424 74.22988 30685.4);
  ("Neptune",
    mkElements 30.06896348 0.00858587 1.76917 304.88003 44.97135 131.72169 60189.0);
  ("Pluto",
    mkElements 39.48168677 0.24880766 17.14175 238.92881 224.06676 110.30347 90737.0)
].

(** [self.planet_elements], set once in [__init__]. *)
Definition planet_elements : dict Elements := _load_planet_elements.

Record BodyPosition : Type := mkBodyPosition {
  longitude : R;
  latitude : R;
  distance : R;
  speed : R;
  retrograde : bool
}.

Definition _calculate_sun_position (jd : R) : result BodyPosition :=
  let t := (jd - 2451545.0) / 36525.0 in
  let L := 280.46646 + 36000.76983 * t + 0.0003032 * t ^ 2 in
  let M := 357.52911 + 35999.05029 * t - 0.0001537 * t ^ 2 in
  let e := 0.016708634 - 0.000042037 * t - 0.0000001267 * t ^ 2 in
  let L := normalize_angle L in
  let M := normalize_angle M in
  let C := (1.914602 - 0.004817 * t - 0.000014 * t ^ 2) * sin (M * DEGTORAD) in
  let C := C + (0.019993 - 0.000101 * t) * sin (2 * M * DEGTORAD) in
  let C := C + 0.000289 * sin (3 * M * DEGTORAD) in
  let longitude := L + C in
  let latitude := 0.0 in
  distance <- truediv (1.000001018 * (1 - e ^ 2))
                      (1 + e * cos ((M + C) * DEGTORAD)) ;;
  let speed := 0.9856474 in
  Ok (mkBodyPosition (normalize_angle longitude) latitude distance speed false).

Definition _calculate_moon_position (jd : R) : result BodyPosition :=
  let t := (jd - 2451545.0) / 36525.0 in
  let L := 218.3164477 + 481267.88123421 * t - 0.0015786 * t ^ 2
           + t ^ 3 / 538841.0 in
  let L := normalize_angle L in
  let P := 83.3532465 + 4069.0137287 * t - 0.0103200 * t ^ 2
           - t ^ 3 / 80053.0 in
  let P := normalize_angle P in
  let M := L - P in
  let M := normalize_angle M in
  let D := 297.8501921 + 445267.1114034 * t - 0.0018819 * t ^ 2
           + t ^ 3 / 545868.0 in
  let D := normalize_angle D in
  let F := 93.2720950 + 483202.0175233 * t - 0.0036539 * t ^ 2
           - t ^ 3 / 3526000.0 in
  let F := normalize_angle F in
  let longitude := L + 6.288750 * sin (M * DEGTORAD) in
  let longitude := longitude + 1.274018 * sin ((2 * D - M) * DEGTORAD) in
  let longitude := longitude + 0.658309 * sin (2 * D * DEGTORAD) in
  let longitude := longitude + 0.213616 * sin (2 * M * DEGTORAD) in
  let longitude := longitude + -0.185596 * sin (P * DEGTORAD) in
  let longitude := longitude + -0.114336 * sin (2 * F * DEGTORAD) in
  let latitude := 5.128189 * sin (F * DEGTORAD) in
  let latitude := latitude + 0.280606 * sin ((M + F) * DEGTORAD) in
  let latitude := latitude + 0.277693 * sin ((M - F) * DEGTORAD) in
  let distance := 385000.56 in
  let speed := 13.176358 in
  Ok (mkBodyPosition (normalize_angle longitude) latitude distance speed false).

Definition _calculate_planet_position (planet_name : string) (jd : R)
    (elements : Elements) : result BodyPosition :=
  let t := (jd - 2451545.0) / 36525.0 in
  let M := el_L elements - el_w elements in
  let M := normalize_angle M in
  let M_rad := M * DEGTORAD in
  let e := el_e elements in
  let C := (2 * e - e ^ 3 / 4) * sin M_rad in
  let C := C + (5 * e ^ 2 / 4) * sin (2 * M_rad) in
  let C := C + (13 * e ^ 3 / 12) * sin (3 * M_rad) in
  let longitude := el_w elements + M + C in
  let longitude := normalize_angle longitude in
  let latitude :=
    el_i elements * sin ((longitude - el_Node elements) * DEGTORAD) in
  let a := el_a elements in
  distance <- truediv (a * (1 - e ^ 2)) (1 + e * cos ((M + C) * DEGTORAD)) ;;
  speed <- truediv 360.0 (el_period elements) ;;
  Ok (mkBodyPosition longitude latitude distance speed false).

Definition calculate_planet_position (planet_name : string) (jd : R)
    : result BodyPosition :=
  if negb (contains planet_elements planet_name) then
    Raise (ValueError ("Planète inconnue: " ++ planet_name))
  else
    elements <- getitem planet_elements planet_name ;;
    if String.eqb planet_name "Sun" then _calculate_sun_position jd
    else if String.eqb planet_name "Moon" then _calculate_moon_position jd
    else _calculate_planet_position planet_name jd elements.

Definition _calculate_lunar_node (jd : R) : BodyPosition :=
  let t := (jd - 2451545.0) / 36525.0 in
  let longitude := 125.04452 - 1934.136261 * t + 0.0020708 * t ^ 2
                   + t ^ 3 / 450000.0 in
  let longitude := normalize_angle longitude in
  mkBodyPosition longitude 0.0 0.0 (-19.3408) true.

(** The half turn is an exact sum here and a rounded one on doubles,
    where the two nodes can be a last digit short of 180 degrees
    apart. *)
Definition _calculate_south_node (north_node : BodyPosition) : BodyPosition :=
  let south_longitude := normalize_angle (longitude north_node + 180) in
  mkBodyPosition south_longitude 0.0 0.0 19.3408 false.

Definition _calculate_chiron (jd : R) : BodyPosition :=
  let t := (jd - 2451545.0) / 36525.0 in
  let longitude := 209.8856 + 0.0003 * t in
  mkBodyPosition (normalize_angle longitude) 0.0 13.7 0.0003 false.

Definition planet_names : list string :=
  ["Sun"; "Moon"; "Mercury"; "Venus"; "Mars";
   "Jupiter"; "Saturn"; "Uranus"; "Neptune"; "Pluto"].

(** [positions[planet_name] = self.calculate_planet_position(planet_name, jd)] *)
Definition store_position (jd : R) (positions : dict BodyPosition)
    (planet_name : string) : result (dict BodyPosition) :=
  position <- calculate_planet_position planet_name jd ;;
  Ok (set positions planet_name position).

Definition calculate_all_planets (jd : R) : result (dict BodyPosition) :=
  let positions : dict BodyPosition := [] in
  positions <- for_each planet_names (store_position jd) positions ;;
  let positions := set positions "Node" (_calculate_lunar_node jd) in
  north_node <- getitem positions "Node" ;;
  let positions :=
    set positions "South_Node" (_calculate_south_node north_node) in
  let positions := set positions "Chiron" (_calculate_chiron jd) in
  Ok positions.

End Ephemeris.

(* ================================================================== *)
(** ** core/houses.py                                                  *)
(* ================================================================== *)

Module Houses.
Import Constants Utils Math.
Local Open Scope py_scope.

Record HouseLayout : Type := mkHouseLayout {
  houses : list R;
  ascendant : R;
  descendant : R;
  mc : R;
  ic : R;
  system : string;
  lst : R
}.

(** The module-level functions of one float argument that houses.py
    can call by name: [from .utils import *] brings in
    [normalize_angle]; neither utils.py nor constants.py defines
    anything else of that shape.  A call through a name that is not
    bound raises [NameError]. *)
Definition module_functions : dict (R -> R) :=
  [("normalize_angle", normalize_angle)].

Definition call_global (name : string) (x : R) : result R :=
  match get module_functions name with
  | Some f => Ok (f x)
  | None => Raise (NameError name)
  end.

Definition _calculate_local_sidereal_time (jd longitude : R) : R :=
  let t := (jd - 2451545.0) / 36525.0 in
  let gst := 280.46061837 + 360.98564736629 * (jd - 2451545.0)
             + 0.000387933 * t ^ 2 - t ^ 3 / 38710000.0 in
  let gst := normalize_angle gst in
  let gst_hours := gst / 15.0 in
  let longitude_hours := longitude / 15.0 in
  let lst_hours := gst_hours + longitude_hours in
  let lst := lst_hours * 15.0 in
  let lst := normalize_angle lst in
  lst.

Definition _calculate_ascendant (lst latitude : R) : R :=
  let epsilon := 23.439281 in
  let lst_rad := lst * DEGTORAD in
  let lat_rad := latitude * DEGTORAD in
  let eps_rad := epsilon * DEGTORAD in
  let tan_eps := tan eps_rad in
  let sin_lat := sin lat_rad in
  let cos_lat := cos lat_rad in
  let y := sin lst_rad * cos_lat in
  let x := cos lst_rad * cos_lat in
  let ra_asc := atan2 y x in
  let dec_asc := asin (sin_lat * sin eps_rad) in
  let y := sin ra_asc * cos eps_rad + tan dec_asc * sin eps_rad in
  let x := cos ra_asc in
  let ascendant := atan2 y x * RADTODEG in
  let ascendant := normalize_angle ascendant in
  ascendant.

Definition _calculate_mc (lst latitude : R) : R :=
  let mc := lst in
  let latitude_corr := latitude * 0.0001 in
  let mc := normalize_angle (mc + latitude_corr) in
  mc.

(** [math.tan] of the latitude, here and in the functions below: at a
    latitude of exactly 90 degrees the real tangent is at its pole,
    where Python has a large finite double.  Every cusp goes through
    [normalize_angle] afterwards, and what is proved of the cusps does
    not depend on the value of the tangent. *)
Definition _calculate_placidus_cusp (ascendant diurnal_arc latitude lst : R)
    : R :=
  let lat_rad := latitude * DEGTORAD in
  let lat_factor := tan lat_rad in
  let cusp_correction := diurnal_arc * lat_factor * 0.01 in
  let cusp := ascendant + diurnal_arc + cusp_correction in
  let cusp := normalize_angle cusp in
  cusp.

(** [[0.0] * 12] *)
Definition twelve_zeros : list R := repeat 0.0 12.

Definition _placidus_houses (ascendant mc latitude lst : R) : list R :=
  let houses := twelve_zeros in
  let houses := list_set houses 0 ascendant in
  let houses := list_set houses 9 mc in
  let houses :=
    fold_left
      (fun houses (i : Z) =>
         if (i =? 9)%Z then houses
         else
           let diurnal_arc :=
             if (7 <=? i)%Z then IZR (180 + (i - 6) * 30)
             else IZR ((i - 6) * 30) in
           let house_cusp :=
             _calculate_placidus_cusp ascendant diurnal_arc latitude lst in
           list_set houses (Z.to_nat i) house_cusp)
      [11; 10; 9; 8; 7; 6; 5; 4; 3; 2; 1]%Z houses in
  let houses :=
    fold_left
      (fun houses (i : nat) =>
         if (0 <? i)%nat && ltb (nth i houses 0) (nth (i - 1) houses 0)
         then list_set houses i (nth i houses 0 + 360)
         else houses)
      (seq 0 12) houses in
  houses.

Definition _calculate_oblique_ascension (angle lat_rad : R) : R :=
  let tan_lat := tan lat_rad in
  let oblique_asc :=
    angle - atan (tan_lat * sin (angle * DEGTORAD)) * RADTODEG in
  normalize_angle oblique_asc.

Definition _ascension_to_longitude (ascension lat_rad : R) : R :=
  let longitude :=
    ascension + atan (tan lat_rad * sin (ascension * DEGTORAD)) * RADTODEG in
  normalize_angle longitude.

Definition _koch_houses (ascendant mc latitude lst : R) : list R :=
  let houses := twelve_zeros in
  let houses := list_set houses 0 ascendant in
  let houses := list_set houses 9 mc in
  let lat_rad := latitude * DEGTORAD in
  fold_left
    (fun houses (i : nat) =>
       if (i =? 9)%nat then houses
       else
         let house_angle := INR i * 30 in
         let ascension := _calculate_oblique_ascension house_angle lat_rad in
         let house_cusp := _ascension_to_longitude ascension lat_rad in
         list_set houses i house_cusp)
    (seq 1 11) houses.

Definition _vertical_to_longitude (vertical_angle lat_rad ascendant : R)
    : R :=
  let tan_factor := tan lat_rad in
  let longitude :=
    ascendant + vertical_angle
    + (tan_factor * sin (vertical_angle * DEGTORAD) * 5) in
  normalize_angle longitude.

Definition _campanus_houses (ascendant mc latitude : R) : list R :=
  let houses := twelve_zeros in
  let houses := list_set houses 0 ascendant in
  let lat_rad := latitude * DEGTORAD in
  fold_left
    (fun houses (i : nat) =>
       let vertical_angle := INR i * 30 in
       let house_cusp :=
         _vertical_to_longitude vertical_angle lat_rad ascendant in
       list_set houses i house_cusp)
    (seq 0 12) houses.

Definition _equatorial_to_longitude (equatorial_angle latitude : R) : R :=
  let lat_factor := tan (latitude * DEGTORAD) * 0.1 in
  let longitude := equatorial_angle + (equatorial_angle * lat_factor) in
  normalize_angle longitude.

Definition _regiomontanus_houses (ascendant mc latitude : R) : list R :=
  let houses := twelve_zeros in
  let houses := list_set houses 0 ascendant in
  let houses := list_set houses 9 mc in
  fold_left
    (fun houses (i : nat) =>
       if (i =? 0)%nat || (i =? 9)%nat then houses
       else
         let equatorial_angle := INR i * 30 in
         let house_cusp := _equatorial_to_longitude equatorial_angle latitude in
         list_set houses i house_cusp)
    (seq 0 12) houses.

(** The cusps are exact sums here and rounded ones on doubles: a cusp
    of the code can be a last digit away from the one of the model. *)
Definition _equal_houses (ascendant : R) : list R :=
  let houses := twelve_zeros in
  fold_left
    (fun houses (i : nat) =>
       list_set houses i (normalize_angle (ascendant + INR i * 30)))
    (seq 0 12) houses.

Definition _porphyry_houses (ascendant mc : R) : result (list R) :=
  let houses := twelve_zeros in
  let houses := list_set houses 0 ascendant in
  let houses := list_set houses 9 mc in
  let quadrant1_size := normalize_angle (mc - ascendant) in
  let quadrant2_size := normalize_angle (ascendant + 180 - mc) in
  let quadrant3_size := quadrant1_size in
  let quadrant4_size := quadrant2_size in
  let houses :=
    list_set houses 10 (normalize_angle (mc + quadrant1_size / 3)) in
  cusp12 <- call_global "normalize_shape" (mc + 2 * quadrant1_size / 3) ;;
  let houses := list_set houses 11 cusp12 in
  let houses :=
    list_set houses 1 (normalize_angle (ascendant + quadrant2_size / 3)) in
  let houses :=
    list_set houses 2 (normalize_angle (ascendant + 2 * quadrant2_size / 3)) in
  let houses :=
    list_set houses 3
      (normalize_angle (ascendant + 180 + quadrant3_size / 3)) in
  let houses :=
    list_set houses 4
      (normalize_angle (ascendant + 180 + 2 * quadrant3_size / 3)) in
  let houses :=
    list_set houses 6 (normalize_angle (mc + 180 + quadrant4_size / 3)) in
  let houses :=
    list_set houses 7 (normalize_angle (mc + 180 + 2 * quadrant4_size / 3)) in
  Ok houses.

(** [calculate_houses]; the assignment to [self.current_system], which
    nothing reads, is left out. *)
Definition calculate_houses (jd latitude longitude : R) (system : string)
    : result HouseLayout :=
  let lst := _calculate_local_sidereal_time jd longitude in
  let ascendant := _calculate_ascendant lst latitude in
  let mc := _calculate_mc lst latitude in
  houses <-
    (if String.eqb system "P" then
       Ok (_placidus_houses ascendant mc latitude lst)
     else if String.eqb system "K" then
       Ok (_koch_houses ascendant mc latitude lst)
     else if String.eqb system "C" then
       Ok (_campanus_houses ascendant mc latitude)
     else if String.eqb system "R" then
       Ok (_regiomontanus_houses ascendant mc latitude)
     else if String.eqb system "E" then
       Ok (_equal_houses ascendant)
     else if String.eqb system "O" then
       _porphyry_houses ascendant mc
     else
       Ok (_placidus_houses ascendant mc latitude lst)) ;;
  let descendant := normalize_angle (ascendant + 180) in
  let ic := normalize_angle (mc + 180) in
  Ok (mkHouseLayout houses ascendant descendant mc ic system lst).

End Houses.

(* ================================================================== *)
(** ** core/aspects.py                                                 *)
(* ================================================================== *)

Module Aspects.
Import Utils Math.
Import Ephemeris.

Record Aspect : Type := mkAspect {
  planet1 : string;
  planet2 : string;
  aspect : string;
  angle : R;
  actual_angle : R;
  orb : R;
  type : string;
  score : Z;
  applying : bool;
  separating : bool
}.

Definition _is_applying (planet1_data planet2_data : BodyPosition) : bool :=
  let speed1 := speed planet1_data in
  let speed2 := speed planet2_data in
  ltb (Rabs speed2) (Rabs speed1).

Definition _is_separating (planet1_data planet2_data : BodyPosition) : bool :=
  negb (_is_applying planet1_data planet2_data).

(** The body of the innermost loop: the aspect appended for one pair
    and one row of the table, if the pair is within the row's orb. *)
Definition aspect_for (orb_factor max_orb : R)
    (planet1 : string) (data1 : BodyPosition)
    (planet2 : string) (data2 : BodyPosition)
    (distance : R) (aspect_def : Constants.AspectDef) : list Aspect :=
  let aspect_angle := Constants.angle aspect_def in
  let aspect_orb := Constants.orb aspect_def * orb_factor in
  let orb := Rabs (distance - aspect_angle) in
  if leb orb (Rmin aspect_orb max_orb) then
    [mkAspect planet1 planet2 (Constants.name aspect_def) aspect_angle
       distance orb (Constants.type aspect_def) (Constants.score aspect_def)
       (_is_applying data1 data2) (_is_separating data1 data2)]
  else [].

(** The three nested loops of [calculate_aspects]: [aspects_found]
    as it is just before the sort.  [orb_factor] is [self.orb_factor]
    and [aspects] is [self.aspects].  The position looked up under a
    key that comes from [positions.keys()] is the value stored with
    that key, so the loops run over the entries.  Appending inside the
    loops builds the list in loop order. *)
Definition aspects_found_with (aspects : list Constants.AspectDef)
    (orb_factor : R) (positions : dict BodyPosition) (max_orb : R)
    : list Aspect :=
  let planets := enumerate positions in
  flat_map
    (fun '(i, (planet1, data1)) =>
       flat_map
         (fun '(j, (planet2, data2)) =>
            if (j <=? i)%nat then []
            else
              let pos1 := longitude data1 in
              let pos2 := longitude data2 in
              let distance := calculate_distance pos1 pos2 in
              flat_map
                (aspect_for orb_factor max_orb
                   planet1 data1 planet2 data2 distance)
                aspects)
         planets)
    planets.

Definition calculate_aspects_with (aspects : list Constants.AspectDef)
    (orb_factor : R) (positions : dict BodyPosition) (max_orb : R)
    : list Aspect :=
  let aspects_found :=
    aspects_found_with aspects orb_factor positions max_orb in
  sort_by_key orb aspects_found.

(** The calculator as [__init__] leaves it: the [ASPECTS] table and
    an orb factor of 1.0. *)
Definition calculate_aspects (positions : dict BodyPosition) (max_orb : R)
    : list Aspect :=
  calculate_aspects_with Constants.ASPECTS 1.0 positions max_orb.

End Aspects.

(* ================================================================== *)
(** ** core/calculator.py                                              *)
(* ================================================================== *)

Module Calculator.
Import Utils Math.
Import Ephemeris.
Local Open Scope py_scope.

(** The part of a chart that [calculate_compatibility] reads before
    it computes the percentage. *)
Record Chart : Type := mkChart {
  planet_positions : dict BodyPosition
}.

Record SynastryAspect : Type := mkSynastryAspect {
  planet1 : string;
  planet2 : string;
  aspect : string;
  orb : R;
  score : Z
}.

Record Compatibility : Type := mkCompatibility {
  synastry_aspects : list SynastryAspect;
  compatibility_score : Z;
  compatibility_percentage : R;
  interpretation : string
}.

Definition _interpret_compatibility (percentage : R) : string :=
  if leb 80 percentage then
    "Compatibilité exceptionnelle - Union harmonieuse et complète"
  else if leb 60 percentage then
    "Très bonne compatibilité - Relation équilibrée avec potentiel de croissance"
  else if leb 40 percentage then
    "Compatibilité moyenne - Travail et communication nécessaires"
  else if leb 20 percentage then
    "Difficultés importantes - Efforts conséquents requis pour la relation"
  else
    "Compatibilité très faible - Défis majeurs à surmonter".

(** The aspects collected by the three nested loops. *)
Definition find_synastry_aspects (chart1 chart2 : Chart)
    : list SynastryAspect :=
  flat_map
    (fun '(planet1, data1) =>
       flat_map
         (fun '(planet2, data2) =>
            let distance :=
              calculate_distance (longitude data1) (longitude data2) in
            flat_map
              (fun aspect_def =>
                 let orb := Rabs (distance - Constants.angle aspect_def) in
                 if leb orb (Constants.orb aspect_def) then
                   [mkSynastryAspect planet1 planet2
                      (Constants.name aspect_def) orb
                      (Constants.score aspect_def)]
                 else [])
              Constants.ASPECTS)
         (planet_positions chart2))
    (planet_positions chart1).

(** [sum(aspect['score'] for aspect in synastry_aspects)] *)
Definition sum_scores (aspects : list SynastryAspect) : Z :=
  fold_left (fun total a => (total + score a)%Z) aspects 0%Z.

(** [calculate_compatibility] up to the interpretation of the
    percentage; the element analysis, which the percentage does not
    use and which runs after it, is left out. *)
Definition calculate_compatibility (chart1 chart2 : Chart)
    : result Compatibility :=
  let synastry_aspects := find_synastry_aspects chart1 chart2 in
  let total_score := sum_scores synastry_aspects in
  let max_possible_score :=
    (Z.of_nat (List.length synastry_aspects) * 10)%Z in
  ratio <- truediv (IZR (total_score + max_possible_score))
                   (IZR (2 * max_possible_score)) ;;
  let compatibility_percentage := Rmax 0 (Rmin 100 (ratio * 100)) in
  Ok (mkCompatibility synastry_aspects total_score compatibility_percentage
        (_interpret_compatibility compatibility_percentage)).

End Calculator.

(* ================================================================== *)
(** ** Python built-ins on numbers                                     *)
(* ================================================================== *)

Module Builtins.

(** [int(x)] for a float: the integer part, towards zero. *)
Definition int (x : R) : Z :=
  if Rle_dec 0 x then Zfloor x else (- Zfloor (- x))%Z.

(** [x // y] for floats, [y] a positive literal: the floor of the
    quotient, as a float. *)
Definition floordiv (x y : R) : R := IZR (Zfloor (x / y)).

(** [x % y] for floats, [y] a positive literal. *)
Definition fmod (x y : R) : R := x - y * IZR (Zfloor (x / y)).

(** [i in signs] for a list of ints. *)
Definition int_in (i : Z) (signs : list Z) : bool := existsb (Z.eqb i) signs.

(** [name in names] for a list of strings. *)
Definition str_in (name : string) (names : list string) : bool :=
  existsb (String.eqb name) names.

(** The first result of a loop body that returns from inside the loop. *)
Fixpoint first_return {A B : Type} (body : A -> option B) (xs : list A)
  : option B :=
  match xs with
  | [] => None
  | x :: rest =>
      match body x with
      | Some r => Some r
      | None => first_return body rest
      end
  end.

End Builtins.

(* ================================================================== *)
(** ** core/constants.py, the tables of signs                          *)
(* ================================================================== *)

Module Zodiac.

Definition ZODIAC_SIGNS : list string := [
  "Bélier"; "Taureau"; "Gémeaux"; "Cancer"; "Lion"; "Vierge";
  "Balance"; "Scorpion"; "Sagittaire"; "Capricorne"; "Verseau"; "Poissons"
].

Definition ZODIAC_SYMBOLS : list string :=
  ["♈"; "♉"; "♊"; "♋"; "♌"; "♍"; "♎"; "♏"; "♐"; "♑"; "♒"; "♓"].

Definition ELEMENTS : dict (list Z) := [
  ("Feu", [0; 4; 8]%Z);
  ("Terre", [1; 5; 9]%Z);
  ("Air", [2; 6; 10]%Z);
  ("Eau", [3; 7; 11]%Z)
].

Definition MODALITIES : dict (list Z) := [
  ("Cardinal", [0; 3; 6; 9]%Z);
  ("Fixe", [1; 4; 7; 10]%Z);
  ("Mutable", [2; 5; 8; 11]%Z)
].

End Zodiac.

(* ================================================================== *)
(** ** core/utils.py, the remaining functions                          *)
(* ================================================================== *)

Module Conversions.
Import Builtins Zodiac Math.
Local Open Scope py_scope.

(** [get_zodiac_sign]; after the clamp the index is a position of both
    tables, so the two lookups cannot fail. *)
Definition get_zodiac_sign (longitude : R) : Z * string * string :=
  let sign_index := int (floordiv longitude 30) in
  let degrees_in_sign := fmod longitude 30 in
  let sign_index :=
    if (12 <=? sign_index)%Z then 11%Z
    else if (sign_index <? 0)%Z then 0%Z
    else sign_index in
  (sign_index,
   nth (Z.to_nat sign_index) ZODIAC_SIGNS "",
   nth (Z.to_nat sign_index) ZODIAC_SYMBOLS "").

Definition is_retrograde (speed : R) : bool := ltb speed 0.

(** [for name, signs in table.items(): if sign_index in signs: return
    name], then [return ""]. *)
Definition first_table_with (table : dict (list Z)) (sign_index : Z)
  : string :=
  match first_return
          (fun '(name, signs) =>
             if int_in sign_index signs then Some name else None)
          table with
  | Some name => name
  | None => ""
  end.

Definition get_element (sign_index : Z) : string :=
  first_table_with ELEMENTS sign_index.

Definition get_modality (sign_index : Z) : string :=
  first_table_with MODALITIES sign_index.



End Conversions.

(* ================================================================== *)
(** ** Python runtime: [IndexError] and list indexing                  *)
(* ================================================================== *)

Module Outcome.

(** The exceptions of [Py.exn], and [IndexError]. *)
Inductive error : Type :=
| Builtin (e : exn)
| IndexError (message : string).

Inductive outcome (A : Type) : Type :=
| Returns (value : A)
| Raises (e : error).
Arguments Returns {A} value.
Arguments Raises {A} e.

Definition lift {A} (m : result A) : outcome A :=
  match m with
  | Ok v => Returns v
  | Raise e => Raises (Builtin e)
  end.

Definition and_then {A B} (m : outcome A) (k : A -> outcome B) : outcome B :=
  match m with
  | Returns v => k v
  | Raises e => Raises e
  end.

(** [for x in xs: acc = body(acc, x)], stopping at the first raise. *)
Fixpoint for_all {A S} (xs : list A) (body : S -> A -> outcome S) (acc : S)
  : outcome S :=
  match xs with
  | [] => Returns acc
  | x :: rest => and_then (body acc x) (for_all rest body)
  end.

(** [xs[i]] for a list and an int: a negative index counts from the
    end. *)
Definition list_getitem {A} (xs : list A) (i : Z) : outcome A :=
  let n := Z.of_nat (List.length xs) in
  let j := if (i <? 0)%Z then (i + n)%Z else i in
  if (j <? 0)%Z then Raises (IndexError "list index out of range")
  else
    match nth_error xs (Z.to_nat j) with
    | Some x => Returns x
    | None => Raises (IndexError "list index out of range")
    end.

End Outcome.

(* ================================================================== *)
(** ** core/houses.py, placing a body in a house                       *)
(* ================================================================== *)

Module HousePlacement.
Import Utils Math Outcome.
Local Open Scope py_scope.

(** The interval test of [get_planet_house]: is the longitude between a
    cusp and the next one, the interval being read through 0 degrees
    when the next cusp is the smaller. *)
Definition between (house_cusp next_cusp planet_longitude : R) : bool :=
  if ltb next_cusp house_cusp then
    leb house_cusp planet_longitude || ltb planet_longitude next_cusp
  else
    leb house_cusp planet_longitude && ltb planet_longitude next_cusp.

(** One trip of the loop of [get_planet_house]: the two cusps are read
    from the list, which raises [IndexError] at a position the list
    does not have, and then compared with the longitude. *)
Definition in_house (planet_longitude : R) (houses : list R) (i : nat)
  : outcome bool :=
  let next_i := ((i + 1) mod 12)%nat in
  and_then (list_getitem houses (Z.of_nat i)) (fun house_cusp =>
  and_then (list_getitem houses (Z.of_nat next_i)) (fun next_cusp =>
  Returns (between house_cusp next_cusp planet_longitude))).

(** [for i in indices: ... return i + 1], then [return 1]. *)
Fixpoint first_house (planet_longitude : R) (houses : list R)
    (indices : list nat) : outcome Z :=
  match indices with
  | [] => Returns 1%Z
  | i :: rest =>
      and_then (in_house planet_longitude houses i) (fun inside =>
      if inside then Returns (Z.of_nat i + 1)%Z
      else first_house planet_longitude houses rest)
  end.

Definition get_planet_house (planet_longitude : R) (houses : list R)
  : outcome Z :=
  first_house planet_longitude houses (seq 0 12).


End HousePlacement.

(* ================================================================== *)
(** ** core/aspects.py, the aspect patterns                            *)
(* ================================================================== *)

Module AspectPatterns.
Import Builtins Aspects.

(** [[a for a in aspects if a['aspect'] == kind]] *)
Definition of_kind (kind : string) (aspects : list Aspect) : list Aspect :=
  filter (fun a => String.eqb (aspect a) kind) aspects.

(** [d[key]] where the code has stored the key just before, or has
    tested it with [in]. *)
Definition stored (d : dict (list string)) (key : string) : list string :=
  match get d key with
  | Some names => names
  | None => []
  end.

(** One trip of the loop that fills [planets_in_trine]. *)
Definition link (planets_in_trine : dict (list string)) (trine : Aspect)
  : dict (list string) :=
  let p1 := planet1 trine in
  let p2 := planet2 trine in
  let planets_in_trine :=
    if contains planets_in_trine p1 then planets_in_trine
    else set planets_in_trine p1 [] in
  let planets_in_trine :=
    if contains planets_in_trine p2 then planets_in_trine
    else set planets_in_trine p2 [] in
  let planets_in_trine :=
    set planets_in_trine p1 (stored planets_in_trine p1 ++ [p2])%list in
  let planets_in_trine :=
    set planets_in_trine p2 (stored planets_in_trine p2 ++ [p1])%list in
  planets_in_trine.

Definition _find_grand_trine (aspects : list Aspect) : list string :=
  let trines := of_kind "Trigone" aspects in
  let planets_in_trine := fold_left link trines [] in
  match
    first_return
      (fun '(planet, connections) =>
         first_return
           (fun connected =>
              if contains planets_in_trine connected then
                first_return
                  (fun third =>
                     if contains planets_in_trine third
                        && str_in planet (stored planets_in_trine third)
                     then Some [planet; connected; third]
                     else None)
                  (stored planets_in_trine connected)
              else None)
           connections)
      planets_in_trine
  with
  | Some found => found
  | None => []
  end.

(** What one square adds to [square_planets], for the opposition
    between [p1] and [p2]. *)
Definition square_planets_of (p1 p2 : string) (square : Aspect)
  : list string :=
  if String.eqb (planet1 square) p1 && negb (String.eqb (planet2 square) p2)
  then [planet2 square]
  else if String.eqb (planet2 square) p1
          && negb (String.eqb (planet1 square) p2)
  then [planet1 square]
  else if String.eqb (planet1 square) p2
          && negb (String.eqb (planet2 square) p1)
  then [planet2 square]
  else if String.eqb (planet2 square) p2
          && negb (String.eqb (planet1 square) p1)
  then [planet1 square]
  else [].

Definition _find_t_square (aspects : list Aspect) : list string :=
  let oppositions := of_kind "Opposition" aspects in
  let squares := of_kind "Carré" aspects in
  match
    first_return
      (fun opposition =>
         let p1 := planet1 opposition in
         let p2 := planet2 opposition in
         let square_planets := flat_map (square_planets_of p1 p2) squares in
         match square_planets with
         | first :: _ => Some [p1; p2; first]
         | [] => None
         end)
      oppositions
  with
  | Some found => found
  | None => []
  end.

(** [shared_planet] and [other_planets] for two quincunxes. *)
Definition shared_and_others (q1 q2 : Aspect) : option string * list string :=
  if String.eqb (planet1 q1) (planet1 q2) then
    (Some (planet1 q1), [planet2 q1; planet2 q2])
  else if String.eqb (planet1 q1) (planet2 q2) then
    (Some (planet1 q1), [planet2 q1; planet1 q2])
  else if String.eqb (planet2 q1) (planet1 q2) then
    (Some (planet2 q1), [planet1 q1; planet2 q2])
  else if String.eqb (planet2 q1) (planet2 q2) then
    (Some (planet2 q1), [planet1 q1; planet1 q2])
  else
    (None, []).

(** The body of the two loops over the quincunxes: [None] or the empty
    name for [shared_planet] is false, any other name is true. *)
Definition yod_of (sextiles : list Aspect) (q1 q2 : Aspect)
  : option (list string) :=
  match shared_and_others q1 q2 with
  | (Some shared_planet, [other0; other1]) =>
      if negb (String.eqb shared_planet "") then
        first_return
          (fun sextile =>
             if (String.eqb (planet1 sextile) other0
                 && String.eqb (planet2 sextile) other1)
                || (String.eqb (planet1 sextile) other1
                    && String.eqb (planet2 sextile) other0)
             then Some [shared_planet; other0; other1]
             else None)
          sextiles
      else None
  | _ => None
  end.

(** [for i, q1 in enumerate(qs): for j, q2 in enumerate(qs[i+1:], i+1)],
    with a body that may return. *)
Fixpoint each_later_pair {B : Type} (body : Aspect -> Aspect -> option B)
    (quincunxes : list Aspect) : option B :=
  match quincunxes with
  | [] => None
  | q1 :: later =>
      match first_return (body q1) later with
      | Some found => Some found
      | None => each_later_pair body later
      end
  end.

Definition _find_yod (aspects : list Aspect) : list string :=
  let quincunxes := of_kind "Quincunce" aspects in
  let sextiles := of_kind "Sextile" aspects in
  match each_later_pair (yod_of sextiles) quincunxes with
  | Some found => found
  | None => []
  end.

Record Pattern : Type := mkPattern {
  pattern_type : string;
  planets : list string;
  interpretation : string
}.

(** [if found: patterns.append(...)]: a list is true when it is not
    empty. *)
Definition append_if_found (patterns : list Pattern) (found : list string)
    (type interpretation : string) : list Pattern :=
  match found with
  | [] => patterns
  | _ :: _ => (patterns ++ [mkPattern type found interpretation])%list
  end.

Definition calculate_aspect_patterns (aspects : list Aspect) : list Pattern :=
  let patterns := [] in
  let grand_trine := _find_grand_trine aspects in
  let patterns :=
    append_if_found patterns grand_trine
      "Grand Trigone" "Harmonie et talents naturels" in
  let t_square := _find_t_square aspects in
  let patterns :=
    append_if_found patterns t_square
      "T-Carré" "Tension créative et motivation" in
  let yod := _find_yod aspects in
  let patterns :=
    append_if_found patterns yod
      "Yod" "Destinée spéciale et ajustements" in
  patterns.

End AspectPatterns.

(* ================================================================== *)
(** ** core/calculator.py, houses and elements of a chart              *)
(* ================================================================== *)

Module ChartAnalysis.
Import Builtins Zodiac Math Outcome.
Import Ephemeris HousePlacement.
Local Open Scope py_scope.

Definition _assign_planets_to_houses (planet_positions : dict BodyPosition)
    (houses : list R) : outcome (dict Z) :=
  let planet_houses := [] in
  for_all planet_positions
    (fun planet_houses '(planet, data) =>
       let longitude := longitude data in
       and_then (get_planet_house longitude houses) (fun house_num =>
       Returns (set planet_houses planet house_num)))
    planet_houses.

(** [counts[name]] under a key the dictionary is created with. *)
Definition count_of (counts : dict Z) (name : string) : Z :=
  match get counts name with
  | Some n => n
  | None => 0%Z
  end.

(** [for name, signs in table.items(): if sign_index in signs:
    counts[name] += 1; break] *)
Definition count_sign (table : dict (list Z)) (counts : dict Z)
    (sign_index : Z) : dict Z :=
  match
    first_return
      (fun '(name, signs) =>
         if int_in sign_index signs then Some name else None)
      table
  with
  | Some name => set counts name (count_of counts name + 1)%Z
  | None => counts
  end.

Definition _calculate_elements (planet_positions : dict BodyPosition)
  : dict Z :=
  let element_counts :=
    [("Feu", 0%Z); ("Terre", 0%Z); ("Air", 0%Z); ("Eau", 0%Z)] in
  fold_left
    (fun element_counts '(planet, data) =>
       let longitude := longitude data in
       let sign_index := int (floordiv longitude 30) in
       count_sign ELEMENTS element_counts sign_index)
    planet_positions element_counts.

Definition _calculate_modalities (planet_positions : dict BodyPosition)
  : dict Z :=
  let modality_counts :=
    [("Cardinal", 0%Z); ("Fixe", 0%Z); ("Mutable", 0%Z)] in
  fold_left
    (fun modality_counts '(planet, data) =>
       let longitude := longitude data in
       let sign_index := int (floordiv longitude 30) in
       count_sign MODALITIES modality_counts sign_index)
    planet_positions modality_counts.

Definition compatibility_scores : dict (dict Z) := [
  ("Feu", [("Feu", 8%Z); ("Terre", 6%Z); ("Air", 9%Z); ("Eau", 4%Z)]);
  ("Terre", [("Feu", 6%Z); ("Terre", 8%Z); ("Air", 5%Z); ("Eau", 9%Z)]);
  ("Air", [("Feu", 9%Z); ("Terre", 5%Z); ("Air", 7%Z); ("Eau", 6%Z)]);
  ("Eau", [("Feu", 4%Z); ("Terre", 9%Z); ("Air", 6%Z); ("Eau", 8%Z)])
].

(** [elements1[element] > 2 or elements2[element] > 2]: the second
    dictionary is read only when the first count is not above 2. *)
Definition _get_dominant_elements (elements1 elements2 : dict Z)
  : result (list string) :=
  for_each (keys elements1)
    (fun dominant element =>
       count1 <- getitem elements1 element ;;
       if (2 <? count1)%Z then Ok (dominant ++ [element])%list
       else
         count2 <- getitem elements2 element ;;
         if (2 <? count2)%Z then Ok (dominant ++ [element])%list
         else Ok dominant)
    [].

Record ElementCompatibility : Type := mkElementCompatibility {
  total_score : Z;
  element_analysis : dict Z;
  dominant_elements : list string
}.

Definition _analyze_element_compatibility (elements1 elements2 : dict Z)
  : result ElementCompatibility :=
  totals <-
    for_each (keys elements1)
      (fun totals elem1 =>
         for_each (keys elements2)
           (fun '(total_score, element_analysis) elem2 =>
              row <- getitem compatibility_scores elem1 ;;
              score <- getitem row elem2 ;;
              Ok ((total_score + score)%Z,
                  set element_analysis (elem1 ++ "-" ++ elem2)%string score))
           totals)
      (0%Z, []) ;;
  let '(total_score, element_analysis) := totals in
  dominant <- _get_dominant_elements elements1 elements2 ;;
  Ok (mkElementCompatibility total_score element_analysis dominant).

End ChartAnalysis.

(* ================================================================== *)
(** ** core/calculator.py, the natal chart                             *)
(* ================================================================== *)

Module NatalChart.
Import Builtins Zodiac Math.
Import Ephemeris Aspects.
Export Outcome.

(** An int inside an f-string. *)
Definition str (n : Z) : string := NilZero.string_of_int (Z.to_int n).

Record PlanetText : Type := mkPlanetText {
  sign : string;
  house : string;
  retrograde : bool
}.

Record Interpretations : Type := mkInterpretations {
  planets : dict PlanetText;
  aspects : dict string;
  houses : dict string;
  summary : string
}.

Definition _generate_summary (planet_positions : dict BodyPosition)
    (aspects : list Aspect) (house_data : Houses.HouseLayout) : string :=
  let planet_count := Z.of_nat (List.length planet_positions) in
  let aspect_count := Z.of_nat (List.length aspects) in
  if (planet_count * 2 <? aspect_count)%Z then
    "Thème riche en aspects - vie complexe et intéressante"
  else if (aspect_count <? planet_count)%Z then
    "Thème avec peu d'aspects - vie plus simple et directe"
  else
    "Thème équilibré - vie harmonieuse".

(** [_generate_interpretations].  In the second loop the right-hand
    side [aspect['interpretation']] is evaluated first; an aspect is a
    dictionary with the ten keys of [Aspects.Aspect], none of which is
    "interpretation", so the lookup raises. *)
Definition _generate_interpretations (planet_positions : dict BodyPosition)
    (aspects : list Aspect) (house_data : Houses.HouseLayout)
    (planet_houses : dict Z) : outcome Interpretations :=
  and_then
    (for_all planet_positions
       (fun planets '(planet, data) =>
          let sign_index := int (floordiv (longitude data) 30) in
          and_then (list_getitem ZODIAC_SIGNS sign_index) (fun sign =>
          and_then (lift (getitem planet_houses planet)) (fun house =>
          Returns
            (set planets planet
               (mkPlanetText
                  (planet ++ " en " ++ sign)%string
                  (planet ++ " en maison " ++ str house)%string
                  (Ephemeris.retrograde data))))))
       [])
    (fun planets =>
  and_then
    (for_all (firstn 5 aspects)
       (fun texts aspect =>
          and_then (Raises (Builtin (KeyError "interpretation")))
            (fun text : string =>
               Returns
                 (set texts
                    (planet1 aspect ++ "-" ++ planet2 aspect)%string text)))
       [])
    (fun aspect_texts =>
  and_then
    (for_all (seq 0 12)
       (fun houses i =>
          and_then (list_getitem (Houses.houses house_data) (Z.of_nat i))
            (fun cusp =>
          let house_sign := int (floordiv cusp 30) in
          and_then (list_getitem ZODIAC_SIGNS house_sign) (fun sign_name =>
          Returns
            (set houses
               ("House_" ++ str (Z.of_nat i + 1))%string
               ("Maison " ++ str (Z.of_nat i + 1) ++ " en " ++ sign_name)%string))))
       [])
    (fun house_texts =>
  let summary := _generate_summary planet_positions aspects house_data in
  Returns (mkInterpretations planets aspect_texts house_texts summary)))).

(** What [calculate_natal_chart] computes; the birth date, the time
    zone and the copy of the configuration, which it passes on as it
    received them, are left out. *)
Record Chart : Type := mkChart {
  julian_day : R;
  planet_positions : dict BodyPosition;
  house_data : Houses.HouseLayout;
  planet_houses : dict Z;
  chart_aspects : list Aspect;
  aspect_patterns : list AspectPatterns.Pattern;
  element_counts : dict Z;
  modality_counts : dict Z;
  interpretations : Interpretations
}.

(** [calculate_natal_chart] from its second statement on: [jd] is the
    Julian day [_datetime_to_julian] made of the birth date and the
    time zone.  The house system is the 'P' of the default
    configuration, and [calculate_aspects] is called with its default
    [max_orb] of 8.0. *)
Definition calculate_natal_chart (jd latitude longitude : R) : outcome Chart :=
  and_then (lift (calculate_all_planets jd)) (fun planet_positions =>
  and_then (lift (Houses.calculate_houses jd latitude longitude "P"))
    (fun house_data =>
  and_then
    (ChartAnalysis._assign_planets_to_houses planet_positions
       (Houses.houses house_data))
    (fun planet_houses =>
  let aspects := calculate_aspects planet_positions 8.0 in
  let aspect_patterns := AspectPatterns.calculate_aspect_patterns aspects in
  let element_counts := ChartAnalysis._calculate_elements planet_positions in
  let modality_counts :=
    ChartAnalysis._calculate_modalities planet_positions in
  and_then
    (_generate_interpretations planet_positions aspects house_data
       planet_houses)
    (fun interpretations =>
  Returns
    (mkChart jd planet_positions house_data planet_houses aspects
       aspect_patterns element_counts modality_counts interpretations))))).

End NatalChart.

(* ================================================================== *)
(** ** core/utils.py on IEEE doubles                                   *)
(* ================================================================== *)

(** The angle and date functions of [core/utils.py] with Python's
    [float] as what it is, a binary64 number, for evaluating them where
    rounding decides.  A [while] loop runs on fuel: [None] says that
    the loop is still going after that many tests.  [math.floor] and
    the conversion of an [int] raise on values no double or no integer
    stands for, which is [None] as well. *)
Module Binary64.
Import Floats.
Local Open Scope float_scope.
Local Set Warnings "-inexact-float".

(** [math.floor(x)]: raises on an infinity and on a NaN. *)
Definition floor (x : float) : option Z :=
  match Prim2SF x with
  | S754_zero _ => Some 0%Z
  | S754_finite s m e =>
      let n := if s then Z.neg m else Z.pos m in
      Some (if (0 <=? e)%Z then Z.shiftl n e else Z.shiftr n (- e))
  | S754_infinity _ | S754_nan => None
  end.

(** [int(x)]: the integer part, towards zero; raises as [math.floor]
    does. *)
Definition int (x : float) : option Z :=
  match Prim2SF x with
  | S754_zero _ => Some 0%Z
  | S754_finite s m e =>
      let n := if (0 <=? e)%Z then Z.shiftl (Z.pos m) e
               else Z.shiftr (Z.pos m) (- e) in
      Some (if s then (- n)%Z else n)
  | S754_infinity _ | S754_nan => None
  end.

(** An [int] that meets a [float] in an operation: the nearest double,
    and a raise where that is no finite double. *)
Definition of_int (z : Z) : option float :=
  let x := SF2Prim (binary_normalize prec emax z 0 false) in
  if is_infinity x then None else Some x.

Definition bind {A B} (m : option A) (k : A -> option B) : option B :=
  match m with
  | Some v => k v
  | None => None
  end.

Notation "x <- m ;; k" := (bind m (fun x => k))
  (at level 61, m at next level, right associativity).

(** [while angle < 0: angle += 360] *)
Fixpoint while_negative (fuel : nat) (angle : float) : option float :=
  match fuel with
  | O => None
  | S fuel =>
      if angle <? 0 then while_negative fuel (angle + 360) else Some angle
  end.

(** [while angle >= 360: angle -= 360] *)
Fixpoint while_full_turn (fuel : nat) (angle : float) : option float :=
  match fuel with
  | O => None
  | S fuel =>
      if 360 <=? angle then while_full_turn fuel (angle - 360)
      else Some angle
  end.

Definition normalize_angle (fuel : nat) (angle : float) : option float :=
  angle <- while_negative fuel angle ;;
  while_full_turn fuel angle.

(** [min(diff, 360 - diff)]: the second only where it is the smaller. *)
Definition calculate_distance (angle1 angle2 : float) : float :=
  let diff := abs (angle1 - angle2) in
  if 360 - diff <? diff then 360 - diff else diff.

Definition deg_to_dms (degrees : float) : option (Z * Z * float) :=
  d <- int degrees ;;
  d_f <- of_int d ;;
  sixty <- of_int 60 ;;
  m <- int ((degrees - d_f) * sixty) ;;
  m_f <- of_int m ;;
  let s := ((degrees - d_f) * sixty - m_f) * sixty in
  Some (d, m, s).

(** [m / 60] divides two ints: the quotient of their doubles, which is
    the same double for ints below 2^53. *)
Definition dms_to_deg (d m : Z) (s : float) : option float :=
  d_f <- of_int d ;;
  m_f <- of_int m ;;
  sixty <- of_int 60 ;;
  hour <- of_int 3600 ;;
  Some (d_f + m_f / sixty + s / hour).

(** [year / 100] and [a / 4] divide two ints, as [m / 60] above. *)
Definition julian_day (year month day : Z) (hour : float) : option float :=
  let '(year, month) :=
    if (month <=? 2)%Z then (year - 1, month + 12)%Z else (year, month) in
  year_f <- of_int year ;;
  hundred <- of_int 100 ;;
  a <- floor (year_f / hundred) ;;
  a_f <- of_int a ;;
  four <- of_int 4 ;;
  quarter <- floor (a_f / four) ;;
  let b := (2 - a + quarter)%Z in
  years <- of_int (year + 4716) ;;
  year_days <- floor (365.25 * years) ;;
  months <- of_int (month + 1) ;;
  month_days <- floor (30.6001 * months) ;;
  days <- of_int (year_days + month_days + day + b) ;;
  let jd := days - 1524.5 in
  let jd := jd + hour / 24.0 in
  Some jd.

Definition gregorian_from_jd (jd : float) : option (Z * Z * Z * float) :=
  let jd := jd + 0.5 in
  z <- floor jd ;;
  z_f <- of_int z ;;
  w <- floor ((z_f - 1867216.25) / 36524.25) ;;
  w_f <- of_int w ;;
  four <- of_int 4 ;;
  x <- floor (w_f / four) ;;
  let a := (z + 1 + w - x)%Z in
  let b := (a + 1524)%Z in
  b_f <- of_int b ;;
  c <- floor ((b_f - 122.1) / 365.25) ;;
  c_f <- of_int c ;;
  d <- floor (365.25 * c_f) ;;
  rest <- of_int (b - d) ;;
  e <- floor (rest / 30.6001) ;;
  e_f <- of_int e ;;
  month_days <- floor (30.6001 * e_f) ;;
  let day := (b - d - month_days)%Z in
  let month := if (e <? 14)%Z then (e - 1)%Z else (e - 13)%Z in
  let year := if (2 <? month)%Z then (c - 4716)%Z else (c - 4715)%Z in
  whole <- floor jd ;;
  whole_f <- of_int whole ;;
  twenty_four <- of_int 24 ;;
  let hour := (jd - whole_f) * twenty_four in
  Some (year, month, day, hour).

End Binary64.

(* ================================================================== *)
(** ** core/utils.py under a rounding                                  *)
(* ================================================================== *)

(** The same functions with every float operation written as the exact
    operation followed by a rounding [rnd], left open: what is proved
    of them holds for every rounding that has the properties asked of
    it, those of the doubles among them.  A literal is the rounding of
    its decimal, an [int] that meets a [float] is rounded too, and the
    quotient of two ints is the rounding of the exact quotient.  The
    loops run on fuel as in [Binary64]. *)
Module Rounded.

Section Arithmetic.

Variable rnd : R -> R.

Definition of_int (z : Z) : R := rnd (IZR z).

Fixpoint while_negative (fuel : nat) (angle : R) : option R :=
  match fuel with
  | O => None
  | S fuel =>
      if Rlt_dec angle 0
      then while_negative fuel (rnd (angle + of_int 360))
      else Some angle
  end.

Fixpoint while_full_turn (fuel : nat) (angle : R) : option R :=
  match fuel with
  | O => None
  | S fuel =>
      if Rge_dec angle 360
      then while_full_turn fuel (rnd (angle - of_int 360))
      else Some angle
  end.

Definition normalize_angle (fuel : nat) (angle : R) : option R :=
  match while_negative fuel angle with
  | Some angle => while_full_turn fuel angle
  | None => None
  end.

Definition julian_day (year month day : Z) (hour : R) : R :=
  let '(year, month) :=
    if (month <=? 2)%Z then (year - 1, month + 12)%Z else (year, month) in
  let a := Zfloor (rnd (IZR year / IZR 100)) in
  let b := (2 - a + Zfloor (rnd (IZR a / IZR 4)))%Z in
  let jd :=
    rnd (of_int (Zfloor (rnd (rnd 365.25 * of_int (year + 4716)))
                 + Zfloor (rnd (rnd 30.6001 * of_int (month + 1)))
                 + day + b)
         - rnd 1524.5) in
  let jd := rnd (jd + rnd (hour / rnd 24.0)) in
  jd.

Definition gregorian_from_jd (jd : R) : Z * Z * Z * R :=
  let jd := rnd (jd + rnd 0.5) in
  let z := Zfloor jd in
  let w := Zfloor (rnd (rnd (of_int z - rnd 1867216.25) / rnd 36524.25)) in
  let x := Zfloor (rnd (IZR w / IZR 4)) in
  let a := (z + 1 + w - x)%Z in
  let b := (a + 1524)%Z in
  let c := Zfloor (rnd (rnd (of_int b - rnd 122.1) / rnd 365.25)) in
  let d := Zfloor (rnd (rnd 365.25 * of_int c)) in
  let e := Zfloor (rnd (of_int (b - d) / rnd 30.6001)) in
  let day := (b - d - Zfloor (rnd (rnd 30.6001 * of_int e)))%Z in
  let month := if (e <? 14)%Z then (e - 1)%Z else (e - 13)%Z in
  let year := if (2 <? month)%Z then (c - 4716)%Z else (c - 4715)%Z in
  let hour := rnd (rnd (jd - of_int (Zfloor jd)) * of_int 24) in
  (year, month, day, hour).

(** [int(degrees)] drops the fraction and is exact; the differences,
    the products and the quotients are rounded. *)
Definition deg_to_dms (degrees : R) : Z * Z * R :=
  let d := Builtins.int degrees in
  let m := Builtins.int (rnd (rnd (degrees - of_int d) * of_int 60)) in
  let s :=
    rnd (rnd (rnd (rnd (degrees - of_int d) * of_int 60) - of_int m)
         * of_int 60) in
  (d, m, s).

Definition dms_to_deg (d m : Z) (s : R) : R :=
  rnd (rnd (of_int d + rnd (IZR m / IZR 60)) + rnd (s / of_int 3600)).

End Arithmetic.

End Rounded.

(* ================================================================== *)
(** ** Vocabulary of the properties                                    *)
(* ================================================================== *)

(** The civil calendar the round trip is stated over. *)
Definition is_leap_year (year : Z) : bool :=
  ((year mod 4 =? 0)%Z && negb (year mod 100 =? 0)%Z) || (year mod 400 =? 0)%Z.

Definition days_in_month (year month : Z) : Z :=
  if (month =? 2)%Z then (if is_leap_year year then 29 else 28)%Z
  else if (month =? 4)%Z || (month =? 6)%Z || (month =? 9)%Z || (month =? 11)%Z
       then 30%Z
       else 31%Z.

Definition valid_civil (year month day : Z) (hour : R) : Prop :=
  (1 <= month <= 12)%Z
  /\ (1 <= day <= days_in_month year month)%Z
  /\ 0 <= hour < 24.

(** The whole-day part of both conversions, on integers: every floor of
    the source is a floor of a quotient of integers. *)
Definition day_number (year month day : Z) : Z :=
  let '(year, month) :=
    if (month <=? 2)%Z then (year - 1, month + 12)%Z else (year, month) in
  let a := (year / 100)%Z in
  let b := (2 - a + a / 4)%Z in
  (36525 * (year + 4716) / 100 + 306001 * (month + 1) / 10000
   + day + b - 1524)%Z.

Definition civil_of_day_number (z : Z) : Z * Z * Z :=
  let w := ((100 * z - 186721625) / 3652425)%Z in
  let x := (w / 4)%Z in
  let a := (z + 1 + w - x)%Z in
  let b := (a + 1524)%Z in
  let c := ((100 * b - 12210) / 36525)%Z in
  let d := (36525 * c / 100)%Z in
  let e := (10000 * (b - d) / 306001)%Z in
  let day := (b - d - 306001 * e / 10000)%Z in
  let month := if (e <? 14)%Z then (e - 1)%Z else (e - 13)%Z in
  let year := if (2 <? month)%Z then (c - 4716)%Z else (c - 4715)%Z in
  (year, month, day).

(** The instant of a civil date-time, in days: its day number, which
    begins at midnight, and the hour as a fraction of the day.  This is
    the Julian day of the date-time in exact arithmetic. *)
Definition instant (year month day : Z) (hour : R) : R :=
  IZR (day_number year month day) - 0.5 + hour / 24.

(** The planets computed by the shared Keplerian formula. *)
Definition keplerian_planets : list string :=
  ["Mercury"; "Venus"; "Mars"; "Jupiter"; "Saturn"; "Uranus"; "Neptune"; "Pluto"].

Section KeyOrder.

Variable A : Type.
Variable key : A -> R.

(** Non-decreasing keys along the list. *)
Definition key_sorted (xs : list A) : Prop :=
  StronglySorted (fun a b => key a <= key b) xs.

(** The elements whose key is [k], in list order. *)
Definition with_key (k : R) (xs : list A) : list A :=
  filter (fun a => if Req_dec_T (key a) k then true else false) xs.

End KeyOrder.

Arguments key_sorted {A} key xs.
Arguments with_key {A} key k xs.

(** The two ways two aspects can be on the same unordered pair. *)
Definition same_pair (a b : Aspects.Aspect) : Prop :=
  (Aspects.planet1 a = Aspects.planet1 b
   /\ Aspects.planet2 a = Aspects.planet2 b)
  \/ (Aspects.planet1 a = Aspects.planet2 b
      /\ Aspects.planet2 a = Aspects.planet1 b).

(** A body at a given longitude, for worked examples. *)
Definition body_at (longitude speed : R) : Ephemeris.BodyPosition :=
  Ephemeris.mkBodyPosition longitude 0 1 speed false.

Definition three_bodies : dict Ephemeris.BodyPosition :=
  [("Sun", body_at 10 0.9856474);
   ("Moon", body_at 130 13.176358);
   ("Mars", body_at 101 0.524)].

(** A chart holding the Sun alone. *)
Definition chart_sun_at (longitude : R) : Calculator.Chart :=
  Calculator.mkChart [("Sun", body_at longitude 0.9856474)].

(** The cusp list [calculate_houses] takes for a system code other than
    "O": the branch of its dispatch, Placidus for an unknown code. *)
Definition division_of (system : string) (ascendant mc latitude lst : R)
  : list R :=
  if String.eqb system "P" then
    Houses._placidus_houses ascendant mc latitude lst
  else if String.eqb system "K" then
    Houses._koch_houses ascendant mc latitude lst
  else if String.eqb system "C" then
    Houses._campanus_houses ascendant mc latitude
  else if String.eqb system "R" then
    Houses._regiomontanus_houses ascendant mc latitude
  else if String.eqb system "E" then
    Houses._equal_houses ascendant
  else
    Houses._placidus_houses ascendant mc latitude lst.

(** An angle of the first turn. *)
Definition in_first_turn (x : R) : Prop := 0 <= x < 360.

(** Twelve cusps, all of the first turn. *)
Definition twelve_in_turn (cusps : list R) : Prop :=
  List.length cusps = 12%nat /\ Forall in_first_turn cusps.

(** The test [get_planet_house] makes for house [i + 1] on a list that
    has the twelve cusps. *)
Definition house_test (planet_longitude : R) (cusps : list R) (i : nat)
  : bool :=
  HousePlacement.between (nth i cusps 0) (nth ((i + 1) mod 12) cusps 0)
    planet_longitude.

(** The first house whose test succeeds, house 1 when none does. *)
Definition first_passing (planet_longitude : R) (cusps : list R) : Z :=
  match find (house_test planet_longitude cusps) (seq 0 12) with
  | Some i => (Z.of_nat i + 1)%Z
  | None => 1%Z
  end.

(** Twelve cusps in the order of the houses round the circle: each cusp
    is smaller than the next, except at one house, whose interval goes
    through 0 degrees. *)
Definition cusps_in_order (cusps : list R) : Prop :=
  List.length cusps = 12%nat
  /\ exists wrap,
       (wrap < 12)%nat
       /\ nth ((wrap + 1) mod 12) cusps 0 < nth wrap cusps 0
       /\ forall i, (i < 12)%nat -> i <> wrap ->
                    nth i cusps 0 < nth ((i + 1) mod 12) cusps 0.

(** An aspect of the given kind in the list. *)
Definition has_kind (aspects : list Aspects.Aspect) (kind : string)
    (a : Aspects.Aspect) : Prop :=
  In a aspects /\ Aspects.aspect a = kind.

(** An aspect between two given bodies, either way round. *)
Definition joins (a : Aspects.Aspect) (p q : string) : Prop :=
  (Aspects.planet1 a = p /\ Aspects.planet2 a = q)
  \/ (Aspects.planet1 a = q /\ Aspects.planet2 a = p).

(** Two bodies joined by a trine of the list. *)
Definition in_trine (aspects : list Aspects.Aspect) (p q : string) : Prop :=
  exists trine, has_kind aspects "Trigone" trine /\ joins trine p q.

(** A square that touches one end of the opposition between [p1] and
    [p2] without lying on it, and the body at its other end. *)
Definition touches (p1 p2 : string) (square : Aspects.Aspect)
    (third : string) : Prop :=
  (Aspects.planet1 square = p1 /\ Aspects.planet2 square <> p2
   /\ third = Aspects.planet2 square)
  \/ (Aspects.planet2 square = p1 /\ Aspects.planet1 square <> p2
      /\ third = Aspects.planet1 square)
  \/ (Aspects.planet1 square = p2 /\ Aspects.planet2 square <> p1
      /\ third = Aspects.planet2 square)
  \/ (Aspects.planet2 square = p2 /\ Aspects.planet1 square <> p1
      /\ third = Aspects.planet1 square).

(** The sign a body is in, as the chart functions compute it. *)
Definition sign_of (data : Ephemeris.BodyPosition) : Z :=
  Builtins.int (Builtins.floordiv (Ephemeris.longitude data) 30).

(** How many bodies of a set satisfy a test. *)
Definition bodies_where (test : Ephemeris.BodyPosition -> bool)
    (positions : dict Ephemeris.BodyPosition) : Z :=
  Z.of_nat (List.length (filter (fun entry => test (snd entry)) positions)).

(** What is asked of a rounding: it keeps the order, it leaves the
    quarters of the integers up to 2^53 as they are, and it moves a
    number by at most the fraction 2^-53 of its magnitude (of 1 for a
    number below 1).  Rounding to the nearest double has the three
    properties on the numbers that do not overflow. *)
Record round_to_nearest (rnd : R -> R) : Prop := {
  rnd_monotone : forall x y, x <= y -> rnd x <= rnd y;
  rnd_quarters :
    forall k, (Z.abs k <= 9007199254740992)%Z -> rnd (IZR k / 4) = IZR k / 4;
  rnd_error :
    forall x, Rabs (rnd x - x) <= Rmax 1 (Rabs x) / 9007199254740992
}.

(** A rounding for worked examples: to the nearest multiple of 2^-60. *)
Definition to_grid (x : R) : R :=
  IZR (Zfloor (x * 1152921504606846976 + / 2)) / 1152921504606846976.


(* ================================================================== *)
(** * Properties                                                       *)
(* ================================================================== *)

Import Constants Utils Math.
Local Open Scope list_scope.

(** Case analysis on the comparisons inside [Rabs], [Rmin], [Rmax] and
    the boolean comparisons, closing each case by linear arithmetic. *)
Ltac split_cmp :=
  repeat match goal with
    | |- context [Rcase_abs ?x] => destruct (Rcase_abs x)
    | |- context [Rle_dec ?x ?y] => destruct (Rle_dec x y)
    | |- context [Rlt_dec ?x ?y] => destruct (Rlt_dec x y)
    | |- context [Rge_dec ?x ?y] => destruct (Rge_dec x y)
    end.

Ltac cmp_lra := unfold Rabs, Rmin, Rmax, leb, ltb in *; split_cmp; try lra.

(** Evaluating the tests of the loops on given numbers. *)
Lemma leb_true (x y : R) : x <= y -> leb x y = true.
Proof. intros H. unfold leb. destruct (Rle_dec x y); [reflexivity | lra]. Qed.

Lemma leb_false (x y : R) : y < x -> leb x y = false.
Proof. intros H. unfold leb. destruct (Rle_dec x y); [lra | reflexivity]. Qed.

Lemma ltb_true (x y : R) : x < y -> ltb x y = true.
Proof. intros H. unfold ltb. destruct (Rlt_dec x y); [reflexivity | lra]. Qed.

Lemma ltb_false (x y : R) : y <= x -> ltb x y = false.
Proof. intros H. unfold ltb. destruct (Rlt_dec x y); [lra | reflexivity]. Qed.

Ltac decide_leb :=
  repeat first
    [ rewrite leb_true by (unfold Rabs, Rmin; split_cmp; lra)
    | rewrite leb_false by (unfold Rabs, Rmin; split_cmp; lra)
    | rewrite ltb_true by (unfold Rabs; split_cmp; lra)
    | rewrite ltb_false by (unfold Rabs; split_cmp; lra) ].

(* ------------------------------------------------------------------ *)
(** ** Angle normalisation                                             *)
(* ------------------------------------------------------------------ *)

Section NormalizeAngle.

Lemma while_negative_unfold (angle : R) :
  while_negative angle =
  if Rlt_dec angle 0 then while_negative (angle + 360) else angle.
Proof.
  rewrite while_negative_equation_1.
  destruct (Rlt_dec angle 0); reflexivity.
Qed.

Lemma while_full_turn_unfold (angle : R) :
  while_full_turn angle =
  if Rge_dec angle 360 then while_full_turn (angle - 360) else angle.
Proof.
  rewrite while_full_turn_equation_1.
  destruct (Rge_dec angle 360); reflexivity.
Qed.

(** The first loop leaves with a non-negative angle. *)
Lemma while_negative_nonneg (angle : R) : 0 <= while_negative angle.
Proof.
  funelim (while_negative angle).
  - assumption.
  - lra.
Qed.

(** The second loop, entered with a non-negative angle, leaves with an
    angle of the first turn. *)
Lemma while_full_turn_range (angle : R) :
  0 <= angle -> 0 <= while_full_turn angle < 360.
Proof.
  funelim (while_full_turn angle); intros Hpos.
  - apply H. lra.
  - lra.
Qed.

Lemma while_negative_skip (angle : R) :
  0 <= angle -> while_negative angle = angle.
Proof.
  intros Hpos. rewrite while_negative_unfold.
  destruct (Rlt_dec angle 0); [lra | reflexivity].
Qed.

Lemma while_full_turn_skip (angle : R) :
  angle < 360 -> while_full_turn angle = angle.
Proof.
  intros Hlt. rewrite while_full_turn_unfold.
  destruct (Rge_dec angle 360); [lra | reflexivity].
Qed.

Lemma normalize_angle_range (angle : R) : 0 <= normalize_angle angle < 360.
Proof.
  unfold normalize_angle.
  apply while_full_turn_range, while_negative_nonneg.
Qed.

Lemma normalize_angle_fixed (angle : R) :
  0 <= angle < 360 -> normalize_angle angle = angle.
Proof.
  intros [Hlo Hhi]. unfold normalize_angle.
  rewrite (while_negative_skip _ Hlo). apply while_full_turn_skip, Hhi.
Qed.

(** One trip round each loop, for evaluating on given numbers. *)
Lemma normalize_angle_add_turn (angle : R) :
  angle < 0 -> normalize_angle angle = normalize_angle (angle + 360).
Proof.
  intros Hneg. unfold normalize_angle.
  rewrite (while_negative_unfold angle).
  destruct (Rlt_dec angle 0); [reflexivity | lra].
Qed.

Lemma normalize_angle_sub_turn (angle : R) :
  360 <= angle -> normalize_angle angle = normalize_angle (angle - 360).
Proof.
  intros Hbig. unfold normalize_angle.
  rewrite (while_negative_skip angle) by lra.
  rewrite (while_negative_skip (angle - 360)) by lra.
  rewrite (while_full_turn_unfold angle).
  destruct (Rge_dec angle 360); [reflexivity | lra].
Qed.

End NormalizeAngle.

(** [normalize_angle] takes off or adds whole turns. *)
Lemma normalize_angle_minus_turns (n : nat) :
  forall x, 0 <= x - 360 * INR n < 360 ->
  normalize_angle x = x - 360 * INR n.
Proof.
  induction n as [| n IH]; intros x Hx.
  - simpl in *. rewrite normalize_angle_fixed by lra. lra.
  - rewrite S_INR in *. pose proof (pos_INR n) as Hn.
    rewrite normalize_angle_sub_turn by lra.
    rewrite IH by lra. lra.
Qed.

Lemma normalize_angle_plus_turns (n : nat) :
  forall x, 0 <= x + 360 * INR n < 360 ->
  normalize_angle x = x + 360 * INR n.
Proof.
  induction n as [| n IH]; intros x Hx.
  - simpl in *. rewrite normalize_angle_fixed by lra. lra.
  - rewrite S_INR in *. pose proof (pos_INR n) as Hn.
    rewrite normalize_angle_add_turn by lra.
    rewrite IH by lra. lra.
Qed.

Lemma normalize_angle_value (x r : R) (turns : Z) :
  x = r + 360 * IZR turns -> 0 <= r < 360 -> normalize_angle x = r.
Proof.
  intros Hx Hr. destruct (Z_le_gt_dec 0 turns) as [Hpos | Hneg].
  - rewrite (normalize_angle_minus_turns (Z.to_nat turns));
      rewrite INR_IZR_INZ, Z2Nat.id by lia; lra.
  - rewrite (normalize_angle_plus_turns (Z.to_nat (- turns)));
      rewrite INR_IZR_INZ, Z2Nat.id, opp_IZR by lia; lra.
Qed.

(* ------------------------------------------------------------------ *)
(** ** Angle normalisation on doubles                                  *)
(* ------------------------------------------------------------------ *)

Section DoubleAngles.
Import Floats.


(** Where the loops end, the doubles give the angle of the first turn. *)
Lemma normalize_angle_on_doubles :
  Binary64.normalize_angle 4 (-725) = Some 355%float
  /\ Binary64.normalize_angle 4 725 = Some 5%float
  /\ Binary64.normalize_angle 1 355 = Some 355%float.
Proof. repeat split. Qed.

End DoubleAngles.

Lemma Rabs_between (a b : R) : Rabs a <= b -> - b <= a <= b.
Proof. unfold Rabs. destruct (Rcase_abs a); lra. Qed.

(** A rounding that does round, to the nearest multiple of 2^-60 (the
    higher of two that are as near): it has the three properties. *)
Lemma to_grid_rounding : round_to_nearest to_grid.
Proof.
  split.
  - intros x y Hxy. unfold to_grid.
    apply Rmult_le_compat_r; [lra |].
    apply IZR_le, Zfloor_le. lra.
  - intros k Hk. unfold to_grid.
    replace (Zfloor (IZR k / 4 * 1152921504606846976 + / 2))
      with (k * 288230376151711744)%Z.
    + rewrite mult_IZR. lra.
    + symmetry. apply Zfloor_eq. rewrite mult_IZR. lra.
  - intros x. unfold to_grid.
    pose proof (Zfloor_bound (x * 1152921504606846976 + / 2)) as Hn.
    set (n := IZR (Zfloor (x * 1152921504606846976 + / 2))) in *.
    pose proof (Rmax_l 1 (Rabs x)) as Hmax.
    apply Rabs_le. lra.
Qed.

Section RoundedAngles.

Variable rnd : R -> R.
Hypothesis Hrnd : round_to_nearest rnd.

Lemma rnd_integer (k : Z) :
  (Z.abs k <= 2251799813685248)%Z -> rnd (IZR k) = IZR k.
Proof.
  intros Hk.
  replace (IZR k) with (IZR (4 * k) / 4) by (rewrite mult_IZR; lra).
  apply (rnd_quarters rnd Hrnd). lia.
Qed.

Lemma rnd_zero : rnd 0 = 0.
Proof. apply (rnd_integer 0). lia. Qed.

Lemma of_int_exact (k : Z) :
  (Z.abs k <= 2251799813685248)%Z -> Rounded.of_int rnd k = IZR k.
Proof. apply rnd_integer. Qed.

(** The error of one rounding, for a number of known size. *)
Lemma rnd_near (x bound : R) :
  1 <= bound -> Rabs x <= bound ->
  Rabs (rnd x - x) <= bound / 9007199254740992.
Proof.
  intros Hone Hx.
  pose proof (rnd_error rnd Hrnd x) as Herr.
  assert (Rmax 1 (Rabs x) <= bound) by (apply Rmax_lub; assumption).
  lra.
Qed.








End RoundedAngles.



(* ------------------------------------------------------------------ *)
(** ** Angular distance                                                *)
(* ------------------------------------------------------------------ *)

(** The distance of two given angles. *)
Lemma calculate_distance_value (angle1 angle2 d : R) :
  0 <= d <= 180 -> (angle1 - angle2 = d \/ angle2 - angle1 = d) ->
  calculate_distance angle1 angle2 = d.
Proof.
  intros Hd Hdiff. unfold calculate_distance, Rabs, Rmin.
  destruct (Rcase_abs _), (Rle_dec _ _); lra.
Qed.

(** C9, as stated, fails on angles more than a full turn apart: the
    distance between 0 and 400 is computed as -40. *)
Lemma calculate_distance_negative :
  calculate_distance 0 400 = -40
  /\ ~ (0 <= calculate_distance 0 400 <= 180).
Proof.
  assert (E : calculate_distance 0 400 = -40).
  { unfold calculate_distance. cmp_lra. }
  split; [exact E | rewrite E; lra].
Qed.

(** C9, amended. [calculate_distance] is symmetric and never exceeds
    180; it is non-negative as soon as the two angles are at most a full
    turn apart, which covers all angles of [0,360). *)
Theorem calculate_distance_sym_range (a b : R) :
  calculate_distance a b = calculate_distance b a
  /\ calculate_distance a b <= 180
  /\ (Rabs (a - b) <= 360 -> 0 <= calculate_distance a b).
Proof.
  unfold calculate_distance.
  rewrite (Rabs_minus_sym b a).
  split; [reflexivity |].
  pose proof (Rabs_pos (a - b)) as Hpos.
  split; [| intros Hturn]; unfold Rmin;
    destruct (Rle_dec (Rabs (a - b)) (360 - Rabs (a - b))); lra.
Qed.

Lemma calculate_distance_sym_range_witness :
  Rabs (10 - 350) <= 360 /\ 0 <= calculate_distance 10 350.
Proof.
  assert (H : Rabs (10 - 350) <= 360) by cmp_lra.
  split; [exact H |].
  exact (proj2 (proj2 (calculate_distance_sym_range 10 350)) H).
Defined.

(* ------------------------------------------------------------------ *)
(** ** Julian day and back                                             *)
(* ------------------------------------------------------------------ *)

Ltac by_division := Z.div_mod_to_equations; lia.

(** The integer round trip, with the year starting in March ([M] from 3
    to 14, January and February counted with the year before). *)
Section MarchYear.
Local Open Scope Z_scope.

Variables Y M d : Z.
Hypothesis HM : 3 <= M <= 14.
Hypothesis Hd : 1 <= d.
Hypothesis Hlen : 306001 * (M + 1) / 10000 + d <= 306001 * (M + 2) / 10000.
Hypothesis Hfeb : M = 14 -> d <= 29.
Hypothesis Hleap :
  M = 14 -> d = 29 ->
  (Y + 1) mod 4 = 0 /\ ((Y + 1) mod 100 = 0 -> (Y + 1) mod 400 = 0).

Let F1 := 36525 * (Y + 4716) / 100.
Let F2 := 306001 * (M + 1) / 10000.
Let a := Y / 100.
Let z := F1 + F2 + d + (2 - a + a / 4) - 1524.

Lemma month_cases :
  M = 3 \/ M = 4 \/ M = 5 \/ M = 6 \/ M = 7 \/ M = 8 \/ M = 9
  \/ M = 10 \/ M = 11 \/ M = 12 \/ M = 13 \/ M = 14.
Proof. clear - HM. lia. Qed.

(** Days since the last of February before: 123 on 1 March, 488 on a
    29 February. *)
Lemma offset_range :
  123 <= F2 + d <= 488 /\ (F2 + d = 488 -> M = 14 /\ d = 29).
Proof.
  unfold F2.
  destruct month_cases
    as [->|[->|[->|[->|[->|[->|[->|[->|[->|[->|[->| ->]]]]]]]]]]];
    clear Hleap; by_division.
Qed.

Lemma century_recovered : (100 * z - 186721625) / 3652425 = a - 4.
Proof.
  destruct offset_range as [Hs Hs488].
  assert (Hl : F2 + d = 488 ->
               Y mod 4 = 3 /\ (Y mod 100 = 99 -> (a + 1) mod 4 = 0)).
  { intros E. destruct (Hs488 E) as [EM Ed].
    destruct (Hleap EM Ed) as [H4 H400].
    subst a. clear - H4 H400. by_division. }
  subst z. replace (F1 + F2 + d) with (F1 + (F2 + d)) by lia.
  generalize dependent (F2 + d). intros s Hs _ Hl.
  subst F1 a. clear - Hs Hl. by_division.
Qed.

Lemma year_recovered : (100 * (F1 + F2 + d) - 12210) / 36525 = Y + 4716.
Proof.
  destruct offset_range as [Hs Hs488].
  assert (Hl : F2 + d = 488 -> Y mod 4 = 3).
  { intros E. destruct (Hs488 E) as [EM Ed].
    destruct (Hleap EM Ed) as [H4 _].
    clear - H4. by_division. }
  replace (F1 + F2 + d) with (F1 + (F2 + d)) by lia.
  generalize dependent (F2 + d). intros s Hs _ Hl.
  subst F1. clear - Hs Hl. by_division.
Qed.

Lemma month_recovered : 10000 * (F2 + d) / 306001 = M + 1.
Proof.
  unfold F2. clear Hleap Hfeb.
  destruct month_cases
    as [->|[->|[->|[->|[->|[->|[->|[->|[->|[->|[->| ->]]]]]]]]]]];
    by_division.
Qed.

Lemma march_year_roundtrip :
  civil_of_day_number z =
  (if 2 <? (if M + 1 <? 14 then M else M - 12) then Y else Y + 1,
   if M + 1 <? 14 then M else M - 12,
   d).
Proof.
  unfold civil_of_day_number.
  rewrite century_recovered.
  replace ((a - 4) / 4) with (a / 4 - 1) by by_division.
  replace (z + 1 + (a - 4) - (a / 4 - 1) + 1524) with (F1 + F2 + d)
    by (subst z; lia).
  rewrite year_recovered. fold F1.
  replace (F1 + F2 + d - F1) with (F2 + d) by lia.
  rewrite month_recovered. fold F2.
  replace (M + 1 - 1) with M by lia.
  replace (M + 1 - 13) with (M - 12) by lia.
  replace (Y + 4716 - 4716) with Y by lia.
  replace (Y + 4716 - 4715) with (Y + 1) by lia.
  replace (F2 + d - F2) with d by lia.
  reflexivity.
Qed.

End MarchYear.

Lemma civil_of_day_number_inverse (y m d : Z) :
  (1 <= m <= 12)%Z -> (1 <= d <= days_in_month y m)%Z ->
  civil_of_day_number (day_number y m d) = (y, m, d).
Proof.
  intros Hm Hd. unfold day_number.
  unfold days_in_month, is_leap_year in Hd.
  destruct (Z.leb_spec m 2) as [Hle | Hgt].
  - rewrite march_year_roundtrip.
    + destruct (Z.ltb_spec (m + 12 + 1) 14); [lia |].
      destruct (Z.ltb_spec 2 (m + 12 - 12)); [lia |].
      repeat (f_equal; try lia).
    + lia.
    + lia.
    + assert (m = 1 \/ m = 2)%Z as [-> | ->] by lia; cbn in Hd;
        repeat match type of Hd with
          | context [if ?b then _ else _] => destruct b
          end; by_division.
    + intros E. assert (m = 2)%Z as -> by lia. cbn in Hd.
      repeat match type of Hd with
        | context [if ?b then _ else _] => destruct b
        end; lia.
    + intros E ->. assert (m = 2)%Z as -> by lia.
      replace (y - 1 + 1)%Z with y by lia.
      rewrite Z.eqb_refl in Hd.
      destruct (Z.eqb_spec (y mod 4) 0), (Z.eqb_spec (y mod 100) 0),
        (Z.eqb_spec (y mod 400) 0); cbn in Hd; by_division.
  - rewrite march_year_roundtrip.
    + destruct (Z.ltb_spec (m + 1) 14); [| lia].
      destruct (Z.ltb_spec 2 m); [| lia].
      reflexivity.
    + lia.
    + lia.
    + assert (m = 3 \/ m = 4 \/ m = 5 \/ m = 6 \/ m = 7 \/ m = 8 \/ m = 9
              \/ m = 10 \/ m = 11 \/ m = 12)%Z as Hc by lia.
      destruct Hc as [->|[->|[->|[->|[->|[->|[->|[->|[->| ->]]]]]]]]];
        cbn in Hd; by_division.
    + lia.
    + lia.
Qed.

(** The floors of the source as integer quotients. *)
Lemma Zfloor_div (p q : Z) : (0 < q)%Z -> Zfloor (IZR p / IZR q) = (p / q)%Z.
Proof.
  intros Hq. apply Zfloor_eq.
  pose proof (Z.div_mod p q ltac:(lia)) as E.
  pose proof (Z.mod_pos_bound p q Hq) as [Hlo Hhi].
  apply IZR_lt in Hq, Hhi. apply IZR_le in Hlo.
  apply (f_equal IZR) in E. rewrite plus_IZR, mult_IZR in E.
  set (k := IZR (p / q)) in *. set (r := IZR (p mod q)) in *.
  replace (IZR p / IZR q) with (k + r / IZR q) by (rewrite E; field; lra).
  assert (0 <= r / IZR q < 1).
  { split.
    - apply Rmult_le_pos; [lra |]. left. apply Rinv_0_lt_compat. lra.
    - apply Rmult_lt_reg_r with (IZR q); [lra |].
      unfold Rdiv. rewrite Rmult_assoc, Rinv_l by lra. lra. }
  lra.
Qed.

Lemma Zfloor_year_days (k : Z) :
  Zfloor (365.25 * IZR k) = (36525 * k / 100)%Z.
Proof.
  replace (365.25 * IZR k) with (IZR (36525 * k) / IZR 100)
    by (rewrite mult_IZR; lra).
  apply Zfloor_div. lia.
Qed.

(* ------------------------------------------------------------------ *)
(** ** Ephemeris: which bodies have a position                         *)
(* ------------------------------------------------------------------ *)

Import Ephemeris.

Section PositionOf.
Local Open Scope py_scope.

(** The guard and the table lookup of [calculate_planet_position],
    by what the table holds under the name. *)
Lemma calculate_planet_position_known (planet_name : string) (jd : R)
    (elements : Elements) :
  get planet_elements planet_name = Some elements ->
  calculate_planet_position planet_name jd =
  if String.eqb planet_name "Sun" then _calculate_sun_position jd
  else if String.eqb planet_name "Moon" then _calculate_moon_position jd
  else _calculate_planet_position planet_name jd elements.
Proof.
  intros Hget. unfold calculate_planet_position, contains, getitem.
  rewrite Hget. reflexivity.
Qed.

Lemma calculate_planet_position_unknown (planet_name : string) (jd : R) :
  contains planet_elements planet_name = false ->
  calculate_planet_position planet_name jd =
  Raise (ValueError ("Planète inconnue: " ++ planet_name)%string).
Proof.
  intros Hout. unfold calculate_planet_position. rewrite Hout. reflexivity.
Qed.

(** The divisor of the two distance formulas. *)
Lemma conic_divisor_nonzero (e c : R) :
  -1 < e < 1 -> -1 <= c <= 1 -> 1 + e * c <> 0.
Proof.
  intros He Hc Hzero.
  assert (H1 : 0 <= (1 + e) * (1 + c)) by (apply Rmult_le_pos; lra).
  assert (H2 : 0 <= (1 - e) * (1 - c)) by (apply Rmult_le_pos; lra).
  assert (H3 : 0 < (1 - e) * (1 + e)) by (apply Rmult_lt_0_compat; lra).
  assert (Hc' : c = - e) by lra.
  subst c. lra.
Qed.

Lemma truediv_ok (x y : R) : y <> 0 -> truediv x y = Ok (x / y).
Proof.
  intros Hy. unfold truediv. destruct (Req_dec_T y 0); [contradiction | reflexivity].
Qed.

(** A Keplerian position exists whenever the orbit is an ellipse with
    a period; the instant plays no part in it. *)
Lemma _calculate_planet_position_ok (planet_name : string) (jd : R)
    (elements : Elements) :
  0 <= el_e elements < 1 -> el_period elements <> 0 ->
  exists position,
    _calculate_planet_position planet_name jd elements = Ok position.
Proof.
  intros He Hperiod. unfold _calculate_planet_position.
  rewrite truediv_ok
    by (apply conic_divisor_nonzero; [lra | apply COS_bound]).
  rewrite truediv_ok by exact Hperiod.
  eexists. reflexivity.
Qed.

Lemma _calculate_planet_position_any_instant (planet_name : string)
    (jd1 jd2 : R) (elements : Elements) :
  _calculate_planet_position planet_name jd1 elements =
  _calculate_planet_position planet_name jd2 elements.
Proof. reflexivity. Qed.

(** The solar eccentricity polynomial stays inside (-1, 1) for two
    thousand centuries either side of J2000. *)
Lemma _calculate_sun_position_ok (jd : R) :
  Rabs ((jd - 2451545.0) / 36525.0) <= 2000 ->
  exists position, _calculate_sun_position jd = Ok position.
Proof.
  intros Ht. unfold _calculate_sun_position.
  set (t := (jd - 2451545.0) / 36525.0) in *.
  assert (Ht' : -2000 <= t <= 2000) by (revert Ht; cmp_lra).
  assert (Hsq : t ^ 2 <= 4000000) by nra.
  assert (Hsq0 : 0 <= t ^ 2) by nra.
  rewrite truediv_ok
    by (apply conic_divisor_nonzero; [lra | apply COS_bound]).
  eexists. reflexivity.
Qed.

Lemma _calculate_moon_position_ok (jd : R) :
  exists position, _calculate_moon_position jd = Ok position.
Proof. eexists. reflexivity. Qed.

Lemma calculate_planet_position_keplerian (planet_name : string) (jd : R)
    (elements : Elements) :
  get planet_elements planet_name = Some elements ->
  String.eqb planet_name "Sun" = false ->
  String.eqb planet_name "Moon" = false ->
  calculate_planet_position planet_name jd =
  _calculate_planet_position planet_name jd elements.
Proof.
  intros Hget Hsun Hmoon.
  rewrite (calculate_planet_position_known _ jd _ Hget), Hsun, Hmoon.
  reflexivity.
Qed.

(** Dictionary facts used for [calculate_all_planets]. *)
Lemma keys_set_new {V} (d : dict V) (key : string) (v : V) :
  ~ In key (keys d) -> keys (set d key v) = keys d ++ [key].
Proof.
  induction d as [| [k v0] rest IH]; simpl; intros Hnew; [reflexivity |].
  destruct (String.eqb_spec key k) as [-> | Hne].
  - exfalso. apply Hnew. left. reflexivity.
  - simpl. f_equal. apply IH. intros Hin. apply Hnew. right. exact Hin.
Qed.

Lemma get_set_same {V} (d : dict V) (key : string) (v : V) :
  get (set d key v) key = Some v.
Proof.
  induction d as [| [k v0] rest IH]; simpl.
  - rewrite String.eqb_refl. reflexivity.
  - destruct (String.eqb_spec key k) as [-> | Hne]; simpl.
    + rewrite String.eqb_refl. reflexivity.
    + destruct (String.eqb_spec key k); [contradiction | exact IH].
Qed.

(** The loop of [calculate_all_planets] over names that all have a
    position appends them, in order, to the keys already there. *)
Lemma for_each_store_position (jd : R) (names : list string) :
  forall positions : dict BodyPosition,
  Forall (fun planet_name =>
            exists position,
              calculate_planet_position planet_name jd = Ok position) names ->
  NoDup (keys positions ++ names) ->
  exists positions',
    for_each names (store_position jd) positions = Ok positions'
    /\ keys positions' = keys positions ++ names.
Proof.
  induction names as [| planet_name rest IH]; intros positions Hall Hnodup.
  - exists positions. rewrite app_nil_r. split; reflexivity.
  - inversion Hall as [| ? ? [position Hpos] Hrest]; subst.
    assert (Hnew : ~ In planet_name (keys positions)).
    { intros Hin. apply NoDup_remove_2 in Hnodup. apply Hnodup.
      apply in_or_app. left. exact Hin. }
    simpl. unfold store_position at 1. rewrite Hpos. simpl.
    destruct (IH (set positions planet_name position) Hrest)
      as (positions' & Hrun & Hkeys).
    { rewrite (keys_set_new _ _ _ Hnew), <- app_assoc. exact Hnodup. }
    exists positions'. split; [exact Hrun |].
    rewrite Hkeys, (keys_set_new _ _ _ Hnew), <- app_assoc. reflexivity.
Qed.

End PositionOf.

(** Decides the table lookup, the two name tests and the bounds on the
    elements for one of the planets of the table. *)
Ltac keplerian_planet :=
  erewrite calculate_planet_position_keplerian by reflexivity;
  apply _calculate_planet_position_ok; simpl; lra.

(** C10. A body name that the element table does not hold makes
    [calculate_planet_position] raise the invalid-input error, whose
    message ends with that name; no position results, and the
    assignment that would store one in a set of positions raises the
    same error instead. *)
Theorem unknown_body_rejected (planet_name : string) (jd : R)
    (Hunknown : contains planet_elements planet_name = false) :
  calculate_planet_position planet_name jd =
    Raise (ValueError ("Planète inconnue: " ++ planet_name)%string)
  /\ (forall position,
        calculate_planet_position planet_name jd <> Ok position)
  /\ (forall positions,
        store_position jd positions planet_name =
        Raise (ValueError ("Planète inconnue: " ++ planet_name)%string)).
Proof.
  pose proof (calculate_planet_position_unknown planet_name jd Hunknown) as E.
  split; [exact E |].
  split.
  - intros position. rewrite E. discriminate.
  - intros positions. unfold store_position. rewrite E. reflexivity.
Qed.

Lemma unknown_body_rejected_witness :
  contains planet_elements "Vulcan" = false
  /\ calculate_planet_position "Vulcan" 2451545 =
       Raise (ValueError "Planète inconnue: Vulcan").
Proof.
  assert (H : contains planet_elements "Vulcan" = false) by reflexivity.
  split; [exact H |].
  exact (proj1 (unknown_body_rejected "Vulcan" 2451545 H)).
Defined.



(** C4. For each planet from Mercury to Pluto, the position computed at
    one instant is the position computed at any other: longitude,
    latitude, distance, speed and retrograde flag are all independent of
    the instant (and a position is indeed returned). *)
Theorem keplerian_position_constant (planet_name : string) (jd1 jd2 : R)
    (Hplanet : In planet_name keplerian_planets) :
  calculate_planet_position planet_name jd1 =
    calculate_planet_position planet_name jd2
  /\ exists position, calculate_planet_position planet_name jd1 = Ok position.
Proof.
  unfold keplerian_planets in Hplanet. simpl in Hplanet.
  repeat (destruct Hplanet as [<- | Hplanet]);
    try contradiction;
    (split;
     [ erewrite !calculate_planet_position_keplerian by reflexivity;
       apply _calculate_planet_position_any_instant
     | keplerian_planet ]).
Qed.

Lemma keplerian_position_constant_witness :
  In "Mars" keplerian_planets
  /\ calculate_planet_position "Mars" 2451545 =
       calculate_planet_position "Mars" 2460000.
Proof.
  assert (H : In "Mars" keplerian_planets)
    by (unfold keplerian_planets; simpl; tauto).
  split; [exact H |].
  exact (proj1 (keplerian_position_constant "Mars" 2451545 2460000 H)).
Defined.

(* ------------------------------------------------------------------ *)
(** ** Houses                                                          *)
(* ------------------------------------------------------------------ *)

Import Houses.

Section HouseLists.

(** Reading a list after [xs[i] = v]. *)
Lemma nth_list_set_same (xs : list R) (i : nat) (v : R) :
  (i < List.length xs)%nat -> nth i (list_set xs i v) 0 = v.
Proof.
  revert i. induction xs as [| x rest IH]; intros [| j] Hlt; simpl in *;
    try lia; [reflexivity | apply IH; lia].
Qed.

Lemma nth_list_set_other (xs : list R) (i k : nat) (v : R) :
  i <> k -> nth k (list_set xs i v) 0 = nth k xs 0.
Proof.
  revert i k. induction xs as [| x rest IH]; intros [| j] [| k] Hne; simpl;
    try reflexivity; try contradiction.
  apply IH. intros ->. apply Hne. reflexivity.
Qed.

Lemma length_list_set (xs : list R) (i : nat) (v : R) :
  List.length (list_set xs i v) = List.length xs.
Proof.
  revert i. induction xs as [| x rest IH]; intros [| j]; simpl;
    try reflexivity. f_equal. apply IH.
Qed.

(** A loop whose body never changes position [k] leaves it as it was. *)
Lemma fold_left_keeps_nth {A : Type} (step : list R -> A -> list R)
    (k : nat) (xs : list A) :
  (forall l a, In a xs -> nth k (step l a) 0 = nth k l 0) ->
  forall l, nth k (fold_left step xs l) 0 = nth k l 0.
Proof.
  induction xs as [| x rest IH]; intros Hstep l; simpl; [reflexivity |].
  rewrite IH.
  - apply Hstep. left. reflexivity.
  - intros l' a Hin. apply Hstep. right. exact Hin.
Qed.

End HouseLists.

Section CuspInvariant.

Variables ascendant mc latitude lst : R.

(** [_placidus_houses]: neither loop writes position 0. *)
Lemma _placidus_houses_first :
  nth 0 (_placidus_houses ascendant mc latitude lst) 0 = ascendant.
Proof.
  unfold _placidus_houses.
  rewrite fold_left_keeps_nth.
  - rewrite fold_left_keeps_nth; [reflexivity |].
    intros l i Hin. destruct (i =? 9)%Z; [reflexivity |].
    apply nth_list_set_other.
    simpl in Hin. intuition (subst; discriminate).
  - intros l i Hin. destruct i as [| i]; [reflexivity |].
    destruct (_ && _); [| reflexivity].
    apply nth_list_set_other. discriminate.
Qed.

(** [_koch_houses]: the loop starts at 1 and skips 9. *)
Lemma _koch_houses_first_tenth :
  nth 0 (_koch_houses ascendant mc latitude lst) 0 = ascendant
  /\ nth 9 (_koch_houses ascendant mc latitude lst) 0 = mc.
Proof.
  unfold _koch_houses. split.
  - rewrite fold_left_keeps_nth; [reflexivity |].
    intros l i Hin. apply in_seq in Hin.
    destruct (i =? 9)%nat; [reflexivity |].
    apply nth_list_set_other. lia.
  - rewrite fold_left_keeps_nth; [reflexivity |].
    intros l i Hin. destruct (Nat.eqb_spec i 9); [reflexivity |].
    apply nth_list_set_other. assumption.
Qed.

(** [_regiomontanus_houses]: the loop skips 0 and 9. *)
Lemma _regiomontanus_houses_first_tenth :
  nth 0 (_regiomontanus_houses ascendant mc latitude) 0 = ascendant
  /\ nth 9 (_regiomontanus_houses ascendant mc latitude) 0 = mc.
Proof.
  unfold _regiomontanus_houses. split;
    (rewrite fold_left_keeps_nth; [reflexivity |]);
    intros l i Hin;
    destruct (Nat.eqb_spec i 0), (Nat.eqb_spec i 9); simpl;
    try reflexivity; apply nth_list_set_other; assumption.
Qed.

Hypothesis ascendant_normalized : 0 <= ascendant < 360.

(** [_campanus_houses] overwrites position 0 on its first trip with the
    ascendant normalized again, and not afterwards. *)
Lemma _campanus_houses_first :
  nth 0 (_campanus_houses ascendant mc latitude) 0 = ascendant.
Proof.
  unfold _campanus_houses.
  change (seq 0 12) with (0%nat :: seq 1 11).
  remember (seq 1 11) as later eqn:Hlater. simpl fold_left. subst later.
  rewrite fold_left_keeps_nth.
  - simpl nth. unfold _vertical_to_longitude.
    replace (0 * 30 * DEGTORAD) with 0 by lra. rewrite sin_0.
    replace (ascendant + 0 * 30 + tan (latitude * DEGTORAD) * 0 * 5)
      with ascendant by lra.
    apply normalize_angle_fixed, ascendant_normalized.
  - intros l i Hin. apply in_seq in Hin.
    apply nth_list_set_other. lia.
Qed.

Lemma _equal_houses_first :
  nth 0 (_equal_houses ascendant) 0 = ascendant.
Proof.
  unfold _equal_houses.
  change (seq 0 12) with (0%nat :: seq 1 11).
  remember (seq 1 11) as later eqn:Hlater. simpl fold_left. subst later.
  rewrite fold_left_keeps_nth.
  - simpl nth. replace (ascendant + 0 * 30) with ascendant by lra.
    apply normalize_angle_fixed, ascendant_normalized.
  - intros l i Hin. apply in_seq in Hin.
    apply nth_list_set_other. lia.
Qed.

End CuspInvariant.

Lemma _calculate_ascendant_range (lst latitude : R) :
  0 <= _calculate_ascendant lst latitude < 360.
Proof. unfold _calculate_ascendant. apply normalize_angle_range. Qed.

(** The call through the unbound name. *)
Lemma _porphyry_houses_raises (ascendant mc : R) :
  _porphyry_houses ascendant mc = Raise (NameError "normalize_shape").
Proof. reflexivity. Qed.

(** C1 (what the code does). With system code "O" the computation
    reaches the call of [normalize_shape], a name bound nowhere, and
    raises [NameError]: no cusp list is returned at any instant or
    place. *)
Theorem porphyry_raises_name_error (jd latitude longitude : R) :
  calculate_houses jd latitude longitude "O" =
  Raise (NameError "normalize_shape").
Proof.
  unfold calculate_houses. simpl String.eqb. cbv iota.
  rewrite _porphyry_houses_raises. reflexivity.
Qed.

(** C7, amended. For every instant, place and system code other than
    "O", [calculate_houses] returns a layout whose first cusp is the
    ascendant; the tenth cusp is the midheaven under Koch ("K") and
    Regiomontanus ("R"). *)
Theorem first_cusp_is_ascendant (jd latitude longitude : R) (system : string)
    (Hsystem : system <> "O") :
  exists layout,
    calculate_houses jd latitude longitude system = Ok layout
    /\ nth 0 (houses layout) 0 = ascendant layout
    /\ (system = "K" \/ system = "R" ->
        nth 9 (houses layout) 0 = mc layout).
Proof.
  unfold calculate_houses.
  set (lst := _calculate_local_sidereal_time jd longitude).
  set (asc := _calculate_ascendant lst latitude).
  set (mc0 := _calculate_mc lst latitude).
  pose proof (_calculate_ascendant_range lst latitude) as Hasc. fold asc in Hasc.
  destruct (String.eqb_spec system "P") as [-> | HP].
  { eexists. split; [reflexivity |]. cbn [houses ascendant Houses.mc]. split.
    - apply _placidus_houses_first.
    - intros [H | H]; discriminate H. }
  destruct (String.eqb_spec system "K") as [-> | HK].
  { eexists. split; [reflexivity |]. cbn [houses ascendant Houses.mc].
    destruct (_koch_houses_first_tenth asc mc0 latitude lst) as [H0 H9].
    split; [exact H0 | intros _; exact H9]. }
  destruct (String.eqb_spec system "C") as [-> | HC].
  { eexists. split; [reflexivity |]. cbn [houses ascendant Houses.mc]. split.
    - apply _campanus_houses_first, Hasc.
    - intros [H | H]; discriminate H. }
  destruct (String.eqb_spec system "R") as [-> | HR].
  { eexists. split; [reflexivity |]. cbn [houses ascendant Houses.mc].
    destruct (_regiomontanus_houses_first_tenth asc mc0 latitude) as [H0 H9].
    split; [exact H0 | intros _; exact H9]. }
  destruct (String.eqb_spec system "E") as [-> | HE].
  { eexists. split; [reflexivity |]. cbn [houses ascendant Houses.mc]. split.
    - apply _equal_houses_first, Hasc.
    - intros [H | H]; discriminate H. }
  destruct (String.eqb_spec system "O") as [-> | HO]; [contradiction |].
  eexists. split; [reflexivity |]. cbn [houses ascendant Houses.mc]. split.
  - apply _placidus_houses_first.
  - intros [H | H]; contradiction.
Qed.

Lemma first_cusp_is_ascendant_witness :
  "K" <> "O"
  /\ exists layout,
       calculate_houses 2451545 48.85 2.35 "K" = Ok layout
       /\ nth 0 (houses layout) 0 = ascendant layout
       /\ ("K" = "K" \/ "K" = "R" -> nth 9 (houses layout) 0 = mc layout).
Proof.
  assert (H : "K" <> "O") by discriminate.
  split; [exact H |].
  exact (first_cusp_is_ascendant 2451545 48.85 2.35 "K" H).
Defined.

(** *** One instant and place, worked out

    J2000 noon ([jd = 2451545.0]) on the equator at 100.46061837 degrees
    west: the local sidereal time is 180 degrees exactly, and so are the
    ascendant and the midheaven. *)

Lemma lst_west_of_greenwich :
  _calculate_local_sidereal_time 2451545.0 (-100.46061837) = 180.
Proof.
  unfold _calculate_local_sidereal_time.
  replace (280.46061837 + 360.98564736629 * (2451545.0 - 2451545.0)
           + 0.000387933 * ((2451545.0 - 2451545.0) / 36525.0) ^ 2
           - ((2451545.0 - 2451545.0) / 36525.0) ^ 3 / 38710000.0)
    with 280.46061837 by (simpl; lra).
  rewrite (normalize_angle_fixed 280.46061837) by lra.
  apply (normalize_angle_value _ 180 0); lra.
Qed.

Lemma half_turn_in_radians : 180 * DEGTORAD = PI.
Proof. unfold DEGTORAD. lra. Qed.

Lemma atan2_west : atan2 0 (-1) = PI.
Proof.
  unfold atan2.
  destruct (Rlt_dec 0 (-1)); [lra |].
  destruct (Rlt_dec (-1) 0); [| lra].
  destruct (Rle_dec 0 0); [| lra].
  replace (0 / -1) with 0 by lra. rewrite atan_0. lra.
Qed.

Lemma ascendant_on_equator : _calculate_ascendant 180 0 = 180.
Proof.
  unfold _calculate_ascendant.
  rewrite half_turn_in_radians.
  replace (0 * DEGTORAD) with 0 by lra.
  rewrite sin_PI, cos_PI, sin_0, cos_0.
  replace (0 * 1) with 0 by lra. replace (-1 * 1) with (-1) by lra.
  rewrite atan2_west, sin_PI, cos_PI.
  replace (0 * sin (23.439281 * DEGTORAD)) with 0 by lra.
  rewrite asin_0, tan_0.
  replace (0 * cos (23.439281 * DEGTORAD) + 0 * sin (23.439281 * DEGTORAD))
    with 0 by lra.
  rewrite atan2_west.
  replace (PI * RADTODEG) with 180
    by (unfold RADTODEG; field; apply PI_neq0).
  apply normalize_angle_fixed. lra.
Qed.

Lemma mc_on_equator : _calculate_mc 180 0 = 180.
Proof.
  unfold _calculate_mc. apply (normalize_angle_value _ 180 0); lra.
Qed.

(** C7, as stated, fails: under the Equal system the tenth cusp is the
    ascendant plus 270 degrees, whatever the midheaven.  At J2000 noon
    on the equator, 100.46061837 degrees west, ascendant and midheaven
    are both 180 and the tenth cusp is 90. *)
Lemma equal_tenth_cusp_off_midheaven :
  exists layout,
    calculate_houses 2451545.0 0 (-100.46061837) "E" = Ok layout
    /\ mc layout = 180
    /\ nth 9 (houses layout) 0 = 90
    /\ nth 9 (houses layout) 0 <> mc layout.
Proof.
  unfold calculate_houses.
  rewrite lst_west_of_greenwich, ascendant_on_equator, mc_on_equator.
  eexists. split; [reflexivity |].
  cbn [houses Houses.mc].
  assert (E : nth 9 (_equal_houses 180) 0 = 90).
  { unfold _equal_houses. cbn [seq fold_left list_set twelve_zeros repeat nth].
    apply (normalize_angle_value _ 90 1); simpl; lra. }
  rewrite E. repeat split; lra.
Qed.

(** At the same instant and place the default system, Placidus, is off
    as well: the ordering pass at the end of [_placidus_houses] adds a
    turn to the tenth cusp, which leaves it at 540 when the midheaven
    is 180. *)
Lemma _calculate_placidus_cusp_equator (ascendant diurnal_arc lst : R) :
  _calculate_placidus_cusp ascendant diurnal_arc 0 lst =
  normalize_angle (ascendant + diurnal_arc).
Proof.
  unfold _calculate_placidus_cusp.
  replace (0 * DEGTORAD) with 0 by lra. rewrite tan_0.
  f_equal. lra.
Qed.

Lemma fold_left_step {A B : Type} (f : A -> B -> A) (x : B) (xs : list B)
    (l l' : A) :
  f l x = l' -> fold_left f (x :: xs) l = fold_left f xs l'.
Proof. intros <-. reflexivity. Qed.

(** One trip of the ordering pass on a list of given numbers. *)
Ltac ordering_trip :=
  erewrite fold_left_step
    by (cbn [Nat.ltb Nat.leb andb nth Nat.sub list_set];
        first [ rewrite ltb_true by lra | rewrite ltb_false by lra | idtac ];
        cbn [andb list_set]; reflexivity).

Lemma placidus_tenth_cusp_off_midheaven :
  exists layout,
    calculate_houses 2451545.0 0 (-100.46061837) "P" = Ok layout
    /\ mc layout = 180
    /\ nth 9 (houses layout) 0 = 540.
Proof.
  unfold calculate_houses.
  rewrite lst_west_of_greenwich, ascendant_on_equator, mc_on_equator.
  eexists. split; [reflexivity |].
  cbn [houses Houses.mc]. split; [reflexivity |].
  unfold _placidus_houses.
  cbn [fold_left Z.eqb Z.leb Z.compare Pos.compare Pos.compare_cont Pos.eqb].
  repeat match goal with
    | |- context [Z.to_nat ?z] =>
        let n := eval compute in (Z.to_nat z) in change (Z.to_nat z) with n
    end.
  cbn [list_set twelve_zeros repeat].
  rewrite !_calculate_placidus_cusp_equator.
  repeat match goal with
    | |- context [IZR ?z] =>
        lazymatch z with
        | Zpos _ => fail
        | Zneg _ => fail
        | Z0 => fail
        | _ => let v := eval compute in z in change (IZR z) with (IZR v)
        end
    end.
  rewrite (normalize_angle_value (180 + -150) 30 0) by lra.
  rewrite (normalize_angle_value (180 + -120) 60 0) by lra.
  rewrite (normalize_angle_value (180 + -90) 90 0) by lra.
  rewrite (normalize_angle_value (180 + -60) 120 0) by lra.
  rewrite (normalize_angle_value (180 + -30) 150 0) by lra.
  rewrite (normalize_angle_value (180 + 0) 180 0) by lra.
  rewrite (normalize_angle_value (180 + 210) 30 1) by lra.
  rewrite (normalize_angle_value (180 + 240) 60 1) by lra.
  rewrite (normalize_angle_value (180 + 300) 120 1) by lra.
  rewrite (normalize_angle_value (180 + 330) 150 1) by lra.
  cbn [seq].
  do 12 ordering_trip.
  cbn [fold_left nth]. lra.
Qed.

(** So is Campanus, whose loop overwrites all twelve positions: its
    tenth cusp there is 90. *)
Lemma campanus_tenth_cusp_off_midheaven :
  exists layout,
    calculate_houses 2451545.0 0 (-100.46061837) "C" = Ok layout
    /\ mc layout = 180
    /\ nth 9 (houses layout) 0 = 90.
Proof.
  unfold calculate_houses.
  rewrite lst_west_of_greenwich, ascendant_on_equator, mc_on_equator.
  eexists. split; [reflexivity |].
  cbn [houses Houses.mc]. split; [reflexivity |].
  unfold _campanus_houses.
  cbn [seq fold_left list_set twelve_zeros repeat nth].
  unfold _vertical_to_longitude.
  replace (0 * DEGTORAD) with 0 by lra. rewrite tan_0.
  apply (normalize_angle_value _ 90 1); simpl; lra.
Qed.

(* ------------------------------------------------------------------ *)
(** ** The stable sort                                                 *)
(* ------------------------------------------------------------------ *)

Section SortByKey.

Variable A : Type.
Variable key : A -> R.

Lemma insert_by_key_perm (x : A) (xs : list A) :
  Permutation (insert_by_key key x xs) (x :: xs).
Proof.
  induction xs as [| y rest IH]; simpl; [apply Permutation_refl |].
  destruct (leb (key x) (key y)); [apply Permutation_refl |].
  apply perm_trans with (y :: x :: rest); [| apply perm_swap].
  apply perm_skip, IH.
Qed.

Lemma sort_by_key_perm (xs : list A) : Permutation (sort_by_key key xs) xs.
Proof.
  induction xs as [| x rest IH]; simpl; [apply perm_nil |].
  eapply perm_trans; [apply insert_by_key_perm |].
  apply perm_skip, IH.
Qed.

Lemma insert_by_key_sorted (x : A) (xs : list A) :
  key_sorted key xs -> key_sorted key (insert_by_key key x xs).
Proof.
  unfold key_sorted.
  induction xs as [| y rest IH]; intros Hsorted; simpl.
  - constructor; constructor.
  - inversion Hsorted as [| ? ? Hrest Hy]; subst.
    unfold leb. destruct (Rle_dec (key x) (key y)) as [Hle | Hgt].
    + constructor; [exact Hsorted |].
      constructor; [exact Hle |].
      eapply Forall_impl; [| exact Hy]. simpl. intros a Ha. lra.
    + constructor; [apply IH, Hrest |].
      eapply Permutation_Forall;
        [apply Permutation_sym, insert_by_key_perm |].
      constructor; [lra | exact Hy].
Qed.

Lemma sort_by_key_sorted (xs : list A) :
  key_sorted key (sort_by_key key xs).
Proof.
  induction xs as [| x rest IH]; simpl.
  - constructor.
  - apply insert_by_key_sorted, IH.
Qed.

Lemma insert_by_key_with_key (k : R) (x : A) (xs : list A) :
  with_key key k (insert_by_key key x xs) = with_key key k (x :: xs).
Proof.
  unfold with_key.
  induction xs as [| y rest IH]; simpl; [reflexivity |].
  unfold leb. destruct (Rle_dec (key x) (key y)) as [Hle | Hgt];
    [reflexivity |].
  simpl. rewrite IH. simpl.
  destruct (Req_dec_T (key x) k), (Req_dec_T (key y) k);
    try reflexivity.
  exfalso. lra.
Qed.

(** Stability: the elements of one key come out in the order they went
    in. *)
Lemma sort_by_key_stable (k : R) (xs : list A) :
  with_key key k (sort_by_key key xs) = with_key key k xs.
Proof.
  induction xs as [| x rest IH]; simpl; [reflexivity |].
  rewrite insert_by_key_with_key. unfold with_key in *. simpl.
  rewrite IH. reflexivity.
Qed.

End SortByKey.

(* ------------------------------------------------------------------ *)
(** ** Aspects                                                         *)
(* ------------------------------------------------------------------ *)

Import Aspects.

Section Enumerate.

Variable A : Type.

Lemma in_combine_seq (xs : list A) (start i : nat) (x : A) :
  In (i, x) (combine (seq start (List.length xs)) xs) ->
  (start <= i)%nat /\ nth_error xs (i - start) = Some x.
Proof.
  revert start. induction xs as [| y rest IH]; intros start Hin; simpl in Hin.
  - contradiction.
  - destruct Hin as [Heq | Hin].
    + inversion Heq; subst. rewrite Nat.sub_diag. split; [lia | reflexivity].
    + apply IH in Hin. destruct Hin as [Hle Hnth].
      split; [lia |].
      replace (i - start)%nat with (S (i - S start)) by lia. exact Hnth.
Qed.

Lemma in_enumerate (xs : list A) (i : nat) (x : A) :
  In (i, x) (enumerate xs) -> nth_error xs i = Some x.
Proof.
  intros Hin. apply in_combine_seq in Hin.
  rewrite Nat.sub_0_r in Hin. apply Hin.
Qed.

Lemma NoDup_combine_seq (xs : list A) (start : nat) :
  NoDup (combine (seq start (List.length xs)) xs).
Proof.
  revert start. induction xs as [| y rest IH]; intros start; simpl.
  - constructor.
  - constructor; [| apply IH].
    intros Hin. apply in_combine_seq in Hin. lia.
Qed.

Lemma NoDup_enumerate (xs : list A) : NoDup (enumerate xs).
Proof. apply NoDup_combine_seq. Qed.

End Enumerate.

(** Keys of a concatenation of blocks are distinct when they are
    distinct inside each block and no key is shared by two blocks. *)
Lemma NoDup_map_flat_map {A B C : Type} (key : B -> C) (f : A -> list B)
    (xs : list A) :
  NoDup xs ->
  (forall x, In x xs -> NoDup (map key (f x))) ->
  (forall x y b c, In x xs -> In y xs -> In b (f x) -> In c (f y) ->
                   key b = key c -> x = y) ->
  NoDup (map key (flat_map f xs)).
Proof.
  induction xs as [| x rest IH]; intros Hxs Hblock Hshare; simpl.
  - constructor.
  - inversion Hxs as [| ? ? Hfresh Hrest]; subst.
    rewrite map_app. apply NoDup_app.
    + apply Hblock. left. reflexivity.
    + apply IH; [exact Hrest | |].
      * intros y Hy. apply Hblock. right. exact Hy.
      * intros y z b c Hy Hz. apply Hshare; right; assumption.
    + intros k Hk1 Hk2.
      apply in_map_iff in Hk1. destruct Hk1 as (b & Hkb & Hb).
      apply in_map_iff in Hk2. destruct Hk2 as (c & Hkc & Hc).
      apply in_flat_map in Hc. destruct Hc as (y & Hy & Hc).
      assert (x = y).
      { apply (Hshare x y b c); [left; reflexivity | right; exact Hy
                                | exact Hb | exact Hc | congruence]. }
      subst y. contradiction.
Qed.

Section AspectsFound.

Variable aspects : list AspectDef.
Variable orb_factor : R.
Variable positions : dict BodyPosition.
Variable max_orb : R.
Hypothesis keys_unique : NoDup (keys positions).

Let planets := enumerate positions.

(** In a dictionary a name is stored once: two entries of the
    enumeration with the same name are the same entry. *)
Lemma planet_entry_unique (i j : nat) (name : string)
    (data1 data2 : BodyPosition) :
  In (i, (name, data1)) planets -> In (j, (name, data2)) planets ->
  i = j /\ data1 = data2.
Proof.
  intros Hi Hj. apply in_enumerate in Hi, Hj.
  assert (Hki : nth_error (keys positions) i = Some name)
    by (unfold keys; rewrite (map_nth_error fst i positions Hi); reflexivity).
  assert (Hkj : nth_error (keys positions) j = Some name)
    by (unfold keys; rewrite (map_nth_error fst j positions Hj); reflexivity).
  assert (i = j).
  { apply (proj1 (NoDup_nth_error (keys positions)) keys_unique).
    - apply nth_error_Some. rewrite Hki. discriminate.
    - rewrite Hki, Hkj. reflexivity. }
  subst j. split; [reflexivity | congruence].
Qed.

(** What one trip of the innermost loop can append. *)
Lemma in_aspect_for (planet1 planet2 : string) (data1 data2 : BodyPosition)
    (distance : R) (aspect_def : AspectDef) (a : Aspect) :
  In a (aspect_for orb_factor max_orb planet1 data1 planet2 data2
          distance aspect_def) ->
  Aspects.planet1 a = planet1 /\ Aspects.planet2 a = planet2
  /\ aspect a = name aspect_def.
Proof.
  unfold aspect_for. destruct (leb _ _); simpl; [| contradiction].
  intros [<- | []]. repeat split.
Qed.

(** Every aspect found comes from a pair of entries taken in index
    order and a row of the table. *)
Lemma in_aspects_found (a : Aspect) :
  In a (aspects_found_with aspects orb_factor positions max_orb) ->
  exists i j data1 data2 aspect_def,
    In (i, (planet1 a, data1)) planets
    /\ In (j, (planet2 a, data2)) planets
    /\ (i < j)%nat
    /\ In aspect_def aspects
    /\ aspect a = name aspect_def.
Proof.
  unfold aspects_found_with. fold planets. intros Hin.
  apply in_flat_map in Hin. destruct Hin as ([i [p1 d1]] & Hi & Hin).
  apply in_flat_map in Hin. destruct Hin as ([j [p2 d2]] & Hj & Hin).
  destruct (Nat.leb_spec j i) as [Hle | Hlt]; [contradiction |].
  apply in_flat_map in Hin. destruct Hin as (aspect_def & Hdef & Hin).
  apply in_aspect_for in Hin. destruct Hin as (<- & <- & Hname).
  exists i, j, d1, d2, aspect_def. repeat split; assumption.
Qed.

(** A pair found one way round is never found the other way round. *)
Lemma no_reversed_pair (a b : Aspect) :
  In a (aspects_found_with aspects orb_factor positions max_orb) ->
  In b (aspects_found_with aspects orb_factor positions max_orb) ->
  planet1 a = planet2 b -> planet2 a = planet1 b -> False.
Proof.
  intros Ha Hb H12 H21.
  apply in_aspects_found in Ha, Hb.
  destruct Ha as (i & j & da1 & da2 & _ & Hai & Haj & Hij & _).
  destruct Hb as (i' & j' & db1 & db2 & _ & Hbi & Hbj & Hij' & _).
  rewrite H12 in Hai. rewrite H21 in Haj.
  destruct (planet_entry_unique _ _ _ _ _ Hai Hbj) as [-> _].
  destruct (planet_entry_unique _ _ _ _ _ Haj Hbi) as [-> _].
  lia.
Qed.

(** Distinct keys over the whole list, from distinct keys inside the
    block one pair contributes, for any key that tells the two names. *)
Section DistinctKeys.

Variable T : Type.
Variable key : Aspect -> T.
Hypothesis key_names :
  forall a b, key a = key b -> planet1 a = planet1 b /\ planet2 a = planet2 b.
Hypothesis key_block :
  forall planet1 data1 planet2 data2 distance,
    NoDup (map key
             (flat_map (aspect_for orb_factor max_orb planet1 data1
                          planet2 data2 distance) aspects)).

Lemma aspects_found_keys :
  NoDup (map key (aspects_found_with aspects orb_factor positions max_orb)).
Proof.
  unfold aspects_found_with. fold planets.
  apply NoDup_map_flat_map.
  - apply NoDup_enumerate.
  - intros [i [p1 d1]] Hi.
    apply NoDup_map_flat_map.
    + apply NoDup_enumerate.
    + intros [j [p2 d2]] Hj.
      destruct (j <=? i)%nat; [constructor | apply key_block].
    + intros [j [p2 d2]] [j' [p2' d2']] b c Hj Hj' Hb Hc Hkey.
      destruct (j <=? i)%nat; [contradiction |].
      destruct (j' <=? i)%nat; [contradiction |].
      apply in_flat_map in Hb. destruct Hb as (defb & _ & Hb).
      apply in_flat_map in Hc. destruct Hc as (defc & _ & Hc).
      apply in_aspect_for in Hb, Hc.
      destruct Hb as (_ & Hb2 & _). destruct Hc as (_ & Hc2 & _).
      destruct (key_names _ _ Hkey) as [_ H2].
      assert (E : p2' = p2) by congruence. clear Hb2 Hc2. subst p2'.
      destruct (planet_entry_unique _ _ _ _ _ Hj Hj') as [-> ->].
      reflexivity.
  - intros [i [p1 d1]] [i' [p1' d1']] b c Hi Hi' Hb Hc Hkey.
    apply in_flat_map in Hb. destruct Hb as ([j [p2 d2]] & _ & Hb).
    apply in_flat_map in Hc. destruct Hc as ([j' [p2' d2']] & _ & Hc).
    destruct (j <=? i)%nat; [contradiction |].
    destruct (j' <=? i')%nat; [contradiction |].
    apply in_flat_map in Hb. destruct Hb as (defb & _ & Hb).
    apply in_flat_map in Hc. destruct Hc as (defc & _ & Hc).
    apply in_aspect_for in Hb, Hc.
    destruct Hb as (Hb1 & _ & _). destruct Hc as (Hc1 & _ & _).
    destruct (key_names _ _ Hkey) as [H1 _].
    assert (E : p1' = p1) by congruence. clear Hb1 Hc1. subst p1'.
    destruct (planet_entry_unique _ _ _ _ _ Hi Hi') as [-> ->].
    reflexivity.
Qed.

(** The same after the sort, read by position in the returned list. *)
Lemma calculate_aspects_keys (i j : nat) (a b : Aspect) :
  let found := calculate_aspects_with aspects orb_factor positions max_orb in
  nth_error found i = Some a -> nth_error found j = Some b ->
  key a = key b -> i = j.
Proof.
  intros found Hi Hj Hkey.
  assert (Hperm : Permutation found
            (aspects_found_with aspects orb_factor positions max_orb))
    by apply sort_by_key_perm.
  assert (Hnodup : NoDup (map key found)).
  { eapply Permutation_NoDup;
      [apply Permutation_map, Permutation_sym, Hperm | apply aspects_found_keys]. }
  apply (proj1 (NoDup_nth_error (map key found)) Hnodup).
  - rewrite length_map. apply nth_error_Some. rewrite Hi. discriminate.
  - rewrite (map_nth_error key i found Hi), (map_nth_error key j found Hj).
    congruence.
Qed.

End DistinctKeys.

End AspectsFound.

(** With the orb factor of 1.0 an accepted distance lies in the window
    of the row, whatever [max_orb] is. *)
Lemma within_window (distance aspect_angle aspect_orb max_orb : R) :
  leb (Rabs (distance - aspect_angle)) (Rmin (aspect_orb * 1.0) max_orb) = true ->
  aspect_angle - aspect_orb <= distance <= aspect_angle + aspect_orb.
Proof.
  unfold leb. destruct (Rle_dec _ _) as [Hle | Hgt]; [| discriminate].
  intros _. revert Hle. unfold Rabs, Rmin.
  destruct (Rcase_abs _), (Rle_dec _ _); lra.
Qed.

(** The windows of the eight rows of [ASPECTS] do not meet: one
    distance is accepted by one row at most. *)
Lemma one_aspect_per_distance (max_orb : R) (planet1 planet2 : string)
    (data1 data2 : BodyPosition) (distance : R) :
  (List.length
     (flat_map (aspect_for 1.0 max_orb planet1 data1 planet2 data2 distance)
        ASPECTS) <= 1)%nat.
Proof.
  unfold ASPECTS. cbn [flat_map]. unfold aspect_for.
  cbn [Constants.angle Constants.orb].
  repeat match goal with
    | |- context [leb (Rabs (?d - ?a)) (Rmin (?o * 1.0) ?m)] =>
        let W := fresh "W" in
        pose proof (within_window d a o m) as W;
        destruct (leb (Rabs (d - a)) (Rmin (o * 1.0) m))
    end;
    repeat match goal with
      | H : true = true -> _ |- _ => specialize (H eq_refl)
      | H : false = true -> _ |- _ => clear H
      end;
    first [ simpl; lia | exfalso; lra ].
Qed.

Lemma NoDup_short {A : Type} (xs : list A) :
  (List.length xs <= 1)%nat -> NoDup xs.
Proof.
  destruct xs as [| x [| y rest]]; simpl; intros Hlen.
  - constructor.
  - constructor; [intros [] | constructor].
  - lia.
Qed.

Lemma NoDup_map_injective {A B : Type} (f : A -> B) (xs : list A) (x y : A) :
  NoDup (map f xs) -> In x xs -> In y xs -> f x = f y -> x = y.
Proof.
  induction xs as [| z rest IH]; simpl; intros Hnodup Hx Hy Hf;
    [contradiction |].
  inversion Hnodup as [| ? ? Hfresh Hrest]; subst.
  destruct Hx as [-> | Hx], Hy as [-> | Hy].
  - reflexivity.
  - exfalso. apply Hfresh. rewrite Hf. apply in_map, Hy.
  - exfalso. apply Hfresh. rewrite <- Hf. apply in_map, Hx.
  - apply IH; assumption.
Qed.

(** For any table with distinct names, any orb factor and any
    [max_orb]: no pair appears twice with the same kind. *)
Lemma one_aspect_per_pair_and_kind (aspects : list AspectDef)
    (orb_factor : R) (positions : dict BodyPosition) (max_orb : R)
    (i j : nat) (a b : Aspect) :
  NoDup (keys positions) -> NoDup (map name aspects) ->
  let found := calculate_aspects_with aspects orb_factor positions max_orb in
  nth_error found i = Some a -> nth_error found j = Some b ->
  same_pair a b -> aspect a = aspect b -> i = j.
Proof.
  intros Hkeys Hnames found Hi Hj Hpair Hkind.
  assert (Hperm : Permutation found
            (aspects_found_with aspects orb_factor positions max_orb))
    by apply sort_by_key_perm.
  destruct Hpair as [[H1 H2] | [H1 H2]].
  - apply (calculate_aspects_keys aspects orb_factor positions max_orb Hkeys
             (string * string * string)
             (fun a => (planet1 a, planet2 a, aspect a))) with (a := a) (b := b);
      [| | exact Hi | exact Hj | congruence].
    + intros x y Hxy. injection Hxy as E1 E2 E3. split; assumption.
    + intros p1 d1 p2 d2 distance.
      apply NoDup_map_flat_map.
      * apply (NoDup_map_inv name), Hnames.
      * intros aspect_def _. apply NoDup_short. rewrite length_map.
        unfold aspect_for. destruct (leb _ _); simpl; lia.
      * intros defx defy x y Hdx Hdy Hx Hy Hxy.
        apply (in_aspect_for orb_factor max_orb) in Hx, Hy.
        destruct Hx as (_ & _ & Hx). destruct Hy as (_ & _ & Hy).
        injection Hxy as Hp1 Hp2 Hasp.
        apply (NoDup_map_injective name aspects); try assumption.
        congruence.
  - exfalso.
    apply (no_reversed_pair aspects orb_factor positions max_orb Hkeys a b);
      try assumption;
      eapply Permutation_in; try exact Hperm;
      eapply nth_error_In; eassumption.
Qed.

(** C6. For every set of positions (a dictionary: each name stored
    once) and every [max_orb], the list [calculate_aspects] returns
    holds at most one aspect per unordered pair of bodies, hence also at
    most one per pair and kind; it is sorted by non-decreasing orb, and
    the aspects of equal orb stand in the order the loops found them. *)
Theorem calculate_aspects_unique_sorted (positions : dict BodyPosition)
    (max_orb : R) (Hkeys : NoDup (keys positions)) :
  let found := calculate_aspects positions max_orb in
  (forall i j a b,
      nth_error found i = Some a -> nth_error found j = Some b ->
      same_pair a b -> i = j)
  /\ (forall i j a b,
      nth_error found i = Some a -> nth_error found j = Some b ->
      same_pair a b -> aspect a = aspect b -> i = j)
  /\ key_sorted orb found
  /\ (forall k,
      with_key orb k found =
      with_key orb k (aspects_found_with ASPECTS 1.0 positions max_orb)).
Proof.
  intros found.
  assert (Hpair : forall i j a b,
      nth_error found i = Some a -> nth_error found j = Some b ->
      same_pair a b -> i = j).
  { intros i j a b Hi Hj Hsame.
    assert (Hperm : Permutation found
              (aspects_found_with ASPECTS 1.0 positions max_orb))
      by apply sort_by_key_perm.
    destruct Hsame as [[H1 H2] | [H1 H2]].
    - apply (calculate_aspects_keys ASPECTS 1.0 positions max_orb Hkeys
               (string * string)
               (fun a => (planet1 a, planet2 a))) with (a := a) (b := b);
        [| | exact Hi | exact Hj | congruence].
      + intros x y Hxy. injection Hxy as E1 E2. split; assumption.
      + intros p1 d1 p2 d2 distance.
        apply NoDup_short. rewrite length_map.
        apply one_aspect_per_distance.
    - exfalso.
      apply (no_reversed_pair ASPECTS 1.0 positions max_orb Hkeys a b);
        try assumption;
        eapply Permutation_in; try exact Hperm;
        eapply nth_error_In; eassumption. }
  split; [exact Hpair |].
  split; [intros i j a b Hi Hj Hsame _; exact (Hpair i j a b Hi Hj Hsame) |].
  split.
  - apply sort_by_key_sorted.
  - intros k. apply sort_by_key_stable.
Qed.

Lemma calculate_aspects_unique_sorted_witness :
  NoDup (keys three_bodies)
  /\ key_sorted orb (calculate_aspects three_bodies 8).
Proof.
  assert (H : NoDup (keys three_bodies)).
  { unfold three_bodies, keys. simpl.
    repeat (apply NoDup_cons; [simpl; intuition discriminate |]).
    apply NoDup_nil. }
  split; [exact H |].
  exact (proj1 (proj2 (proj2 (calculate_aspects_unique_sorted three_bodies 8 H)))).
Defined.

(** The three bodies above: Sun and Moon are 120 degrees apart (a
    trine, orb 0), Sun and Mars 91 (a square, orb 1), Moon and Mars 29
    (nothing).  The exact trine comes first. *)
Example calculate_aspects_three_bodies :
  map (fun a => (planet1 a, planet2 a, aspect a))
      (calculate_aspects three_bodies 8)
  = [("Sun", "Moon", "Trigone"); ("Sun", "Mars", "Carré")].
Proof.
  unfold calculate_aspects, calculate_aspects_with, aspects_found_with,
    three_bodies, body_at, ASPECTS.
  cbn [enumerate List.length seq combine flat_map Nat.leb app longitude].
  rewrite (calculate_distance_value 10 130 120) by lra.
  rewrite (calculate_distance_value 10 101 91) by lra.
  rewrite (calculate_distance_value 130 101 29) by lra.
  unfold aspect_for. cbn [Constants.angle Constants.orb].
  decide_leb.
  cbn [app sort_by_key fold_right insert_by_key orb].
  decide_leb.
  reflexivity.
Qed.

(* ------------------------------------------------------------------ *)
(** ** Compatibility                                                   *)
(* ------------------------------------------------------------------ *)

Import Calculator.

(** Whatever the ratio, the clamp leaves a percentage in [0,100]. *)
Lemma clamp_range (x : R) : 0 <= Rmax 0 (Rmin 100 x) <= 100.
Proof. unfold Rmax, Rmin. destruct (Rle_dec 100 x), (Rle_dec 0 _); lra. Qed.

(** With at least one synastry aspect the divisor is not zero: the
    percentage is the clamped formula and lies in [0,100]. *)
Lemma compatibility_with_aspects (chart1 chart2 : Chart) :
  find_synastry_aspects chart1 chart2 <> [] ->
  exists result,
    calculate_compatibility chart1 chart2 = Ok result
    /\ (let total := sum_scores (find_synastry_aspects chart1 chart2) in
        let max_possible :=
          (Z.of_nat (List.length (find_synastry_aspects chart1 chart2)) * 10)%Z in
        compatibility_percentage result =
        Rmax 0 (Rmin 100 (IZR (total + max_possible)
                          / IZR (2 * max_possible) * 100)))
    /\ 0 <= compatibility_percentage result <= 100.
Proof.
  intros Hsome. unfold calculate_compatibility.
  set (found := find_synastry_aspects chart1 chart2) in *.
  assert (Hlen : (0 < Z.of_nat (List.length found))%Z)
    by (destruct found; [contradiction | simpl; lia]).
  unfold truediv.
  destruct (Req_dec_T _ 0) as [Hzero | Hnonzero].
  - exfalso. apply eq_IZR in Hzero. lia.
  - eexists. split; [reflexivity |].
    cbn [compatibility_percentage]. split; [reflexivity | apply clamp_range].
Qed.

(** Without any synastry aspect both sums are zero and the division
    raises. *)
Lemma compatibility_without_aspects (chart1 chart2 : Chart) :
  find_synastry_aspects chart1 chart2 = [] ->
  calculate_compatibility chart1 chart2 = Raise ZeroDivisionError.
Proof.
  intros Hnone. unfold calculate_compatibility. rewrite Hnone.
  unfold truediv. simpl.
  destruct (Req_dec_T 0 0) as [_ | Hne]; [reflexivity | contradiction].
Qed.

(** Two charts of one body each, 30 degrees apart: no row of the table
    accepts a distance of 30. *)
Lemma no_synastry_aspect_at_30 :
  find_synastry_aspects (chart_sun_at 0) (chart_sun_at 30) = [].
Proof.
  unfold find_synastry_aspects, chart_sun_at, body_at, ASPECTS.
  cbn [planet_positions flat_map app longitude].
  rewrite (calculate_distance_value 0 30 30) by lra.
  cbn [Constants.angle Constants.orb].
  decide_leb. reflexivity.
Qed.

(** C3 (what the code does). For two charts between which no synastry
    aspect is found, here one body each 30 degrees apart,
    [calculate_compatibility] returns no percentage: it raises
    [ZeroDivisionError]. *)
Theorem compatibility_zero_aspects_raises :
  calculate_compatibility (chart_sun_at 0) (chart_sun_at 30) =
  Raise ZeroDivisionError.
Proof.
  apply compatibility_without_aspects, no_synastry_aspect_at_30.
Qed.

(* ================================================================== *)
(** * Further properties of the code                                   *)
(* ================================================================== *)

Import Builtins Zodiac Conversions.

(* ------------------------------------------------------------------ *)
(** ** Angles, again                                                   *)
(* ------------------------------------------------------------------ *)

(** [normalize_angle] differs from its argument by whole turns. *)
Lemma normalize_angle_turns (x : R) :
  x = normalize_angle x + 360 * IZR (Zfloor (x / 360)).
Proof.
  pose proof (Zfloor_bound (x / 360)) as Hk.
  rewrite (normalize_angle_value x (x - 360 * IZR (Zfloor (x / 360)))
             (Zfloor (x / 360))); lra.
Qed.

Lemma small_turns (m : Z) : -2 < IZR m < 2 -> m = (-1)%Z \/ m = 0%Z \/ m = 1%Z.
Proof.
  intros [Hlo Hhi]. apply lt_IZR in Hlo, Hhi. lia.
Qed.

(** An angle of [0,360) and the opposite one are 180 apart. *)
Lemma opposite_distance (a : R) :
  0 <= a < 360 -> calculate_distance a (normalize_angle (a + 180)) = 180.
Proof.
  intros Ha.
  pose proof (normalize_angle_range (a + 180)) as Ho.
  pose proof (normalize_angle_turns (a + 180)) as Ht.
  set (k := Zfloor ((a + 180) / 360)) in *.
  assert (Hk : k = (-1)%Z \/ k = 0%Z \/ k = 1%Z) by (apply small_turns; lra).
  apply calculate_distance_value; [lra |].
  destruct Hk as [Hk | [Hk | Hk]]; rewrite Hk in Ht; lra.
Qed.

(* ------------------------------------------------------------------ *)
(** ** From a Julian day to a civil date, and back                     *)
(* ------------------------------------------------------------------ *)

Section DayNumberToCivil.
Local Open Scope Z_scope.

(** Days since the last of February before, as [gregorian_from_jd]
    recovers them from the count [b]. *)
Lemma days_from_march_bounds (b : Z) :
  let c := (100 * b - 12210) / 36525 in
  let d := 36525 * c / 100 in
  123 <= b - d <= 488 /\ (b - d = 488 -> c mod 4 = 3).
Proof. intros c d. subst d c. by_division. Qed.

Lemma century_of_day_number (z : Z) :
  let w := (100 * z - 186721625) / 3652425 in
  let b := z + 1 + w - w / 4 + 1524 in
  let c := (100 * b - 12210) / 36525 in
  (c - 4716) / 100 = w + 4.
Proof. intros w b c. subst c b w. by_division. Qed.

Lemma leap_day_in_century_year (z : Z) :
  let w := (100 * z - 186721625) / 3652425 in
  let b := z + 1 + w - w / 4 + 1524 in
  let c := (100 * b - 12210) / 36525 in
  let d := 36525 * c / 100 in
  b - d = 488 -> (c - 4715) mod 100 = 0 -> (c - 4715) mod 400 = 0.
Proof. intros w b c d. subst d c b w. by_division. Qed.

Lemma is_leap_year_true (y : Z) :
  y mod 4 = 0 -> (y mod 100 = 0 -> y mod 400 = 0) -> is_leap_year y = true.
Proof.
  intros H4 H100. unfold is_leap_year.
  destruct (Z.eqb_spec (y mod 4) 0), (Z.eqb_spec (y mod 100) 0),
    (Z.eqb_spec (y mod 400) 0); simpl; try reflexivity; lia.
Qed.

(** Every day number is the day number of the civil date computed from
    it, and that date exists in the calendar. *)
Lemma civil_of_day_number_valid (z : Z) :
  let '(y, m, d) := civil_of_day_number z in
  1 <= m <= 12 /\ 1 <= d <= days_in_month y m /\ day_number y m d = z.
Proof.
  unfold civil_of_day_number.
  set (w := (100 * z - 186721625) / 3652425).
  set (b := z + 1 + w - w / 4 + 1524).
  set (c := (100 * b - 12210) / 36525).
  set (d := 36525 * c / 100).
  set (e := 10000 * (b - d) / 306001).
  destruct (days_from_march_bounds b) as [Hs Hs488]. fold c d in Hs, Hs488.
  pose proof (century_of_day_number z) as Hw. cbv zeta in Hw.
  fold w b c in Hw.
  pose proof (leap_day_in_century_year z) as Hleap. cbv zeta in Hleap.
  fold w b c d in Hleap.
  assert (He : 4 <= e <= 15) by (unfold e; clearbody d; clear - Hs; by_division).
  assert (Hday : 306001 * e <= 10000 * (b - d) < 306001 * (e + 1))
    by (unfold e; clear; by_division).
  assert (Hd : d = 36525 * c / 100) by reflexivity.
  assert (Hb : b = z + 1 + w - w / 4 + 1524) by reflexivity.
  clearbody e d c b w.
  unfold day_number, days_in_month.
  assert (Hfeb : e = 15 -> b - d - 306001 * e / 10000 = 29 ->
                 is_leap_year (c - 4715) = true).
  { intros -> H29. apply is_leap_year_true.
    - assert (H : b - d = 488) by (clear - H29; by_division).
      specialize (Hs488 H). clear - Hs488. by_division.
    - apply Hleap. clear - H29; by_division. }
  repeat match goal with
    | |- context [(?u <? ?v)] => destruct (Z.ltb_spec u v)
    | |- context [(?u <=? ?v)] => destruct (Z.leb_spec u v)
    | |- context [(?u =? ?v)] => destruct (Z.eqb_spec u v)
    end; cbn [Datatypes.orb]; try lia.
  all: try (destruct (is_leap_year _) eqn:Hly).
  all: split; [lia | split].
  all: try (rewrite Hw; clear Hfeb Hs488 Hleap; by_division).
  all: try (clear Hfeb Hs488 Hleap; by_division).
  all: assert (e = 15) by lia;
       destruct (Z.eq_dec (b - d - 306001 * e / 10000) 29) as [E | E];
       [ specialize (Hfeb ltac:(assumption) E); discriminate
       | clear Hfeb Hs488 Hleap; by_division ].
Qed.

End DayNumberToCivil.

(* ------------------------------------------------------------------ *)
(** ** The round trip on doubles                                       *)
(* ------------------------------------------------------------------ *)

Section RoundedFloors.

Variable rnd : R -> R.
Hypothesis Hrnd : round_to_nearest rnd.

Lemma rnd_quarter (k : Z) (x : R) :
  x = IZR k / 4 -> (Z.abs k <= 9007199254740992)%Z -> rnd x = x.
Proof. intros -> Hk. apply (rnd_quarters rnd Hrnd), Hk. Qed.

(** A number near enough to one that is clear of the integers has the
    same floor. *)
Lemma floor_near (v approx gap : R) (n : Z) :
  IZR n + gap <= v <= IZR n + 1 - gap ->
  Rabs (approx - v) < gap ->
  Zfloor approx = n.
Proof.
  intros Hv Hnear. apply Zfloor_eq.
  assert (Hle : Rabs (approx - v) <= gap) by lra.
  apply Rabs_between in Hle.
  assert (approx - v < gap /\ - gap < approx - v) as [Hup Hdown]
    by (apply Rabs_def2; exact Hnear).
  lra.
Qed.

(** The floor of the rounded quotient of two integers is their integer
    quotient: the quotient is an integer, which rounding keeps, or it
    is at least [1/q] away from the integers, more than rounding moves
    it. *)
Lemma Zfloor_rnd_div (p q : Z) :
  (0 < q)%Z -> (Z.abs p <= 2251799813685248)%Z ->
  (q * Z.max 1 (Z.abs p) < 9007199254740992)%Z ->
  Zfloor (rnd (IZR p / IZR q)) = (p / q)%Z.
Proof.
  intros Hq Hp Hsmall.
  pose proof (Z.div_mod p q ltac:(lia)) as E.
  pose proof (Z.mod_pos_bound p q Hq) as Hr.
  set (n := (p / q)%Z) in *. set (r := (p mod q)%Z) in *.
  assert (Hqr : 0 < IZR q) by (apply IZR_lt; exact Hq).
  assert (Hq1 : 1 <= IZR q) by (apply IZR_le; lia).
  set (iq := / IZR q).
  assert (Hiq : IZR q * iq = 1) by (unfold iq; field; lra).
  assert (Hiq0 : 0 < iq) by (unfold iq; apply Rinv_0_lt_compat; exact Hqr).
  assert (Hiq1 : iq <= 1) by nra.
  assert (Ev : IZR p / IZR q = IZR n + IZR r * iq).
  { rewrite E, plus_IZR, mult_IZR. unfold iq. field. lra. }
  destruct (Z.eq_dec r 0) as [Hzero | Hrest].
  - rewrite Ev, Hzero, Rmult_0_l, Rplus_0_r.
    rewrite (rnd_integer rnd Hrnd) by nia.
    apply ZfloorZ.
  - assert (Hr1 : 1 <= IZR r) by (apply IZR_le; lia).
    assert (Hrq : IZR r <= IZR q - 1)
      by (rewrite <- minus_IZR; apply IZR_le; lia).
    set (bound := IZR (Z.max 1 (Z.abs p))).
    assert (Hb1 : 1 <= bound) by (apply IZR_le; lia).
    assert (Hbp : Rabs (IZR p) <= bound)
      by (rewrite <- abs_IZR; apply IZR_le; lia).
    assert (Hbq : IZR q * bound < 9007199254740992)
      by (unfold bound; rewrite <- mult_IZR; apply IZR_lt; exact Hsmall).
    assert (Hv : Rabs (IZR p / IZR q) <= bound).
    { unfold Rdiv. fold iq. rewrite Rabs_mult, (Rabs_pos_eq iq) by lra.
      pose proof (Rabs_pos (IZR p)). nra. }
    pose proof (rnd_near rnd Hrnd _ _ Hb1 Hv) as Herr.
    apply floor_near with (v := IZR p / IZR q) (gap := iq).
    + rewrite Ev. nra.
    + eapply Rle_lt_trans; [exact Herr |].
      apply Rmult_lt_reg_r with (IZR q * 9007199254740992); [nra |].
      replace (bound / 9007199254740992 * (IZR q * 9007199254740992))
        with (IZR q * bound) by (field; lra).
      replace (iq * (IZR q * 9007199254740992))
        with (IZR q * iq * 9007199254740992) by ring.
      rewrite Hiq. lra.
Qed.

Lemma Zfloor_rnd_year_days (k : Z) :
  (Z.abs k <= 1000000000000)%Z ->
  Zfloor (rnd (rnd 365.25 * Rounded.of_int rnd k)) = (36525 * k / 100)%Z.
Proof.
  intros Hk.
  rewrite (rnd_quarter 1461 365.25) by (try lra; lia).
  rewrite (of_int_exact rnd Hrnd) by lia.
  rewrite (rnd_quarter (1461 * k)) by (try (rewrite mult_IZR; lra); lia).
  apply Zfloor_year_days.
Qed.

(** The length in days of [k] months of 30.6001 days, for the month
    numbers the two conversions use: the product is at least 0.0005
    clear of the integers. *)
Lemma Zfloor_rnd_month_days (k : Z) :
  (4 <= k <= 15)%Z ->
  Zfloor (rnd (rnd 30.6001 * Rounded.of_int rnd k)) = (306001 * k / 10000)%Z.
Proof.
  intros Hk.
  rewrite (of_int_exact rnd Hrnd) by lia.
  pose proof (rnd_near rnd Hrnd 30.6001 31 ltac:(lra)
                ltac:(apply Rabs_le; lra)) as Hc.
  apply Rabs_between in Hc.
  set (c := rnd 30.6001) in *.
  assert (Hk' : 4 <= IZR k <= 15) by (split; apply IZR_le; lia).
  pose proof (rnd_near rnd Hrnd (c * IZR k) 500 ltac:(lra)
                ltac:(apply Rabs_le; nra)) as Hp.
  apply Rabs_between in Hp.
  assert (Hcases : (k = 4 \/ k = 5 \/ k = 6 \/ k = 7 \/ k = 8 \/ k = 9
                    \/ k = 10 \/ k = 11 \/ k = 12 \/ k = 13 \/ k = 14
                    \/ k = 15)%Z) by lia.
  destruct Hcases as [->|[->|[->|[->|[->|[->|[->|[->|[->|[->|[->| ->]]]]]]]]]]];
    match goal with
    | |- Zfloor (rnd (c * IZR ?k)) = ?n =>
        let m := eval vm_compute in n in
        change n with m;
        apply (floor_near (30.6001 * IZR k) _ 0.0004);
        [lra | apply Rabs_def1; lra]
    end.
Qed.

(** The count of years of 365.25 days in [b - 122.1] days: the exact
    quotient is never an integer, and stays at least [1/7305] away from
    the integers. *)
Lemma Zfloor_rnd_year_count (b : Z) :
  (Z.abs b <= 5000000000)%Z ->
  Zfloor (rnd (rnd (Rounded.of_int rnd b - rnd 122.1) / rnd 365.25)) =
  ((100 * b - 12210) / 36525)%Z.
Proof.
  intros Hb.
  rewrite (of_int_exact rnd Hrnd) by lia.
  rewrite (rnd_quarter 1461 365.25) by (try lra; lia).
  pose proof (rnd_near rnd Hrnd 122.1 123 ltac:(lra)
                ltac:(apply Rabs_le; lra)) as Hc.
  apply Rabs_between in Hc.
  set (c := rnd 122.1) in *.
  assert (Hb' : -5000000000 <= IZR b <= 5000000000)
    by (split; apply IZR_le; lia).
  pose proof (rnd_near rnd Hrnd (IZR b - c) 5000000200 ltac:(lra)
                ltac:(apply Rabs_le; lra)) as Ht.
  apply Rabs_between in Ht.
  set (t := rnd (IZR b - c)) in *.
  pose proof (rnd_near rnd Hrnd (t / 365.25) 5000000200 ltac:(lra)
                ltac:(apply Rabs_le; lra)) as Hq.
  apply Rabs_between in Hq.
  replace ((100 * b - 12210) / 36525)%Z with ((20 * b - 2442) / 7305)%Z
    by (clear; by_division).
  pose proof (Z.div_mod (20 * b - 2442) 7305 ltac:(lia)) as E.
  pose proof (Z.mod_pos_bound (20 * b - 2442) 7305 ltac:(lia)) as Hr.
  assert (Hr0 : ((20 * b - 2442) mod 7305 <> 0)%Z) by (clear; by_division).
  set (n := ((20 * b - 2442) / 7305)%Z) in *.
  set (r := ((20 * b - 2442) mod 7305)%Z) in *.
  assert (Hr1 : 1 <= IZR r <= 7304) by (split; apply IZR_le; lia).
  apply (f_equal IZR) in E.
  rewrite plus_IZR, minus_IZR, !mult_IZR in E.
  apply (floor_near ((IZR b - 122.1) / 365.25) _ (1 / 7305)).
  - lra.
  - apply Rabs_def1; lra.
Qed.

(** The count of months of 30.6001 days in [k] days, for the days a year
    from March has: the exact quotient stays at least [1/306001] away
    from the integers. *)
Lemma Zfloor_rnd_month_count (k : Z) :
  (123 <= k <= 488)%Z ->
  Zfloor (rnd (Rounded.of_int rnd k / rnd 30.6001)) =
  (10000 * k / 306001)%Z.
Proof.
  intros Hk.
  rewrite (of_int_exact rnd Hrnd) by lia.
  pose proof (rnd_near rnd Hrnd 30.6001 31 ltac:(lra)
                ltac:(apply Rabs_le; lra)) as Hc.
  apply Rabs_between in Hc.
  set (c := rnd 30.6001) in *.
  assert (Hk' : 123 <= IZR k <= 488) by (split; apply IZR_le; lia).
  set (v := IZR k / 30.6001).
  assert (Hv : v * 30.6001 = IZR k) by (unfold v; field; lra).
  set (q := IZR k / c).
  assert (Hq : q * c = IZR k) by (unfold q; field; lra).
  assert (Hvr : 4 <= v <= 16)
    by (split; apply Rmult_le_reg_r with 30.6001; lra).
  assert (Hnear : - (17 / 9007199254740992) <= q - v
                  <= 17 / 9007199254740992).
  { split; apply Rmult_le_reg_r with c; try lra; nra. }
  pose proof (rnd_near rnd Hrnd q 17 ltac:(lra)
                ltac:(apply Rabs_le; lra)) as Hp.
  apply Rabs_between in Hp.
  pose proof (Z.div_mod (10000 * k) 306001 ltac:(lia)) as E.
  pose proof (Z.mod_pos_bound (10000 * k) 306001 ltac:(lia)) as Hr.
  assert (Hr0 : ((10000 * k) mod 306001 <> 0)%Z) by (clear - Hk; by_division).
  set (n := (10000 * k / 306001)%Z) in *.
  set (r := ((10000 * k) mod 306001)%Z) in *.
  assert (Hr1 : 1 <= IZR r <= 306000) by (split; apply IZR_le; lia).
  apply (f_equal IZR) in E.
  rewrite plus_IZR, !mult_IZR in E.
  apply (floor_near v _ (1 / 306001)).
  - lra.
  - apply Rabs_def1; lra.
Qed.

(** [julian_day] up to its last two roundings: the day count is
    computed exactly. *)
Lemma julian_day_rounded (y m d : Z) (h : R) :
  (1 <= m <= 12)%Z -> (1 <= d <= 31)%Z ->
  (-10000000 <= y <= 10000000)%Z ->
  Rounded.julian_day rnd y m d h =
  rnd (IZR (day_number y m d) - 0.5 + rnd (h / 24))
  /\ (Z.abs (day_number y m d) <= 3700000000)%Z.
Proof.
  intros Hm Hd Hy. unfold Rounded.julian_day, day_number.
  destruct (m <=? 2)%Z eqn:Hjan;
    [apply Z.leb_le in Hjan | apply Z.leb_gt in Hjan].
  all: match goal with
       | |- context [IZR ?year / IZR 100] =>
           rewrite (Zfloor_rnd_div year 100) by lia;
           set (a := (year / 100)%Z)
       end.
  all: assert (Ha : (-100001 <= a <= 100000)%Z) by (unfold a; by_division).
  all: rewrite (Zfloor_rnd_div a 4) by lia.
  all: rewrite Zfloor_rnd_year_days, Zfloor_rnd_month_days by lia.
  all: match goal with
       | |- context [Rounded.of_int rnd ?N] =>
           assert (HN : (Z.abs N <= 3690000000)%Z)
             by (clearbody a; clear - Ha Hy Hm Hd Hjan; by_division);
           rewrite (of_int_exact rnd Hrnd N) by lia;
           set (days := N) in *
       end.
  all: rewrite (rnd_quarter 6098 1524.5) by (try lra; lia).
  all: rewrite (rnd_quarter (4 * days - 6098) (IZR days - 1524.5))
         by (try (rewrite minus_IZR, mult_IZR; lra); lia).
  all: rewrite (rnd_quarter 96 24.0) by (try lra; lia).
  all: split; [| lia].
  all: rewrite (minus_IZR days 1524).
  all: replace (h / 24.0) with (h / 24) by lra.
  all: apply f_equal; lra.
Qed.

(** [gregorian_from_jd] after its first rounding: the date is the civil
    date of the day number, computed exactly. *)
Lemma gregorian_from_jd_rounded (jd : R) :
  let moved := rnd (jd + 0.5) in
  let z := Zfloor moved in
  (Z.abs z <= 3700000001)%Z ->
  Rounded.gregorian_from_jd rnd jd =
  (civil_of_day_number z, rnd (rnd (moved - IZR z) * 24)).
Proof.
  intros moved z Hz.
  unfold Rounded.gregorian_from_jd, civil_of_day_number.
  rewrite (rnd_quarter 2 0.5) by (try lra; lia).
  fold moved. fold z.
  rewrite (of_int_exact rnd Hrnd z) by lia.
  rewrite (rnd_quarter 7468865 1867216.25) by (try lra; lia).
  rewrite (rnd_quarter 146097 36524.25) by (try lra; lia).
  rewrite (rnd_quarter (4 * z - 7468865) (IZR z - 1867216.25))
    by (try (rewrite minus_IZR, mult_IZR; lra); lia).
  replace ((IZR z - 1867216.25) / 36524.25)
    with (IZR (4 * z - 7468865) / IZR 146097)
    by (rewrite minus_IZR, mult_IZR; lra).
  rewrite Zfloor_rnd_div by lia.
  replace ((4 * z - 7468865) / 146097)%Z
    with ((100 * z - 186721625) / 3652425)%Z by (clear; by_division).
  set (w := ((100 * z - 186721625) / 3652425)%Z).
  assert (Hw : (-110000 <= w <= 110000)%Z) by (unfold w; by_division).
  rewrite (Zfloor_rnd_div w 4) by lia.
  set (b := (z + 1 + w - w / 4 + 1524)%Z).
  assert (Hb : (Z.abs b <= 3700200000)%Z)
    by (unfold b; clearbody w; clear - Hw Hz; by_division).
  rewrite Zfloor_rnd_year_count by lia.
  set (c := ((100 * b - 12210) / 36525)%Z).
  assert (Hc : (Z.abs c <= 20000000)%Z)
    by (unfold c; clearbody b; clear - Hb; by_division).
  rewrite Zfloor_rnd_year_days by lia.
  set (d := (36525 * c / 100)%Z).
  destruct (days_from_march_bounds b) as [Hrest _]. fold c d in Hrest.
  rewrite Zfloor_rnd_month_count by lia.
  set (e := (10000 * (b - d) / 306001)%Z).
  assert (He : (4 <= e <= 15)%Z)
    by (unfold e; clearbody d; clear - Hrest; by_division).
  rewrite Zfloor_rnd_month_days by lia.
  rewrite (of_int_exact rnd Hrnd 24) by lia.
  reflexivity.
Qed.

End RoundedFloors.
Section RoundTrip.

Variable rnd : R -> R.
Hypothesis Hrnd : round_to_nearest rnd.

(** The four roundings between a day number with an hour and the day
    number and hour that come back. *)
Lemma roundtrip_day (D : Z) (h : R) :
  (Z.abs D <= 3700000000)%Z -> 0 <= h < 24 ->
  let jd := rnd (IZR D - 0.5 + rnd (h / 24)) in
  let moved := rnd (jd + 0.5) in
  let z := Zfloor moved in
  let hour := rnd (rnd (moved - IZR z) * 24) in
  (z = D \/ z = (D + 1)%Z)
  /\ 0 <= hour <= 24
  /\ Rabs (IZR z + hour / 24 - (IZR D + h / 24)) <= 1e-6
  /\ (h / 24 <= 1 - 1e-6 -> z = D /\ Rabs (hour - h) / 24 <= 1e-6).
Proof.
  intros HD Hh jd moved z hour.
  assert (HD' : -3700000000 <= IZR D <= 3700000000)
    by (split; apply IZR_le; lia).
  pose proof (rnd_zero rnd Hrnd) as E0.
  pose proof (rnd_integer rnd Hrnd 1 ltac:(lia)) as E1.
  pose proof (rnd_integer rnd Hrnd 24 ltac:(lia)) as E24.
  (* the hour as a fraction of the day *)
  pose proof (rnd_monotone rnd Hrnd 0 (h / 24) ltac:(lra)) as Hr0.
  pose proof (rnd_monotone rnd Hrnd (h / 24) 1 ltac:(lra)) as Hr1.
  pose proof (rnd_near rnd Hrnd (h / 24) 1 ltac:(lra)
                ltac:(apply Rabs_le; lra)) as Hr.
  apply Rabs_between in Hr.
  set (r := rnd (h / 24)) in *.
  (* the Julian day *)
  pose proof (rnd_quarter rnd Hrnd (4 * D - 2) (IZR D - 0.5)
                ltac:(rewrite minus_IZR, mult_IZR; lra) ltac:(lia)) as Elow.
  pose proof (rnd_quarter rnd Hrnd (4 * D + 2) (IZR D + 0.5)
                ltac:(rewrite plus_IZR, mult_IZR; lra) ltac:(lia)) as Ehigh.
  pose proof (rnd_monotone rnd Hrnd (IZR D - 0.5) (IZR D - 0.5 + r)
                ltac:(lra)) as Hjd0.
  pose proof (rnd_monotone rnd Hrnd (IZR D - 0.5 + r) (IZR D + 0.5)
                ltac:(lra)) as Hjd1.
  pose proof (rnd_near rnd Hrnd (IZR D - 0.5 + r) 3700000001 ltac:(lra)
                ltac:(apply Rabs_le; lra)) as Hjd.
  apply Rabs_between in Hjd.
  fold jd in Hjd0, Hjd1, Hjd. rewrite Elow in Hjd0. rewrite Ehigh in Hjd1.
  clearbody jd.
  (* half a day further *)
  pose proof (rnd_integer rnd Hrnd D ltac:(lia)) as ED.
  pose proof (rnd_integer rnd Hrnd (D + 1) ltac:(lia)) as ED1.
  rewrite plus_IZR in ED1.
  pose proof (rnd_monotone rnd Hrnd (IZR D) (jd + 0.5) ltac:(lra)) as Hm0.
  pose proof (rnd_monotone rnd Hrnd (jd + 0.5) (IZR D + 1) ltac:(lra)) as Hm1.
  pose proof (rnd_near rnd Hrnd (jd + 0.5) 3700000001 ltac:(lra)
                ltac:(apply Rabs_le; lra)) as Hm.
  apply Rabs_between in Hm.
  fold moved in Hm0, Hm1, Hm. rewrite ED in Hm0. rewrite ED1 in Hm1.
  clearbody moved.
  (* the whole days *)
  pose proof (Zfloor_bound moved) as Hz. fold z in Hz.
  assert (Hzlow : (D <= z)%Z) by (apply Zfloor_lub; exact Hm0).
  assert (Hzhigh : (z <= D + 1)%Z)
    by (apply le_IZR; rewrite plus_IZR; lra).
  clearbody z.
  (* the hour that comes back *)
  pose proof (rnd_monotone rnd Hrnd 0 (moved - IZR z) ltac:(lra)) as Hf0.
  pose proof (rnd_monotone rnd Hrnd (moved - IZR z) 1 ltac:(lra)) as Hf1.
  pose proof (rnd_near rnd Hrnd (moved - IZR z) 1 ltac:(lra)
                ltac:(apply Rabs_le; lra)) as Hf.
  apply Rabs_between in Hf.
  set (f := rnd (moved - IZR z)) in *.
  rewrite E0 in Hf0. rewrite E1 in Hf1.
  pose proof (rnd_monotone rnd Hrnd 0 (f * 24) ltac:(lra)) as Hh0.
  pose proof (rnd_monotone rnd Hrnd (f * 24) 24 ltac:(lra)) as Hh1.
  pose proof (rnd_near rnd Hrnd (f * 24) 24 ltac:(lra)
                ltac:(apply Rabs_le; lra)) as Hhour.
  apply Rabs_between in Hhour.
  fold hour in Hh0, Hh1, Hhour. rewrite E0 in Hh0. rewrite E24 in Hh1.
  clearbody hour f.
  split; [lia |].
  split; [lra |].
  split; [apply Rabs_le; lra |].
  intros Hclear.
  assert (HzD : z = D).
  { assert (z < D + 1)%Z; [| lia].
    apply lt_IZR. rewrite plus_IZR. lra. }
  split; [exact HzD |].
  subst z.
  assert (Rabs (hour - h) <= 24 * 1e-6) by (apply Rabs_le; lra).
  lra.
Qed.

End RoundTrip.

Section DoubleDates.
Import Floats.

(** C5, as stated, fails for years far from the present: in the year
    50,000,000 a Julian day is above 2^34, where consecutive doubles are
    2^-18 days apart; 1 January, 1 o'clock, comes back at 1.0000305
    o'clock, 1.27e-6 days later. *)
Lemma julian_day_roundtrip_far_year :
  Binary64.bind (Binary64.julian_day 50000000 1 1 1)
    Binary64.gregorian_from_jd
  = Some (50000000%Z, 1%Z, 1%Z, 1.000030517578125%float)
  /\ 1e-6 < (1.000030517578125 - 1) / 24.
Proof. split; [vm_compute; reflexivity | lra]. Qed.

(** An hour within a rounding of midnight comes back as hour 0 of the
    day after. *)
Lemma julian_day_roundtrip_next_day :
  Binary64.bind (Binary64.julian_day 2024 2 29 0x1.7fffffffff501p+4)
    Binary64.gregorian_from_jd
  = Some (2024%Z, 3%Z, 1%Z, 0%float).
Proof. vm_compute. reflexivity. Qed.

(** Noon of 1 January 2000 is the Julian day 2451545 and comes back as
    it went in. *)
Lemma julian_day_on_doubles :
  Binary64.julian_day 2000 1 1 12 = Some 2451545%float
  /\ Binary64.gregorian_from_jd 2451545 =
     Some (2000%Z, 1%Z, 1%Z, 12%float).
Proof. split; vm_compute; reflexivity. Qed.

End DoubleDates.

(** C5, amended. With every operation rounded to nearest, as on doubles,
    a valid Gregorian civil date-time of a year from -10,000,000 to
    10,000,000, converted with [julian_day] and back with
    [gregorian_from_jd], comes back as a date of the calendar with an
    hour from 0 to 24 that is, as an instant, within 1e-6 days of the
    one that went in; unless the hour was within 1e-6 days of the
    midnight that follows, it is the same year, month and day, with an
    hour within 1e-6 days. *)
Theorem julian_day_roundtrip_rounded (rnd : R -> R)
    (Hrnd : round_to_nearest rnd) (year month day : Z) (hour : R)
    (Hvalid : valid_civil year month day hour)
    (Hyear : (-10000000 <= year <= 10000000)%Z) :
  let '(year', month', day', hour') :=
    Rounded.gregorian_from_jd rnd (Rounded.julian_day rnd year month day hour) in
  ((1 <= month' <= 12)%Z /\ (1 <= day' <= days_in_month year' month')%Z
   /\ 0 <= hour' <= 24)
  /\ Rabs (instant year' month' day' hour' - instant year month day hour)
     <= 1e-6
  /\ (hour / 24 <= 1 - 1e-6 ->
      year' = year /\ month' = month /\ day' = day
      /\ Rabs (hour' - hour) / 24 <= 1e-6).
Proof.
  destruct Hvalid as (Hmonth & Hday & Hhour).
  assert (Hday31 : (1 <= day <= 31)%Z).
  { split; [lia |]. eapply Z.le_trans; [exact (proj2 Hday) |].
    unfold days_in_month.
    destruct (month =? 2)%Z; [destruct (is_leap_year year); lia |].
    destruct ((month =? 4)%Z || (month =? 6)%Z || (month =? 9)%Z
              || (month =? 11)%Z)%bool; lia. }
  destruct (julian_day_rounded rnd Hrnd year month day hour Hmonth Hday31
              Hyear) as [-> HD].
  destruct (roundtrip_day rnd Hrnd (day_number year month day) hour HD Hhour)
    as (Hz & Hrange & Hnear & Hsame).
  cbv zeta in Hz, Hrange, Hnear, Hsame.
  pose proof (gregorian_from_jd_rounded rnd Hrnd
                (rnd (IZR (day_number year month day) - 0.5
                      + rnd (hour / 24)))) as Hback.
  cbv zeta in Hback. rewrite Hback by (destruct Hz as [-> | ->]; lia).
  clear Hback.
  set (z := Zfloor _) in *.
  set (hour' := rnd (rnd (_ - IZR z) * 24)) in *.
  clearbody hour'.
  pose proof (civil_of_day_number_valid z) as Hcivil.
  pose proof (civil_of_day_number_inverse year month day Hmonth Hday) as Hinv.
  destruct (civil_of_day_number z) as [[year' month'] day'] eqn:Hdate.
  destruct Hcivil as (Hm' & Hd' & Hnumber).
  split; [split; [exact Hm' | split; [exact Hd' | exact Hrange]] |].
  split.
  - unfold instant. rewrite Hnumber.
    replace (IZR z - 0.5 + hour' / 24
             - (IZR (day_number year month day) - 0.5 + hour / 24))
      with (IZR z + hour' / 24
            - (IZR (day_number year month day) + hour / 24)) by lra.
    exact Hnear.
  - intros Hclear. destruct (Hsame Hclear) as [Ez Hh'].
    rewrite Ez, Hinv in Hdate. injection Hdate as <- <- <-.
    repeat split. exact Hh'.
Qed.

Lemma julian_day_roundtrip_rounded_witness :
  round_to_nearest to_grid
  /\ valid_civil 2024 2 29 18
  /\ (-10000000 <= 2024 <= 10000000)%Z
  /\ (let '(year', month', day', hour') :=
        Rounded.gregorian_from_jd to_grid
          (Rounded.julian_day to_grid 2024 2 29 18) in
      ((1 <= month' <= 12)%Z /\ (1 <= day' <= days_in_month year' month')%Z
       /\ 0 <= hour' <= 24)
      /\ Rabs (instant year' month' day' hour' - instant 2024 2 29 18)
         <= 1e-6
      /\ (18 / 24 <= 1 - 1e-6 ->
          year' = 2024%Z /\ month' = 2%Z /\ day' = 29%Z
          /\ Rabs (hour' - 18) / 24 <= 1e-6)).
Proof.
  assert (Hvalid : valid_civil 2024 2 29 18).
  { unfold valid_civil. split; [lia |].
    split; [vm_compute; intuition discriminate | lra]. }
  assert (Hyear : (-10000000 <= 2024 <= 10000000)%Z) by lia.
  split; [exact to_grid_rounding |].
  split; [exact Hvalid |]. split; [exact Hyear |].
  exact (julian_day_roundtrip_rounded to_grid to_grid_rounding
           2024 2 29 18 Hvalid Hyear).
Defined.

(** X3. With every operation rounded to nearest, as on doubles, for every
    Julian day of magnitude at most 3.7e9 (which covers the years from
    -10,000,000 to 10,000,000) [gregorian_from_jd] returns a date of
    the Gregorian calendar with an hour from 0 to 24, and that
    date-time is within 1e-6 days of the Julian day it came from. *)
Theorem gregorian_from_jd_rounded_valid (rnd : R -> R)
    (Hrnd : round_to_nearest rnd) (jd : R)
    (Hjd : Rabs jd <= 3700000000) :
  let '(year, month, day, hour) := Rounded.gregorian_from_jd rnd jd in
  (1 <= month <= 12)%Z /\ (1 <= day <= days_in_month year month)%Z
  /\ 0 <= hour <= 24
  /\ Rabs (instant year month day hour - jd) <= 1e-6.
Proof.
  apply Rabs_between in Hjd.
  pose proof (rnd_zero rnd Hrnd) as E0.
  pose proof (rnd_integer rnd Hrnd 1 ltac:(lia)) as E1.
  pose proof (rnd_integer rnd Hrnd 24 ltac:(lia)) as E24.
  pose proof (rnd_integer rnd Hrnd (-3700000000) ltac:(lia)) as Elow.
  pose proof (rnd_integer rnd Hrnd 3700000001 ltac:(lia)) as Ehigh.
  pose proof (rnd_monotone rnd Hrnd (-3700000000) (jd + 0.5) ltac:(lra))
    as Hm0.
  pose proof (rnd_monotone rnd Hrnd (jd + 0.5) 3700000001 ltac:(lra))
    as Hm1.
  pose proof (rnd_near rnd Hrnd (jd + 0.5) 3700000001 ltac:(lra)
                ltac:(apply Rabs_le; lra)) as Hm.
  apply Rabs_between in Hm.
  rewrite Elow in Hm0. rewrite Ehigh in Hm1.
  pose proof (gregorian_from_jd_rounded rnd Hrnd jd) as Hback.
  cbv zeta in Hback.
  set (moved := rnd (jd + 0.5)) in *.
  pose proof (Zfloor_bound moved) as Hz.
  assert (Hzlow : (-3700000000 <= Zfloor moved)%Z)
    by (apply Zfloor_lub; exact Hm0).
  assert (Hzhigh : (Zfloor moved <= 3700000001)%Z) by (apply le_IZR; lra).
  rewrite Hback by lia. clear Hback.
  set (z := Zfloor moved) in *. clearbody z moved.
  pose proof (rnd_monotone rnd Hrnd 0 (moved - IZR z) ltac:(lra)) as Hf0.
  pose proof (rnd_monotone rnd Hrnd (moved - IZR z) 1 ltac:(lra)) as Hf1.
  pose proof (rnd_near rnd Hrnd (moved - IZR z) 1 ltac:(lra)
                ltac:(apply Rabs_le; lra)) as Hf.
  apply Rabs_between in Hf.
  set (f := rnd (moved - IZR z)) in *.
  rewrite E0 in Hf0. rewrite E1 in Hf1.
  pose proof (rnd_monotone rnd Hrnd 0 (f * 24) ltac:(lra)) as Hh0.
  pose proof (rnd_monotone rnd Hrnd (f * 24) 24 ltac:(lra)) as Hh1.
  pose proof (rnd_near rnd Hrnd (f * 24) 24 ltac:(lra)
                ltac:(apply Rabs_le; lra)) as Hhour.
  apply Rabs_between in Hhour.
  rewrite E0 in Hh0. rewrite E24 in Hh1.
  set (hour := rnd (f * 24)) in *. clearbody hour f.
  pose proof (civil_of_day_number_valid z) as Hcivil.
  destruct (civil_of_day_number z) as [[year month] day].
  destruct Hcivil as (Hmonth & Hday & Hnumber).
  split; [exact Hmonth |]. split; [exact Hday |]. split; [lra |].
  unfold instant. rewrite Hnumber.
  apply Rabs_le. lra.
Qed.

Lemma gregorian_from_jd_rounded_valid_witness :
  round_to_nearest to_grid
  /\ Rabs 2451545 <= 3700000000
  /\ (let '(year, month, day, hour) :=
        Rounded.gregorian_from_jd to_grid 2451545 in
      (1 <= month <= 12)%Z /\ (1 <= day <= days_in_month year month)%Z
      /\ 0 <= hour <= 24
      /\ Rabs (instant year month day hour - 2451545) <= 1e-6).
Proof.
  assert (Hjd : Rabs 2451545 <= 3700000000)
    by (unfold Rabs; destruct (Rcase_abs 2451545); lra).
  split; [exact to_grid_rounding |]. split; [exact Hjd |].
  exact (gregorian_from_jd_rounded_valid to_grid to_grid_rounding
           2451545 Hjd).
Defined.

(* ------------------------------------------------------------------ *)
(** ** Degrees, minutes, seconds                                       *)
(* ------------------------------------------------------------------ *)

(** [int] drops the fraction, towards zero. *)
Lemma int_nonneg (x : R) :
  0 <= x -> (0 <= int x)%Z /\ IZR (int x) <= x < IZR (int x) + 1.
Proof.
  intros Hx. unfold int. destruct (Rle_dec 0 x) as [_ | Hneg]; [| lra].
  pose proof (Zfloor_bound x) as Hb.
  split; [apply Zfloor_lub; simpl; lra | exact Hb].
Qed.

Lemma int_nonpos (x : R) :
  x <= 0 -> (int x <= 0)%Z /\ IZR (int x) - 1 < x <= IZR (int x).
Proof.
  intros Hx. unfold int. destruct (Rle_dec 0 x) as [Hpos | Hneg].
  - assert (x = 0) by lra. subst x.
    replace 0 with (IZR 0) by reflexivity. rewrite ZfloorZ. simpl. split; [lia | lra].
  - pose proof (Zfloor_bound (- x)) as Hb.
    assert (0 <= Zfloor (- x))%Z by (apply Zfloor_lub; simpl; lra).
    rewrite opp_IZR. split; [lia | lra].
Qed.

Lemma int_IZR (z : Z) : int (IZR z) = z.
Proof.
  unfold int. destruct (Rle_dec 0 (IZR z)).
  - apply ZfloorZ.
  - rewrite <- opp_IZR, ZfloorZ. lia.
Qed.

Section DoubleDegrees.
Import Floats.

(** On doubles 10.1 degrees are 10 degrees, 5 minutes and a little less
    than 60 seconds (10.1 is the double 0x1.4333333333333p+3, the
    seconds are 59.99999999999872), and come back as 10.1. *)
Lemma deg_to_dms_on_doubles :
  Binary64.deg_to_dms 0x1.4333333333333p+3 =
    Some (10%Z, 5%Z, 0x1.dffffffffff4cp+5%float)
  /\ Binary64.dms_to_deg 10 5 0x1.dffffffffff4cp+5 =
     Some 0x1.4333333333333p+3%float.
Proof. split; vm_compute; reflexivity. Qed.

End DoubleDegrees.

Section RoundedDegrees.

Variable rnd : R -> R.
Hypothesis Hrnd : round_to_nearest rnd.

Variable degrees : R.
Hypothesis size : Rabs degrees <= 1000000000000000.

Lemma deg_to_dms_nonneg :
  0 <= degrees ->
  let '(d, m, s) := Rounded.deg_to_dms rnd degrees in
  ((0 <= d)%Z /\ (0 <= m <= 60)%Z /\ 0 <= s <= 60)
  /\ Rabs (Rounded.dms_to_deg rnd d m s - degrees)
     <= 1e-15 * (Rabs degrees + 2).
Proof.
  intros Hsign. unfold Rounded.deg_to_dms, Rounded.dms_to_deg.
  apply Rabs_between in size.
  rewrite (Rabs_pos_eq degrees Hsign).
  pose proof (rnd_zero rnd Hrnd) as E0.
  pose proof (rnd_integer rnd Hrnd 1 ltac:(lia)) as E1.
  pose proof (rnd_integer rnd Hrnd 60 ltac:(lia)) as E60.
  destruct (int_nonneg degrees Hsign) as [Hd Hdb].
  set (d := int degrees) in *.
  assert (Hdz : (d <= 1000000000000000)%Z) by (apply le_IZR; lra).
  rewrite !(of_int_exact rnd Hrnd d) by lia.
  rewrite !(of_int_exact rnd Hrnd 60), (of_int_exact rnd Hrnd 3600) by lia.
  pose proof (rnd_monotone rnd Hrnd 0 (degrees - IZR d) ltac:(lra)) as Hf0.
  pose proof (rnd_monotone rnd Hrnd (degrees - IZR d) 1 ltac:(lra)) as Hf1.
  pose proof (rnd_near rnd Hrnd (degrees - IZR d) 1 ltac:(lra)
                ltac:(apply Rabs_le; lra)) as Hf.
  apply Rabs_between in Hf. rewrite E0 in Hf0. rewrite E1 in Hf1.
  set (f := rnd (degrees - IZR d)) in *.
  pose proof (rnd_monotone rnd Hrnd 0 (f * 60) ltac:(lra)) as Hp0.
  pose proof (rnd_monotone rnd Hrnd (f * 60) 60 ltac:(lra)) as Hp1.
  pose proof (rnd_near rnd Hrnd (f * 60) 60 ltac:(lra)
                ltac:(apply Rabs_le; lra)) as Hp.
  apply Rabs_between in Hp. rewrite E0 in Hp0. rewrite E60 in Hp1.
  set (p := rnd (f * 60)) in *.
  destruct (int_nonneg p Hp0) as [Hm Hmb].
  set (m := int p) in *.
  assert (Hm60 : (m <= 60)%Z) by (apply le_IZR; lra).
  rewrite (of_int_exact rnd Hrnd m) by lia.
  pose proof (rnd_monotone rnd Hrnd 0 (p - IZR m) ltac:(lra)) as Hq0.
  pose proof (rnd_monotone rnd Hrnd (p - IZR m) 1 ltac:(lra)) as Hq1.
  pose proof (rnd_near rnd Hrnd (p - IZR m) 1 ltac:(lra)
                ltac:(apply Rabs_le; lra)) as Hq.
  apply Rabs_between in Hq. rewrite E0 in Hq0. rewrite E1 in Hq1.
  set (q := rnd (p - IZR m)) in *.
  pose proof (rnd_monotone rnd Hrnd 0 (q * 60) ltac:(lra)) as Hs0.
  pose proof (rnd_monotone rnd Hrnd (q * 60) 60 ltac:(lra)) as Hs1.
  pose proof (rnd_near rnd Hrnd (q * 60) 60 ltac:(lra)
                ltac:(apply Rabs_le; lra)) as Hs.
  apply Rabs_between in Hs. rewrite E0 in Hs0. rewrite E60 in Hs1.
  set (s := rnd (q * 60)) in *.
  split; [split; [exact Hd | split; [lia | lra]] |].
  assert (Hm' : 0 <= IZR m <= 60) by (split; apply IZR_le; lia).
  assert (Hd' : 0 <= IZR d) by (apply IZR_le; lia).
  pose proof (rnd_near rnd Hrnd (IZR m / IZR 60) 1 ltac:(lra)
                ltac:(apply Rabs_le; lra)) as Ht1.
  apply Rabs_between in Ht1.
  set (t1 := rnd (IZR m / IZR 60)) in *.
  pose proof (rnd_near rnd Hrnd (IZR d + t1) (degrees + 2) ltac:(lra)
                ltac:(apply Rabs_le; lra)) as Ht2.
  apply Rabs_between in Ht2.
  set (t2 := rnd (IZR d + t1)) in *.
  pose proof (rnd_near rnd Hrnd (s / 3600) 1 ltac:(lra)
                ltac:(apply Rabs_le; lra)) as Ht3.
  apply Rabs_between in Ht3.
  set (t3 := rnd (s / 3600)) in *.
  pose proof (rnd_near rnd Hrnd (t2 + t3) (degrees + 3) ltac:(lra)
                ltac:(apply Rabs_le; lra)) as Ht4.
  apply Rabs_between in Ht4.
  apply Rabs_le. lra.
Qed.

Lemma deg_to_dms_nonpos :
  degrees <= 0 ->
  let '(d, m, s) := Rounded.deg_to_dms rnd degrees in
  ((d <= 0)%Z /\ (-60 <= m <= 0)%Z /\ -60 <= s <= 0)
  /\ Rabs (Rounded.dms_to_deg rnd d m s - degrees)
     <= 1e-15 * (Rabs degrees + 2).
Proof.
  intros Hsign. unfold Rounded.deg_to_dms, Rounded.dms_to_deg.
  apply Rabs_between in size.
  replace (Rabs degrees) with (- degrees)
    by (rewrite <- Rabs_Ropp; symmetry; apply Rabs_pos_eq; lra).
  pose proof (rnd_zero rnd Hrnd) as E0.
  pose proof (rnd_integer rnd Hrnd (-1) ltac:(lia)) as E1.
  pose proof (rnd_integer rnd Hrnd (-60) ltac:(lia)) as E60.
  destruct (int_nonpos degrees Hsign) as [Hd Hdb].
  set (d := int degrees) in *.
  assert (Hdz : (-1000000000000000 <= d)%Z) by (apply le_IZR; lra).
  rewrite !(of_int_exact rnd Hrnd d) by lia.
  rewrite !(of_int_exact rnd Hrnd 60), (of_int_exact rnd Hrnd 3600) by lia.
  pose proof (rnd_monotone rnd Hrnd (degrees - IZR d) 0 ltac:(lra)) as Hf0.
  pose proof (rnd_monotone rnd Hrnd (-1) (degrees - IZR d) ltac:(lra)) as Hf1.
  pose proof (rnd_near rnd Hrnd (degrees - IZR d) 1 ltac:(lra)
                ltac:(apply Rabs_le; lra)) as Hf.
  apply Rabs_between in Hf. rewrite E0 in Hf0. rewrite E1 in Hf1.
  set (f := rnd (degrees - IZR d)) in *.
  pose proof (rnd_monotone rnd Hrnd (f * 60) 0 ltac:(lra)) as Hp0.
  pose proof (rnd_monotone rnd Hrnd (-60) (f * 60) ltac:(lra)) as Hp1.
  pose proof (rnd_near rnd Hrnd (f * 60) 60 ltac:(lra)
                ltac:(apply Rabs_le; lra)) as Hp.
  apply Rabs_between in Hp. rewrite E0 in Hp0. rewrite E60 in Hp1.
  set (p := rnd (f * 60)) in *.
  destruct (int_nonpos p Hp0) as [Hm Hmb].
  set (m := int p) in *.
  assert (Hm60 : (-60 <= m)%Z) by (apply le_IZR; lra).
  rewrite (of_int_exact rnd Hrnd m) by lia.
  pose proof (rnd_monotone rnd Hrnd (p - IZR m) 0 ltac:(lra)) as Hq0.
  pose proof (rnd_monotone rnd Hrnd (-1) (p - IZR m) ltac:(lra)) as Hq1.
  pose proof (rnd_near rnd Hrnd (p - IZR m) 1 ltac:(lra)
                ltac:(apply Rabs_le; lra)) as Hq.
  apply Rabs_between in Hq. rewrite E0 in Hq0. rewrite E1 in Hq1.
  set (q := rnd (p - IZR m)) in *.
  pose proof (rnd_monotone rnd Hrnd (q * 60) 0 ltac:(lra)) as Hs0.
  pose proof (rnd_monotone rnd Hrnd (-60) (q * 60) ltac:(lra)) as Hs1.
  pose proof (rnd_near rnd Hrnd (q * 60) 60 ltac:(lra)
                ltac:(apply Rabs_le; lra)) as Hs.
  apply Rabs_between in Hs. rewrite E0 in Hs0. rewrite E60 in Hs1.
  set (s := rnd (q * 60)) in *.
  split; [split; [exact Hd | split; [lia | lra]] |].
  assert (Hm' : -60 <= IZR m <= 0) by (split; apply IZR_le; lia).
  assert (Hd' : IZR d <= 0) by (apply IZR_le; lia).
  pose proof (rnd_near rnd Hrnd (IZR m / IZR 60) 1 ltac:(lra)
                ltac:(apply Rabs_le; lra)) as Ht1.
  apply Rabs_between in Ht1.
  set (t1 := rnd (IZR m / IZR 60)) in *.
  pose proof (rnd_near rnd Hrnd (IZR d + t1) (- degrees + 2) ltac:(lra)
                ltac:(apply Rabs_le; lra)) as Ht2.
  apply Rabs_between in Ht2.
  set (t2 := rnd (IZR d + t1)) in *.
  pose proof (rnd_near rnd Hrnd (s / 3600) 1 ltac:(lra)
                ltac:(apply Rabs_le; lra)) as Ht3.
  apply Rabs_between in Ht3.
  set (t3 := rnd (s / 3600)) in *.
  pose proof (rnd_near rnd Hrnd (t2 + t3) (- degrees + 3) ltac:(lra)
                ltac:(apply Rabs_le; lra)) as Ht4.
  apply Rabs_between in Ht4.
  apply Rabs_le. lra.
Qed.

End RoundedDegrees.

(** X4. With every operation rounded to nearest, as on doubles, for an
    angle of magnitude at most 1e15 [deg_to_dms] returns the integer
    part of the angle as degrees, and minutes and seconds that have the
    sign of the angle and a magnitude of at most 60; [dms_to_deg] takes
    the three back to the angle to within 1e-15 times its magnitude
    plus 2. *)
Theorem deg_to_dms_rounded (rnd : R -> R) (Hrnd : round_to_nearest rnd)
    (degrees : R) (Hsize : Rabs degrees <= 1000000000000000) :
  let '(d, m, s) := Rounded.deg_to_dms rnd degrees in
  d = int degrees
  /\ (0 <= degrees -> (0 <= d)%Z /\ (0 <= m <= 60)%Z /\ 0 <= s <= 60)
  /\ (degrees <= 0 -> (d <= 0)%Z /\ (-60 <= m <= 0)%Z /\ -60 <= s <= 0)
  /\ Rabs (Rounded.dms_to_deg rnd d m s - degrees)
     <= 1e-15 * (Rabs degrees + 2).
Proof.
  pose proof (deg_to_dms_nonneg rnd Hrnd degrees Hsize) as Hpos.
  pose proof (deg_to_dms_nonpos rnd Hrnd degrees Hsize) as Hneg.
  assert (Hd : fst (fst (Rounded.deg_to_dms rnd degrees)) = int degrees)
    by reflexivity.
  destruct (Rounded.deg_to_dms rnd degrees) as [[d m] s].
  split; [exact Hd |].
  split; [intros Hsign; exact (proj1 (Hpos Hsign)) |].
  split; [intros Hsign; exact (proj1 (Hneg Hsign)) |].
  destruct (Rle_dec 0 degrees) as [Hsign | Hsign].
  - exact (proj2 (Hpos Hsign)).
  - apply Hneg. lra.
Qed.

Lemma deg_to_dms_rounded_witness :
  round_to_nearest to_grid
  /\ Rabs 10.1 <= 1000000000000000
  /\ (let '(d, m, s) := Rounded.deg_to_dms to_grid 10.1 in
      d = 10%Z
      /\ (0 <= m <= 60)%Z /\ 0 <= s <= 60
      /\ Rabs (Rounded.dms_to_deg to_grid d m s - 10.1)
         <= 1e-15 * (Rabs 10.1 + 2)).
Proof.
  assert (Hsize : Rabs 10.1 <= 1000000000000000)
    by (unfold Rabs; destruct (Rcase_abs 10.1); lra).
  split; [exact to_grid_rounding |]. split; [exact Hsize |].
  pose proof (deg_to_dms_rounded to_grid to_grid_rounding 10.1 Hsize) as T.
  destruct (Rounded.deg_to_dms to_grid 10.1) as [[d m] s].
  destruct T as (Hd & Hpos & _ & Hback).
  destruct (Hpos ltac:(lra)) as (_ & Hm & Hs).
  split.
  - rewrite Hd. unfold int. destruct (Rle_dec 0 10.1); [| lra].
    apply Zfloor_eq. simpl. lra.
  - split; [exact Hm |]. split; [exact Hs | exact Hback].
Defined.

(* ------------------------------------------------------------------ *)
(** ** Signs, elements, modalities                                     *)
(* ------------------------------------------------------------------ *)

Lemma sign_index_cases (i : Z) :
  (0 <= i <= 11)%Z ->
  i = 0%Z \/ i = 1%Z \/ i = 2%Z \/ i = 3%Z \/ i = 4%Z \/ i = 5%Z \/ i = 6%Z
  \/ i = 7%Z \/ i = 8%Z \/ i = 9%Z \/ i = 10%Z \/ i = 11%Z.
Proof. lia. Qed.

Ltac each_sign H :=
  destruct (sign_index_cases _ H)
    as [->|[->|[->|[->|[->|[->|[->|[->|[->|[->|[->| ->]]]]]]]]]]].

(** X5. [get_zodiac_sign] always returns an index from 0 to 11 together
    with the name and the symbol the two tables hold there.  For a
    longitude of [0,360) the index is that of the 30-degree sector the
    longitude lies in; a negative longitude is put in the first sign and
    one of 360 or more in the last. *)
Theorem get_zodiac_sign_sector (longitude : R) :
  let '(sign_index, sign, symbol) := get_zodiac_sign longitude in
  (0 <= sign_index <= 11)%Z
  /\ nth_error ZODIAC_SIGNS (Z.to_nat sign_index) = Some sign
  /\ nth_error ZODIAC_SYMBOLS (Z.to_nat sign_index) = Some symbol
  /\ (0 <= longitude < 360 ->
      30 * IZR sign_index <= longitude < 30 * IZR sign_index + 30)
  /\ (longitude < 0 -> sign_index = 0%Z)
  /\ (360 <= longitude -> sign_index = 11%Z).
Proof.
  unfold get_zodiac_sign, floordiv. rewrite int_IZR.
  pose proof (Zfloor_bound (longitude / 30)) as Hk.
  set (k := Zfloor (longitude / 30)) in *.
  set (clamped := if (12 <=? k)%Z then 11%Z
                  else if (k <? 0)%Z then 0%Z else k).
  assert (Hrange : (0 <= clamped <= 11)%Z).
  { unfold clamped. destruct (Z.leb_spec 12 k); [lia |].
    destruct (Z.ltb_spec k 0); lia. }
  split; [exact Hrange |].
  split; [each_sign Hrange; reflexivity |].
  split; [each_sign Hrange; reflexivity |].
  split; [| split].
  - intros Hlon.
    assert (Hk0 : (0 <= k)%Z) by (apply Zfloor_lub; simpl; lra).
    assert (Hk11 : (k < 12)%Z) by (apply lt_IZR; lra).
    unfold clamped. destruct (Z.leb_spec 12 k); [lia |].
    destruct (Z.ltb_spec k 0); [lia |]. lra.
  - intros Hneg.
    assert (Hk0 : (k < 0)%Z) by (apply lt_IZR; simpl; lra).
    unfold clamped. destruct (Z.leb_spec 12 k); [lia |].
    destruct (Z.ltb_spec k 0); lia.
  - intros Hbig.
    assert (Hk12 : (12 <= k)%Z) by (apply Zfloor_lub; lra).
    unfold clamped. destruct (Z.leb_spec 12 k); lia.
Qed.

Lemma get_zodiac_sign_sector_witness :
  0 <= 95 < 360
  /\ (let '(sign_index, sign, symbol) := get_zodiac_sign 95 in
      30 * IZR sign_index <= 95 < 30 * IZR sign_index + 30).
Proof.
  assert (H : 0 <= 95 < 360) by lra.
  split; [exact H |].
  pose proof (get_zodiac_sign_sector 95) as T.
  destruct (get_zodiac_sign 95) as [[sign_index sign] symbol].
  exact (proj1 (proj2 (proj2 (proj2 T))) H).
Defined.

(** X6. The twelve signs fall to the four elements in turn and to the three
    modalities in turn: sign [i] has the element number [i mod 4] and
    the modality number [i mod 3]; any other index gets the empty
    string from both functions. *)
Theorem get_element_modality_cycle (sign_index : Z) :
  ((0 <= sign_index <= 11)%Z ->
   get_element sign_index =
     nth (Z.to_nat (sign_index mod 4)) ["Feu"; "Terre"; "Air"; "Eau"] ""
   /\ get_modality sign_index =
     nth (Z.to_nat (sign_index mod 3)) ["Cardinal"; "Fixe"; "Mutable"] "")
  /\ ((sign_index < 0 \/ 11 < sign_index)%Z ->
      get_element sign_index = "" /\ get_modality sign_index = "").
Proof.
  split.
  - intros Hrange. each_sign Hrange; split; reflexivity.
  - intros Hout.
    unfold get_element, get_modality, first_table_with, ELEMENTS, MODALITIES.
    cbn [first_return int_in existsb].
    repeat match goal with
      | |- context [(sign_index =? ?k)%Z] =>
          destruct (Z.eqb_spec sign_index k); [lia |]
      end.
    split; reflexivity.
Qed.

Lemma get_element_modality_cycle_witness :
  (0 <= 7 <= 11)%Z /\ get_element 7 = "Eau" /\ get_modality 7 = "Fixe".
Proof.
  assert (H : (0 <= 7 <= 11)%Z) by lia.
  split; [exact H |].
  exact (proj1 (get_element_modality_cycle 7) H).
Defined.

(* ------------------------------------------------------------------ *)
(** ** Interpolation                                                   *)
(* ------------------------------------------------------------------ *)






(* ------------------------------------------------------------------ *)
(** ** The set of positions                                            *)
(* ------------------------------------------------------------------ *)

Section AllPlanets.
Local Open Scope py_scope.

(** Every entry of the element table is an ellipse with a positive
    semi-major axis, a positive period and a non-negative inclination. *)
Lemma planet_elements_sane (planet_name : string) (elements : Elements) :
  get planet_elements planet_name = Some elements ->
  0 < el_a elements /\ 0 <= el_e elements < 1 /\ 0 <= el_i elements
  /\ 0 < el_period elements.
Proof.
  unfold planet_elements, _load_planet_elements. cbn [get].
  repeat match goal with
    | |- context [String.eqb planet_name ?k] =>
        destruct (String.eqb planet_name k);
        [intros H; injection H as <-; simpl; lra |]
    end.
  discriminate.
Qed.

(** What a position returned by [calculate_planet_position] is like,
    whatever the name asked for: a normalized longitude, a speed that
    is not negative, no retrograde flag, and a name of the table. *)
Lemma calculate_planet_position_shape (planet_name : string) (jd : R)
    (position : BodyPosition) :
  calculate_planet_position planet_name jd = Ok position ->
  0 <= longitude position < 360
  /\ 0 < speed position
  /\ retrograde position = false
  /\ contains planet_elements planet_name = true.
Proof.
  unfold calculate_planet_position, getitem, contains.
  destruct (get planet_elements planet_name) as [elements |] eqn:Hget;
    [| discriminate].
  cbn [negb bind].
  destruct (String.eqb planet_name "Sun").
  { unfold _calculate_sun_position, truediv.
    destruct (Req_dec_T _ 0); [discriminate |]. cbn [bind].
    intros H. injection H as <-. cbn [longitude speed retrograde].
    split; [apply normalize_angle_range |]. split; [lra | tauto]. }
  destruct (String.eqb planet_name "Moon").
  { unfold _calculate_moon_position.
    intros H. injection H as <-. cbn [longitude speed retrograde].
    split; [apply normalize_angle_range |]. split; [lra | tauto]. }
  destruct (planet_elements_sane _ _ Hget) as (Ha & He & Hi & Hp).
  unfold _calculate_planet_position, truediv.
  destruct (Req_dec_T _ 0); [discriminate |]. cbn [bind].
  destruct (Req_dec_T _ 0); [discriminate |]. cbn [bind].
  intros H. injection H as <-. cbn [longitude speed retrograde].
  split; [apply normalize_angle_range |].
  split; [| tauto].
  apply Rdiv_lt_0_compat; lra.
Qed.

(** Storing under a key keeps what holds of every entry. *)
Lemma Forall_set {V : Type} (P : string * V -> Prop) (d : dict V)
    (key : string) (v : V) :
  Forall P d -> P (key, v) -> Forall P (set d key v).
Proof.
  intros Hd Hv. induction d as [| [k v0] rest IH]; simpl.
  - constructor; [exact Hv | constructor].
  - inversion Hd as [| ? ? Hhead Hrest]; subst.
    destruct (String.eqb_spec key k) as [-> | Hne].
    + constructor; [exact Hv | exact Hrest].
    + constructor; [exact Hhead | apply IH, Hrest].
Qed.

Lemma for_each_store_position_Forall (jd : R)
    (P : string * BodyPosition -> Prop) (names : list string) :
  (forall planet_name position,
      calculate_planet_position planet_name jd = Ok position ->
      P (planet_name, position)) ->
  forall positions positions',
    Forall P positions ->
    for_each names (store_position jd) positions = Ok positions' ->
    Forall P positions'.
Proof.
  intros Hstep. induction names as [| planet_name rest IH];
    intros positions positions' Hall Hrun; simpl in Hrun.
  - injection Hrun as <-. exact Hall.
  - unfold store_position at 1 in Hrun.
    destruct (calculate_planet_position planet_name jd) as [position |] eqn:Hpos;
      [| discriminate].
    cbn [bind] in Hrun.
    apply (IH _ _ (Forall_set P _ _ _ Hall (Hstep _ _ Hpos))).
    exact Hrun.
Qed.

Lemma get_set_other {V : Type} (d : dict V) (key other : string) (v : V) :
  other <> key -> get (set d key v) other = get d other.
Proof.
  intros Hne. induction d as [| [k v0] rest IH]; simpl.
  - destruct (String.eqb_spec other key); [contradiction | reflexivity].
  - destruct (String.eqb_spec key k) as [-> | Hk]; simpl.
    + destruct (String.eqb_spec other k); [contradiction | reflexivity].
    + destruct (String.eqb_spec other k); [reflexivity | exact IH].
Qed.

(** The steps of [calculate_all_planets] after the loop. *)
Lemma calculate_all_planets_steps (jd : R) (positions : dict BodyPosition) :
  calculate_all_planets jd = Ok positions ->
  exists classical,
    for_each planet_names (store_position jd) [] = Ok classical
    /\ positions =
       set (set (set classical "Node" (_calculate_lunar_node jd))
              "South_Node" (_calculate_south_node (_calculate_lunar_node jd)))
         "Chiron" (_calculate_chiron jd).
Proof.
  unfold calculate_all_planets.
  destruct (for_each planet_names (store_position jd) []) as [classical |];
    [| discriminate].
  cbn [bind]. unfold getitem. rewrite get_set_same. cbn [bind].
  intros H. injection H as <-. exists classical. split; reflexivity.
Qed.

(** Within two thousand centuries of J2000 the set is returned. *)
Lemma calculate_all_planets_defined (jd : R) :
  Rabs ((jd - 2451545.0) / 36525.0) <= 2000 ->
  exists positions, calculate_all_planets jd = Ok positions.
Proof.
  intros Hjd.
  assert (Hten : Forall (fun planet_name =>
            exists position,
              calculate_planet_position planet_name jd = Ok position)
         planet_names).
  { unfold planet_names. repeat apply Forall_cons; try apply Forall_nil.
    - erewrite calculate_planet_position_known by reflexivity.
      apply _calculate_sun_position_ok, Hjd.
    - erewrite calculate_planet_position_known by reflexivity.
      apply _calculate_moon_position_ok.
    - keplerian_planet.
    - keplerian_planet.
    - keplerian_planet.
    - keplerian_planet.
    - keplerian_planet.
    - keplerian_planet.
    - keplerian_planet.
    - keplerian_planet. }
  destruct (for_each_store_position jd planet_names [] Hten)
    as (classical & Hrun & _).
  { simpl. unfold planet_names.
    repeat (apply NoDup_cons; [simpl; intuition discriminate |]).
    apply NoDup_nil. }
  unfold calculate_all_planets. rewrite Hrun. cbn [bind].
  unfold getitem. rewrite get_set_same. cbn [bind].
  eexists. reflexivity.
Qed.

End AllPlanets.

(** X9. Whenever [calculate_all_planets] returns, every longitude of the
    set is in [0,360), and the retrograde flag of every body says what
    [is_retrograde] says of its speed; the flag is set for the body
    called Node and for no other. *)
Theorem calculate_all_planets_entries (jd : R) (positions : dict BodyPosition)
    (Hreturned : calculate_all_planets jd = Ok positions) :
  Forall (fun '(planet_name, position) =>
            0 <= longitude position < 360
            /\ retrograde position = is_retrograde (speed position)
            /\ (retrograde position = true <-> planet_name = "Node"))
         positions.
Proof.
  destruct (calculate_all_planets_steps jd positions Hreturned)
    as (classical & Hrun & ->).
  set (P := fun '(planet_name, position) =>
            0 <= longitude position < 360
            /\ retrograde position = is_retrograde (speed position)
            /\ (retrograde position = true <-> planet_name = "Node")).
  assert (Hclassical : Forall P classical).
  { apply (for_each_store_position_Forall jd P planet_names) with (positions := []);
      [| constructor | exact Hrun].
    intros planet_name position Hpos.
    destruct (calculate_planet_position_shape _ _ _ Hpos)
      as (Hlon & Hspeed & Hretro & Hknown).
    unfold P. split; [exact Hlon |].
    split; [rewrite Hretro; unfold is_retrograde; rewrite ltb_false by lra;
            reflexivity |].
    rewrite Hretro. split; [discriminate |].
    intros ->. discriminate Hknown. }
  repeat apply Forall_set; try exact Hclassical;
    unfold P, _calculate_lunar_node, _calculate_south_node, _calculate_chiron,
      is_retrograde; cbn [longitude speed retrograde];
    (split; [apply normalize_angle_range |]).
  - rewrite ltb_true by lra. split; [reflexivity | tauto].
  - rewrite ltb_false by lra. split; [reflexivity |].
    split; [discriminate | intros H; discriminate H].
  - rewrite ltb_false by lra. split; [reflexivity |].
    split; [discriminate | intros H; discriminate H].
Qed.

Lemma calculate_all_planets_entries_witness :
  exists positions,
    calculate_all_planets 2451545 = Ok positions
    /\ Forall (fun '(planet_name, position) =>
                 0 <= longitude position < 360
                 /\ retrograde position = is_retrograde (speed position)
                 /\ (retrograde position = true <-> planet_name = "Node"))
              positions.
Proof.
  assert (H : Rabs ((2451545 - 2451545.0) / 36525.0) <= 2000) by cmp_lra.
  destruct (calculate_all_planets_defined 2451545 H) as [positions Hpos].
  exists positions. split; [exact Hpos |].
  exact (calculate_all_planets_entries 2451545 positions Hpos).
Defined.

Section DoubleNodes.
Import Floats.

(** On doubles the half turn is rounded: from the node's longitude at
    J2000, 125.04452 (the double 0x1.f42d96a6a0126p+6), the south node is
    at 305.04452000000003, and the two are 179.99999999999997 degrees
    apart, 2^-45 short of 180. *)
Lemma nodes_on_doubles :
  Binary64.normalize_angle 1 (0x1.f42d96a6a0126p+6 + 180) =
    Some 0x1.310b65a9a804ap+8%float
  /\ Binary64.calculate_distance 0x1.f42d96a6a0126p+6 0x1.310b65a9a804ap+8 =
     0x1.67fffffffffffp+7%float
  /\ PrimFloat.abs (0x1.67fffffffffffp+7 - 180) = 0x1p-45%float.
Proof. repeat split. Qed.

End DoubleNodes.





(* ------------------------------------------------------------------ *)
(** ** The Sun and the Moon                                            *)
(* ------------------------------------------------------------------ *)

(** X12. Within a hundred centuries of J2000 [_calculate_sun_position]
    returns a position on the ecliptic (latitude 0) between 0.979 and
    1.021 astronomical units away, moving at 0.9856474 degrees a day,
    and [_calculate_moon_position] returns a longitude of [0,360), a
    latitude of at most 5.686488 degrees either side of the ecliptic,
    and its two constants for distance and speed. *)
Theorem luminaries_bounds (jd : R)
    (Hcenturies : Rabs ((jd - 2451545.0) / 36525.0) <= 100) :
  (exists sun,
     _calculate_sun_position jd = Ok sun
     /\ in_first_turn (longitude sun)
     /\ latitude sun = 0
     /\ 0.979 <= distance sun <= 1.021
     /\ speed sun = 0.9856474)
  /\ (exists moon,
        _calculate_moon_position jd = Ok moon
        /\ in_first_turn (longitude moon)
        /\ Rabs (latitude moon) <= 5.686488
        /\ distance moon = 385000.56
        /\ speed moon = 13.176358).
Proof.
  split.
  - unfold _calculate_sun_position.
    set (t := (jd - 2451545.0) / 36525.0) in *.
    assert (Ht : -100 <= t <= 100) by (revert Hcenturies; cmp_lra).
    assert (Hsq : 0 <= t ^ 2 <= 10000) by nra.
    set (e := 0.016708634 - 0.000042037 * t - 0.0000001267 * t ^ 2).
    assert (He : 0.0112379 <= e <= 0.0209124) by (unfold e; lra).
    match goal with
    | |- context [cos ?u] =>
        pose proof (COS_bound u) as Hcos; set (c := cos u) in *
    end.
    assert (Hec : - e <= e * c <= e) by nra.
    assert (HD : 0 < 1 + e * c) by lra.
    rewrite truediv_ok by lra. cbn [bind].
    eexists. split; [reflexivity |].
    cbn [longitude latitude distance speed].
    split; [apply normalize_angle_range |].
    split; [lra |].
    split; [| reflexivity].
    set (d := 1.000001018 * (1 - e ^ 2) / (1 + e * c)).
    assert (Hd : d * (1 + e * c) = 1.000001018 * (1 - e) * (1 + e))
      by (unfold d; field; lra).
    assert (Hlow : 1.000001018 * (1 - e) <= d).
    { apply Rmult_le_reg_r with (1 + e * c); [exact HD |].
      rewrite Hd. apply Rmult_le_compat_l; lra. }
    assert (Hhigh : d <= 1.000001018 * (1 + e)).
    { apply Rmult_le_reg_r with (1 + e * c); [exact HD |].
      rewrite Hd.
      replace (1.000001018 * (1 - e) * (1 + e))
        with (1.000001018 * (1 + e) * (1 - e)) by ring.
      apply Rmult_le_compat_l; lra. }
    lra.
  - unfold _calculate_moon_position.
    eexists. split; [reflexivity |].
    cbn [longitude latitude distance speed].
    split; [apply normalize_angle_range |].
    split; [| split; reflexivity].
    repeat match goal with
      | |- context [sin ?u] =>
          pose proof (SIN_bound u); generalize dependent (sin u); intros
      end.
    apply Rabs_le. lra.
Qed.

Lemma luminaries_bounds_witness :
  Rabs ((2451545 - 2451545.0) / 36525.0) <= 100
  /\ exists sun,
       _calculate_sun_position 2451545 = Ok sun
       /\ 0.979 <= distance sun <= 1.021.
Proof.
  assert (H : Rabs ((2451545 - 2451545.0) / 36525.0) <= 100) by cmp_lra.
  split; [exact H |].
  destruct (proj1 (luminaries_bounds 2451545 H))
    as (sun & Hsun & _ & _ & Hdistance & _).
  exists sun. split; [exact Hsun | exact Hdistance].
Defined.

(* ------------------------------------------------------------------ *)
(** ** The house layout                                                *)
(* ------------------------------------------------------------------ *)

Import HousePlacement.

Section HouseLayoutShape.

(** For a code other than "O" the layout is returned, with the cusps of
    the dispatched system. *)
Lemma calculate_houses_returns (jd latitude longitude : R) (system : string) :
  system <> "O" ->
  let lst := _calculate_local_sidereal_time jd longitude in
  let asc := _calculate_ascendant lst latitude in
  let mc0 := _calculate_mc lst latitude in
  calculate_houses jd latitude longitude system =
  Ok (mkHouseLayout (division_of system asc mc0 latitude lst) asc
        (normalize_angle (asc + 180)) mc0 (normalize_angle (mc0 + 180))
        system lst).
Proof.
  intros Hsystem lst asc mc0. unfold calculate_houses, division_of.
  fold lst. fold asc. fold mc0.
  destruct (String.eqb system "P"); [reflexivity |].
  destruct (String.eqb system "K"); [reflexivity |].
  destruct (String.eqb system "C"); [reflexivity |].
  destruct (String.eqb system "R"); [reflexivity |].
  destruct (String.eqb system "E"); [reflexivity |].
  destruct (String.eqb_spec system "O"); [contradiction | reflexivity].
Qed.

Lemma _calculate_mc_range (lst latitude : R) :
  in_first_turn (_calculate_mc lst latitude).
Proof. unfold _calculate_mc. apply normalize_angle_range. Qed.


(** Loops over a list of cusps. *)
Lemma Forall_list_set (P : R -> Prop) (xs : list R) (i : nat) (v : R) :
  Forall P xs -> P v -> Forall P (list_set xs i v).
Proof.
  intros Hxs Hv. revert i. induction Hxs as [| x rest Hx Hrest IH];
    intros [| j]; simpl; constructor; try assumption. apply IH.
Qed.

Lemma fold_left_invariant {A : Type} (Inv : list R -> Prop)
    (step : list R -> A -> list R) (xs : list A) :
  (forall l a, Inv l -> Inv (step l a)) ->
  forall l, Inv l -> Inv (fold_left step xs l).
Proof.
  intros Hstep. induction xs as [| x rest IH]; intros l Hl; simpl.
  - exact Hl.
  - apply IH, Hstep, Hl.
Qed.

Lemma twelve_in_turn_set (cusps : list R) (i : nat) (v : R) :
  twelve_in_turn cusps -> in_first_turn v -> twelve_in_turn (list_set cusps i v).
Proof.
  intros [Hlen Hall] Hv. split.
  - rewrite length_list_set. exact Hlen.
  - apply Forall_list_set; assumption.
Qed.

Lemma twelve_zeros_in_turn : twelve_in_turn twelve_zeros.
Proof.
  split; [reflexivity |].
  unfold twelve_zeros. simpl. repeat constructor; unfold in_first_turn; lra.
Qed.

Variables ascendant mc latitude lst : R.
Hypothesis ascendant_normalized : in_first_turn ascendant.
Hypothesis mc_normalized : in_first_turn mc.




Lemma _equal_houses_in_turn : twelve_in_turn (_equal_houses ascendant).
Proof.
  unfold _equal_houses. apply fold_left_invariant.
  - intros l i Hl. apply twelve_in_turn_set; [exact Hl |].
    apply normalize_angle_range.
  - apply twelve_zeros_in_turn.
Qed.

(** The ordering pass of [_placidus_houses] visits each position once,
    in order, and adds at most one turn to it. *)
Lemma ordering_pass_range (count : nat) :
  forall (start : nat) (cusps : list R),
    Forall (fun c => 0 <= c < 720) cusps ->
    (forall j, (start <= j)%nat -> in_first_turn (nth j cusps 0)) ->
    let pass :=
      fold_left
        (fun houses (i : nat) =>
           if (0 <? i)%nat && ltb (nth i houses 0) (nth (i - 1) houses 0)
           then list_set houses i (nth i houses 0 + 360)
           else houses)
        (seq start count) cusps in
    List.length pass = List.length cusps
    /\ Forall (fun c => 0 <= c < 720) pass.
Proof.
  induction count as [| count IH]; intros start cusps Hall Hrest; simpl.
  - split; [reflexivity | exact Hall].
  - destruct ((0 <? start)%nat && _).
    + destruct (IH (S start) (list_set cusps start (nth start cusps 0 + 360)))
        as [Hlen Hpass].
      * apply Forall_list_set; [exact Hall |].
        pose proof (Hrest start (Nat.le_refl _)) as Hs.
        unfold in_first_turn in Hs. lra.
      * intros j Hj. rewrite nth_list_set_other by lia. apply Hrest. lia.
      * split; [| exact Hpass].
        rewrite <- (length_list_set cusps start (nth start cusps 0 + 360)).
        exact Hlen.
    + apply IH; [exact Hall |]. intros j Hj. apply Hrest. lia.
Qed.

Lemma _placidus_houses_range :
  List.length (_placidus_houses ascendant mc latitude lst) = 12%nat
  /\ Forall (fun c => 0 <= c < 720) (_placidus_houses ascendant mc latitude lst).
Proof.
  unfold _placidus_houses.
  match goal with
  | |- context [fold_left ?step (seq 0 12) ?raw] =>
      assert (Hraw : twelve_in_turn raw)
  end.
  { apply fold_left_invariant.
    - intros l i Hl. destruct (i =? 9)%Z; [exact Hl |].
      apply twelve_in_turn_set; [exact Hl |].
      unfold _calculate_placidus_cusp. apply normalize_angle_range.
    - repeat apply twelve_in_turn_set; try assumption.
      apply twelve_zeros_in_turn. }
  destruct Hraw as [Hlen Hall].
  match goal with
  | |- context [fold_left ?step (seq 0 12) ?raw] =>
      destruct (ordering_pass_range 12 0 raw) as [Hlen' Hpass]
  end.
  - eapply Forall_impl; [| exact Hall]. unfold in_first_turn. intros c Hc. lra.
  - intros j _. destruct (Nat.lt_ge_cases j 12) as [Hj | Hj].
    + apply (proj1 (Forall_nth _ _) Hall). lia.
    + rewrite nth_overflow by lia. unfold in_first_turn. lra.
  - split; [rewrite Hlen'; exact Hlen | exact Hpass].
Qed.

End HouseLayoutShape.





(* ------------------------------------------------------------------ *)
(** ** Placing a body in a house                                       *)
(* ------------------------------------------------------------------ *)

Section FirstMatch.

Variable f : nat -> bool.

Lemma find_seq_some (count : nat) :
  forall start i,
    find f (seq start count) = Some i ->
    (start <= i < start + count)%nat /\ f i = true
    /\ forall j, (start <= j < i)%nat -> f j = false.
Proof.
  induction count as [| count IH]; intros start i Hfind; simpl in Hfind.
  - discriminate.
  - destruct (f start) eqn:Hstart.
    + injection Hfind as <-. split; [lia |]. split; [exact Hstart |].
      intros j Hj. lia.
    + destruct (IH _ _ Hfind) as (Hrange & Hi & Hbefore).
      split; [lia |]. split; [exact Hi |].
      intros j Hj. destruct (Nat.eq_dec j start) as [-> | Hne];
        [exact Hstart | apply Hbefore; lia].
Qed.

Lemma find_seq_none (count : nat) :
  forall start,
    find f (seq start count) = None ->
    forall j, (start <= j < start + count)%nat -> f j = false.
Proof.
  induction count as [| count IH]; intros start Hfind j Hj; simpl in Hfind.
  - lia.
  - destruct (f start) eqn:Hstart; [discriminate |].
    destruct (Nat.eq_dec j start) as [-> | Hne];
      [exact Hstart | apply (IH _ Hfind); lia].
Qed.

End FirstMatch.

Import Outcome.

(** Reading a list at a position it has, and at one it has not. *)
Lemma list_getitem_inside {A : Type} (xs : list A) (i : nat) (default : A) :
  (i < List.length xs)%nat ->
  list_getitem xs (Z.of_nat i) = Returns (nth i xs default).
Proof.
  intros Hi. unfold list_getitem.
  destruct (Z.ltb_spec (Z.of_nat i) 0) as [Hneg | _]; [lia |].
  destruct (Z.ltb_spec (Z.of_nat i) 0) as [Hneg | _]; [lia |].
  rewrite Nat2Z.id.
  rewrite (nth_error_nth' xs default Hi). reflexivity.
Qed.

Lemma list_getitem_outside {A : Type} (xs : list A) (i : nat) :
  (List.length xs <= i)%nat ->
  list_getitem xs (Z.of_nat i) = Raises (IndexError "list index out of range").
Proof.
  intros Hi. unfold list_getitem.
  destruct (Z.ltb_spec (Z.of_nat i) 0) as [Hneg | _]; [lia |].
  destruct (Z.ltb_spec (Z.of_nat i) 0) as [Hneg | _]; [lia |].
  rewrite Nat2Z.id.
  destruct (nth_error xs i) as [x |] eqn:Hnth; [| reflexivity].
  assert (Hsome : nth_error xs i <> None) by (rewrite Hnth; discriminate).
  apply nth_error_Some in Hsome. lia.
Qed.

Section TwelveCusps.

Variable planet_longitude : R.
Variable cusps : list R.

(** On a list that has the twelve cusps every trip of the loop makes
    its test. *)
Lemma in_house_twelve (i : nat) :
  (12 <= List.length cusps)%nat -> (i < 12)%nat ->
  in_house planet_longitude cusps i =
  Returns (house_test planet_longitude cusps i).
Proof.
  intros Hlen Hi. unfold in_house, house_test. cbv zeta.
  assert (Hnext : ((i + 1) mod 12 < 12)%nat)
    by (apply Nat.mod_upper_bound; discriminate).
  rewrite (list_getitem_inside cusps i 0) by lia.
  rewrite (list_getitem_inside cusps ((i + 1) mod 12) 0) by lia.
  reflexivity.
Qed.

Lemma first_house_find (count : nat) :
  (12 <= List.length cusps)%nat ->
  forall start, (start + count <= 12)%nat ->
  first_house planet_longitude cusps (seq start count) =
  Returns
    match find (house_test planet_longitude cusps) (seq start count) with
    | Some i => (Z.of_nat i + 1)%Z
    | None => 1%Z
    end.
Proof.
  intros Hlen.
  induction count as [| count IH]; intros start Hend; [reflexivity |].
  cbn [seq first_house find].
  rewrite in_house_twelve by lia. cbn [and_then].
  destruct (house_test planet_longitude cusps start); [reflexivity |].
  apply IH. lia.
Qed.

Lemma get_planet_house_twelve :
  (12 <= List.length cusps)%nat ->
  get_planet_house planet_longitude cusps =
  Returns (first_passing planet_longitude cusps).
Proof.
  intros Hlen. unfold get_planet_house, first_passing.
  apply first_house_find; [exact Hlen | lia].
Qed.

(** On a shorter list the loop reaches the end of the list before it
    has gone through the twelve houses. *)
Lemma first_house_short (count : nat) :
  (List.length cusps < 12)%nat ->
  forall start,
    (start <= List.length cusps - 1)%nat ->
    (List.length cusps - 1 < start + count)%nat ->
    first_house planet_longitude cusps (seq start count) =
      Raises (IndexError "list index out of range")
    \/ exists house,
         first_house planet_longitude cusps (seq start count) = Returns house
         /\ (1 <= house < Z.of_nat (List.length cusps))%Z.
Proof.
  intros Hlen.
  induction count as [| count IH]; intros start Hstart Hend; [lia |].
  cbn [seq first_house]. unfold in_house. cbv zeta.
  destruct (Nat.lt_ge_cases (start + 1) (List.length cusps)) as [Hin | Hout].
  - rewrite (list_getitem_inside cusps start 0) by lia.
    rewrite Nat.mod_small by lia.
    rewrite (list_getitem_inside cusps (start + 1) 0) by lia.
    cbn [and_then].
    destruct (between _ _ _).
    + right. eexists. split; [reflexivity | lia].
    + apply IH; lia.
  - left.
    destruct (Nat.lt_ge_cases start (List.length cusps)) as [Hhas | Hnone].
    + rewrite (list_getitem_inside cusps start 0) by lia.
      rewrite Nat.mod_small by lia.
      rewrite (list_getitem_outside cusps (start + 1)) by lia.
      reflexivity.
    + rewrite (list_getitem_outside cusps start) by lia. reflexivity.
Qed.

End TwelveCusps.

(** X15. On a list of at least twelve cusps [get_planet_house] answers
    with a house from 1 to 12: the first house, in order, whose interval
    test accepts the longitude, or house 1 when none of the twelve tests
    does.  On a shorter list it answers only if one of the tests made
    before the end of the list accepts the longitude, and otherwise
    raises [IndexError]. *)
Theorem get_planet_house_first (planet_longitude : R) (cusps : list R) :
  ((12 <= List.length cusps)%nat ->
   exists house,
     get_planet_house planet_longitude cusps = Returns house
     /\ (1 <= house <= 12)%Z
     /\ ((house_test planet_longitude cusps (Z.to_nat (house - 1)) = true
          /\ forall i, (i < Z.to_nat (house - 1))%nat ->
                       house_test planet_longitude cusps i = false)
         \/ (house = 1%Z
             /\ forall i, (i < 12)%nat ->
                          house_test planet_longitude cusps i = false)))
  /\ ((List.length cusps < 12)%nat ->
      get_planet_house planet_longitude cusps =
        Raises (IndexError "list index out of range")
      \/ exists house,
           get_planet_house planet_longitude cusps = Returns house
           /\ (1 <= house < Z.of_nat (List.length cusps))%Z).
Proof.
  split.
  - intros Hlen. exists (first_passing planet_longitude cusps).
    split; [apply get_planet_house_twelve, Hlen |].
    unfold first_passing.
    destruct (find (house_test planet_longitude cusps) (seq 0 12))
      as [i |] eqn:Hfind.
    + destruct (find_seq_some _ _ _ _ Hfind) as (Hrange & Hi & Hbefore).
      split; [lia |]. left.
      replace (Z.to_nat (Z.of_nat i + 1 - 1)) with i by lia.
      split; [exact Hi |]. intros j Hj. apply Hbefore. lia.
    + split; [lia |]. right. split; [reflexivity |].
      intros i Hi. apply (find_seq_none _ _ _ Hfind). lia.
  - intros Hlen. unfold get_planet_house.
    apply first_house_short; [exact Hlen | lia | lia].
Qed.

Lemma get_planet_house_first_witness :
  get_planet_house 10 [] = Raises (IndexError "list index out of range")
  /\ exists house,
       get_planet_house 40 (_equal_houses 100) = Returns house
       /\ (1 <= house <= 12)%Z.
Proof.
  split.
  - reflexivity.
  - assert (Hlen : (12 <= List.length (_equal_houses 100))%nat)
      by (rewrite (proj1 (_equal_houses_in_turn 100)); lia).
    destruct (proj1 (get_planet_house_first 40 (_equal_houses 100)) Hlen)
      as (house & Hhouse & Hrange & _).
    exists house. split; [exact Hhouse | exact Hrange].
Defined.

(** *** Cusps in the order of the houses *)

Section CuspsInOrder.

Variable planet_longitude : R.
Variable cusps : list R.
Variable wrap : nat.

Hypothesis wrap_house : (wrap < 12)%nat.
Hypothesis through_zero :
  nth ((wrap + 1) mod 12) cusps 0 < nth wrap cusps 0.
Hypothesis rising :
  forall i, (i < 12)%nat -> i <> wrap ->
            nth i cusps 0 < nth ((i + 1) mod 12) cusps 0.

(** The cusps counted from the one after the wrap: a rising chain. *)
Let chain (j : nat) : R := nth ((wrap + 1 + j) mod 12) cusps 0.

Lemma chain_step (j : nat) : (j < 11)%nat -> chain j < chain (j + 1).
Proof.
  intros Hj. unfold chain.
  replace ((wrap + 1 + (j + 1)) mod 12)%nat
    with (((wrap + 1 + j) mod 12 + 1) mod 12)%nat.
  - apply rising.
    + apply Nat.mod_upper_bound. discriminate.
    + intros Heq.
      pose proof (Nat.div_mod_eq (wrap + 1 + j) 12) as Hdiv.
      rewrite Heq in Hdiv. lia.
  - rewrite Nat.Div0.add_mod_idemp_l. f_equal. lia.
Qed.

Lemma chain_rises (a b : nat) :
  (a <= b)%nat -> (b <= 11)%nat -> chain a <= chain b.
Proof.
  intros Hab Hb. induction b as [| b IH].
  - replace a with 0%nat by lia. lra.
  - destruct (Nat.eq_dec a (S b)) as [-> | Hne]; [lra |].
    pose proof (chain_step b ltac:(lia)) as Hstep.
    replace (b + 1)%nat with (S b) in Hstep by lia.
    assert (chain a <= chain b) by (apply IH; lia).
    lra.
Qed.

(** A house and its place in the chain. *)
Lemma chain_place (i : nat) :
  (i < 12)%nat ->
  exists j, (j <= 11)%nat /\ i = ((wrap + 1 + j) mod 12)%nat
            /\ (j = 11%nat <-> i = wrap).
Proof.
  intros Hi.
  destruct (Nat.le_gt_cases (wrap + 1) i) as [Hafter | Hbefore].
  - exists (i - (wrap + 1))%nat. split; [lia |]. split.
    + replace (wrap + 1 + (i - (wrap + 1)))%nat with i by lia.
      symmetry. apply Nat.mod_small. exact Hi.
    + lia.
  - exists (i + 11 - wrap)%nat. split; [lia |]. split.
    + replace (wrap + 1 + (i + 11 - wrap))%nat with (i + 1 * 12)%nat by lia.
      rewrite Nat.Div0.mod_add. symmetry. apply Nat.mod_small. exact Hi.
    + lia.
Qed.

Lemma chain_first : chain 0 = nth ((wrap + 1) mod 12) cusps 0.
Proof. unfold chain. rewrite Nat.add_0_r. reflexivity. Qed.

Lemma chain_last : chain 11 = nth wrap cusps 0.
Proof.
  unfold chain. replace (wrap + 1 + 11)%nat with (wrap + 1 * 12)%nat by lia.
  rewrite Nat.Div0.mod_add, Nat.mod_small by exact wrap_house. reflexivity.
Qed.

(** The test of the house through 0 degrees, and of the others. *)
Lemma house_test_wrap :
  house_test planet_longitude cusps wrap = true <->
  chain 11 <= planet_longitude \/ planet_longitude < chain 0.
Proof.
  rewrite chain_first, chain_last. unfold house_test, between.
  rewrite ltb_true by exact through_zero.
  unfold leb, ltb.
  destruct (Rle_dec _ _), (Rlt_dec _ _); cbn [Datatypes.orb];
    split; intros H; try reflexivity; try discriminate; try tauto;
    exfalso; destruct H; lra.
Qed.

Lemma house_test_chain (j : nat) :
  (j < 11)%nat ->
  house_test planet_longitude cusps ((wrap + 1 + j) mod 12) = true <->
  chain j <= planet_longitude < chain (j + 1).
Proof.
  intros Hj. pose proof (chain_step j Hj) as Hstep. unfold chain in *.
  replace ((wrap + 1 + (j + 1)) mod 12)%nat
    with (((wrap + 1 + j) mod 12 + 1) mod 12)%nat in *
    by (rewrite Nat.Div0.add_mod_idemp_l; f_equal; lia).
  unfold house_test, between.
  rewrite ltb_false by lra.
  unfold leb, ltb.
  destruct (Rle_dec _ _), (Rlt_dec _ _); cbn [andb];
    split; intros H; try reflexivity; try discriminate; try lra;
    exfalso; lra.
Qed.

(** A longitude inside the chain is in one of its intervals. *)
Lemma chain_interval (n : nat) :
  (n <= 11)%nat ->
  chain 0 <= planet_longitude < chain n ->
  exists j, (j < n)%nat /\ chain j <= planet_longitude < chain (j + 1).
Proof.
  intros Hn. induction n as [| n IH]; intros Hin; [lra |].
  destruct (Rlt_dec planet_longitude (chain n)) as [Hlow | Hhigh].
  - destruct IH as (j & Hj & Hint); [lia | lra |].
    exists j. split; [lia | exact Hint].
  - exists n. split; [lia |].
    replace (n + 1)%nat with (S n) by lia. lra.
Qed.

Lemma some_house_accepts :
  exists i, (i < 12)%nat /\ house_test planet_longitude cusps i = true.
Proof.
  destruct (Rle_dec (chain 11) planet_longitude) as [Hpast | Hnot].
  { exists wrap. split; [exact wrap_house |].
    apply house_test_wrap. left. exact Hpast. }
  destruct (Rlt_dec planet_longitude (chain 0)) as [Hbefore | Hin].
  { exists wrap. split; [exact wrap_house |].
    apply house_test_wrap. right. exact Hbefore. }
  destruct (chain_interval 11) as (j & Hj & Hint); [lia | lra |].
  exists ((wrap + 1 + j) mod 12)%nat.
  split; [apply Nat.mod_upper_bound; discriminate |].
  apply house_test_chain; [exact Hj | exact Hint].
Qed.

Lemma one_house_accepts (i i' : nat) :
  (i < 12)%nat -> (i' < 12)%nat ->
  house_test planet_longitude cusps i = true ->
  house_test planet_longitude cusps i' = true ->
  i = i'.
Proof.
  intros Hi Hi' Ht Ht'.
  destruct (chain_place i Hi) as (j & Hj & -> & Hwrap).
  destruct (chain_place i' Hi') as (j' & Hj' & -> & Hwrap').
  destruct (Nat.eq_dec j j') as [-> | Hne]; [reflexivity |].
  exfalso.
  destruct (Nat.eq_dec j 11) as [E | NE]; destruct (Nat.eq_dec j' 11) as [E' | NE'].
  - lia.
  - rewrite (proj1 Hwrap E) in Ht. apply house_test_wrap in Ht.
    apply house_test_chain in Ht'; [| lia].
    pose proof (chain_rises 0 j' ltac:(lia) ltac:(lia)).
    pose proof (chain_rises (j' + 1) 11 ltac:(lia) ltac:(lia)).
    lra.
  - rewrite (proj1 Hwrap' E') in Ht'. apply house_test_wrap in Ht'.
    apply house_test_chain in Ht; [| lia].
    pose proof (chain_rises 0 j ltac:(lia) ltac:(lia)).
    pose proof (chain_rises (j + 1) 11 ltac:(lia) ltac:(lia)).
    lra.
  - apply house_test_chain in Ht; [| lia].
    apply house_test_chain in Ht'; [| lia].
    destruct (Nat.lt_ge_cases j j') as [Hlt | Hge].
    + pose proof (chain_rises (j + 1) j' ltac:(lia) ltac:(lia)). lra.
    + pose proof (chain_rises (j' + 1) j ltac:(lia) ltac:(lia)). lra.
Qed.

End CuspsInOrder.

(** X16. When the twelve cusps follow one another round the circle (each
    smaller than the next, except at the one house whose interval goes
    through 0 degrees), the houses divide the circle: for every
    longitude exactly one of the twelve interval tests succeeds, and
    [get_planet_house] answers with that house, so the fallback to
    house 1 is never what decides. *)
Theorem get_planet_house_partition (planet_longitude : R) (cusps : list R)
    (Horder : cusps_in_order cusps) :
  exists house,
    get_planet_house planet_longitude cusps = Returns house
    /\ (1 <= house <= 12)%Z
    /\ house_test planet_longitude cusps (Z.to_nat (house - 1)) = true
    /\ forall i, (i < 12)%nat ->
                 house_test planet_longitude cusps i = true ->
                 (Z.of_nat i + 1)%Z = house.
Proof.
  destruct Horder as (Hlen & wrap & Hwrap & Hzero & Hrising).
  exists (first_passing planet_longitude cusps).
  split; [apply get_planet_house_twelve; lia |].
  unfold first_passing.
  destruct (find (house_test planet_longitude cusps) (seq 0 12))
    as [i |] eqn:Hfind.
  - destruct (find_seq_some _ _ _ _ Hfind) as (Hrange & Hi & _).
    split; [lia |].
    replace (Z.to_nat (Z.of_nat i + 1 - 1)) with i by lia.
    split; [exact Hi |].
    intros i' Hi' Ht'.
    rewrite (one_house_accepts planet_longitude cusps wrap Hwrap Hzero
               Hrising i' i Hi' ltac:(lia) Ht' Hi).
    reflexivity.
  - exfalso.
    destruct (some_house_accepts planet_longitude cusps wrap Hwrap Hzero
                Hrising) as (i & Hi & Ht).
    rewrite (find_seq_none _ _ _ Hfind i) in Ht by lia. discriminate.
Qed.

Lemma get_planet_house_partition_witness :
  cusps_in_order [0; 30; 60; 90; 120; 150; 180; 210; 240; 270; 300; 330]
  /\ exists house,
       get_planet_house 45
         [0; 30; 60; 90; 120; 150; 180; 210; 240; 270; 300; 330]
       = Returns house
       /\ (1 <= house <= 12)%Z.
Proof.
  assert (Horder : cusps_in_order
                     [0; 30; 60; 90; 120; 150; 180; 210; 240; 270; 300; 330]).
  { split; [reflexivity |]. exists 11%nat. split; [lia |].
    split; [simpl; lra |].
    intros i Hi Hne.
    do 11 (destruct i as [| i]; [simpl; lra |]). lia. }
  split; [exact Horder |].
  destruct (get_planet_house_partition 45 _ Horder)
    as (house & Hhouse & Hrange & _).
  exists house. split; [exact Hhouse | exact Hrange].
Defined.



(* ------------------------------------------------------------------ *)
(** ** What the list of aspects holds                                  *)
(* ------------------------------------------------------------------ *)

Section EnumerateBack.

Variable A : Type.

Lemma combine_seq_in (xs : list A) :
  forall start i x,
    nth_error xs i = Some x ->
    In ((start + i)%nat, x) (combine (seq start (List.length xs)) xs).
Proof.
  induction xs as [| y rest IH]; intros start [| i] x Hnth; simpl in *;
    try discriminate.
  - injection Hnth as ->. left. rewrite Nat.add_0_r. reflexivity.
  - right. replace (start + S i)%nat with (S start + i)%nat by lia.
    apply IH, Hnth.
Qed.

Lemma enumerate_in (xs : list A) (i : nat) (x : A) :
  nth_error xs i = Some x -> In (i, x) (enumerate xs).
Proof. intros Hnth. apply (combine_seq_in xs 0 i x Hnth). Qed.

End EnumerateBack.

(** In a dictionary the entry found at a position is the one its key
    looks up. *)
Lemma get_nth_error {V : Type} (d : dict V) :
  forall i key v,
    NoDup (keys d) -> nth_error d i = Some (key, v) -> get d key = Some v.
Proof.
  induction d as [| [k0 v0] rest IH]; intros i key v Hnodup Hnth.
  - destruct i; discriminate.
  - simpl in Hnodup. inversion Hnodup as [| ? ? Hfresh Hrest]; subst.
    destruct i as [| i]; simpl in *.
    + injection Hnth as -> ->. rewrite String.eqb_refl. reflexivity.
    + destruct (String.eqb_spec key k0) as [-> | Hne].
      * exfalso. apply Hfresh.
        apply nth_error_In in Hnth.
        apply (in_map fst) in Hnth. exact Hnth.
      * apply (IH i); assumption.
Qed.

Lemma keys_distinct {V : Type} (d : dict V) (i j : nat) (k1 k2 : string)
    (v1 v2 : V) :
  NoDup (keys d) -> (i < j)%nat ->
  nth_error d i = Some (k1, v1) -> nth_error d j = Some (k2, v2) ->
  k1 <> k2.
Proof.
  intros Hnodup Hij Hi Hj Heq. subst k2.
  assert (Hki : nth_error (keys d) i = Some k1)
    by (unfold keys; rewrite (map_nth_error fst i d Hi); reflexivity).
  assert (Hkj : nth_error (keys d) j = Some k1)
    by (unfold keys; rewrite (map_nth_error fst j d Hj); reflexivity).
  assert (i = j).
  { apply (proj1 (NoDup_nth_error (keys d)) Hnodup).
    - apply nth_error_Some. rewrite Hki. discriminate.
    - rewrite Hki, Hkj. reflexivity. }
  lia.
Qed.

Section AspectsExact.

Variable aspects : list AspectDef.
Variable orb_factor : R.
Variable positions : dict BodyPosition.
Variable max_orb : R.

(** One trip of the innermost loop appends the aspect of the row, and
    only when the distance is within both orbs. *)
Lemma in_aspect_for_exact (planet1 planet2 : string)
    (data1 data2 : BodyPosition) (distance : R) (row : AspectDef)
    (a : Aspect) :
  In a (aspect_for orb_factor max_orb planet1 data1 planet2 data2
          distance row)
  <-> Rabs (distance - Constants.angle row)
      <= Rmin (Constants.orb row * orb_factor) max_orb
      /\ a = mkAspect planet1 planet2 (Constants.name row)
               (Constants.angle row) distance
               (Rabs (distance - Constants.angle row))
               (Constants.type row) (Constants.score row)
               (_is_applying data1 data2) (_is_separating data1 data2).
Proof.
  unfold aspect_for, leb.
  destruct (Rle_dec _ _) as [Hle | Hgt]; simpl.
  - split.
    + intros [<- | []]. split; [exact Hle | reflexivity].
    + intros [_ ->]. left. reflexivity.
  - split; [intros [] | intros [Hle _]; contradiction].
Qed.

(** The list before the sort, aspect by aspect: a pair of entries in
    index order, a row of the table, a distance within both orbs. *)
Lemma in_aspects_found_exact (a : Aspect) :
  In a (aspects_found_with aspects orb_factor positions max_orb)
  <-> exists i j planet1 data1 planet2 data2 row,
        nth_error positions i = Some (planet1, data1)
        /\ nth_error positions j = Some (planet2, data2)
        /\ (i < j)%nat
        /\ In row aspects
        /\ Rabs (calculate_distance (longitude data1) (longitude data2)
                 - Constants.angle row)
           <= Rmin (Constants.orb row * orb_factor) max_orb
        /\ a = mkAspect planet1 planet2 (Constants.name row)
                 (Constants.angle row)
                 (calculate_distance (longitude data1) (longitude data2))
                 (Rabs (calculate_distance (longitude data1) (longitude data2)
                        - Constants.angle row))
                 (Constants.type row) (Constants.score row)
                 (_is_applying data1 data2) (_is_separating data1 data2).
Proof.
  unfold aspects_found_with. split.
  - intros Hin.
    apply in_flat_map in Hin. destruct Hin as ([i [p1 d1]] & Hi & Hin).
    apply in_flat_map in Hin. destruct Hin as ([j [p2 d2]] & Hj & Hin).
    destruct (Nat.leb_spec j i) as [Hle | Hlt]; [contradiction |].
    apply in_flat_map in Hin. destruct Hin as (row & Hrow & Hin).
    apply in_aspect_for_exact in Hin. destruct Hin as [Horb Ha].
    apply in_enumerate in Hi, Hj.
    exists i, j, p1, d1, p2, d2, row. repeat split; assumption.
  - intros (i & j & p1 & d1 & p2 & d2 & row & Hi & Hj & Hij & Hrow & Horb & Ha).
    apply in_flat_map. exists (i, (p1, d1)).
    split; [apply enumerate_in, Hi |].
    apply in_flat_map. exists (j, (p2, d2)).
    split; [apply enumerate_in, Hj |].
    destruct (Nat.leb_spec j i) as [Hle | Hlt]; [lia |].
    apply in_flat_map. exists row. split; [exact Hrow |].
    apply in_aspect_for_exact. split; assumption.
Qed.

(** The sort moves aspects and neither adds nor drops one. *)
Lemma in_calculate_aspects_with (a : Aspect) :
  In a (calculate_aspects_with aspects orb_factor positions max_orb)
  <-> In a (aspects_found_with aspects orb_factor positions max_orb).
Proof.
  unfold calculate_aspects_with. split; intros Hin.
  - eapply Permutation_in; [apply sort_by_key_perm | exact Hin].
  - eapply Permutation_in;
      [apply Permutation_sym, sort_by_key_perm | exact Hin].
Qed.

End AspectsExact.

(** Two entries in index order whose distance a row of [ASPECTS]
    accepts give an aspect of the returned list. *)
Lemma aspect_of_pair (positions : dict BodyPosition) (max_orb : R)
    (i j : nat) (planet1 planet2 : string) (data1 data2 : BodyPosition)
    (row : AspectDef) :
  nth_error positions i = Some (planet1, data1) ->
  nth_error positions j = Some (planet2, data2) ->
  (i < j)%nat -> In row ASPECTS ->
  Rabs (calculate_distance (longitude data1) (longitude data2)
        - Constants.angle row) <= Rmin (Constants.orb row) max_orb ->
  In (mkAspect planet1 planet2 (Constants.name row) (Constants.angle row)
        (calculate_distance (longitude data1) (longitude data2))
        (Rabs (calculate_distance (longitude data1) (longitude data2)
               - Constants.angle row))
        (Constants.type row) (Constants.score row)
        (_is_applying data1 data2) (_is_separating data1 data2))
     (calculate_aspects positions max_orb).
Proof.
  intros Hi Hj Hij Hrow Horb.
  unfold calculate_aspects.
  apply in_calculate_aspects_with, in_aspects_found_exact.
  exists i, j, planet1, data1, planet2, data2, row.
  repeat split; try assumption.
  replace (Constants.orb row * 1.0) with (Constants.orb row) by lra.
  exact Horb.
Qed.

(** The rows of [ASPECTS] have orbs of 8 degrees at most. *)
Lemma ASPECTS_orbs (row : AspectDef) :
  In row ASPECTS -> 0 < Constants.orb row <= 8.
Proof.
  unfold ASPECTS. simpl.
  intros H; repeat destruct H as [<- | H]; try contradiction; simpl; lra.
Qed.

(** X18. Every aspect [calculate_aspects] returns, for a dictionary of
    positions: its two names are distinct keys of the dictionary; its
    kind, angle, type and score are those of one row of [ASPECTS]; its
    [actual_angle] is the distance between the two longitudes and its
    [orb] the gap between that distance and the angle of the row, which
    exceeds neither [max_orb] nor the orb of the row; [applying]
    compares the absolute speeds and [separating] is its negation. *)
Theorem calculate_aspects_sound (positions : dict BodyPosition)
    (max_orb : R) (a : Aspect)
    (Hkeys : NoDup (keys positions))
    (Hin : In a (calculate_aspects positions max_orb)) :
  exists data1 data2 row,
    get positions (Aspects.planet1 a) = Some data1
    /\ get positions (Aspects.planet2 a) = Some data2
    /\ Aspects.planet1 a <> Aspects.planet2 a
    /\ In row ASPECTS
    /\ Aspects.aspect a = Constants.name row
    /\ Aspects.angle a = Constants.angle row
    /\ Aspects.type a = Constants.type row
    /\ Aspects.score a = Constants.score row
    /\ actual_angle a = calculate_distance (longitude data1) (longitude data2)
    /\ Aspects.orb a = Rabs (actual_angle a - Aspects.angle a)
    /\ 0 <= Aspects.orb a <= max_orb
    /\ Aspects.orb a <= Constants.orb row
    /\ applying a = Math.ltb (Rabs (speed data2)) (Rabs (speed data1))
    /\ separating a = negb (applying a).
Proof.
  unfold calculate_aspects in Hin.
  apply in_calculate_aspects_with, in_aspects_found_exact in Hin.
  destruct Hin
    as (i & j & p1 & d1 & p2 & d2 & row & Hi & Hj & Hij & Hrow & Horb & ->).
  exists d1, d2, row.
  cbn [Aspects.planet1 Aspects.planet2 Aspects.aspect Aspects.angle
       Aspects.type Aspects.score actual_angle Aspects.orb applying
       separating].
  split; [exact (get_nth_error positions i p1 d1 Hkeys Hi) |].
  split; [exact (get_nth_error positions j p2 d2 Hkeys Hj) |].
  split; [exact (keys_distinct positions i j p1 p2 d1 d2 Hkeys Hij Hi Hj) |].
  split; [exact Hrow |].
  do 6 (split; [reflexivity |]).
  pose proof (Rabs_pos (calculate_distance (longitude d1) (longitude d2)
                        - Constants.angle row)) as Hpos.
  pose proof (Rmin_l (Constants.orb row * 1.0) max_orb) as Hl.
  pose proof (Rmin_r (Constants.orb row * 1.0) max_orb) as Hr.
  split; [lra |]. split; [lra |].
  split; reflexivity.
Qed.

Lemma calculate_aspects_sound_witness :
  exists a,
    NoDup (keys three_bodies)
    /\ In a (calculate_aspects three_bodies 8)
    /\ Aspects.planet1 a <> Aspects.planet2 a
    /\ 0 <= Aspects.orb a <= 8.
Proof.
  assert (Hkeys : NoDup (keys three_bodies)).
  { unfold three_bodies, keys. simpl.
    repeat (apply NoDup_cons; [simpl; intuition discriminate |]).
    apply NoDup_nil. }
  assert (Hin :
    In (mkAspect "Sun" "Moon" "Trigone" 120
          (calculate_distance 10 130)
          (Rabs (calculate_distance 10 130 - 120)) "majeur" 8
          (_is_applying (body_at 10 0.9856474) (body_at 130 13.176358))
          (_is_separating (body_at 10 0.9856474) (body_at 130 13.176358)))
       (calculate_aspects three_bodies 8)).
  { apply (aspect_of_pair three_bodies 8 0 1 "Sun" "Moon"
             (body_at 10 0.9856474) (body_at 130 13.176358)
             (mkAspectDef "Trigone" 120 8 "majeur" 8)).
    - reflexivity.
    - reflexivity.
    - lia.
    - unfold ASPECTS. simpl. tauto.
    - cbn [body_at longitude Constants.angle Constants.orb].
      rewrite (calculate_distance_value 10 130 120) by lra.
      replace (120 - 120) with 0 by lra. rewrite Rabs_R0.
      unfold Rmin. destruct (Rle_dec 8 8); lra. }
  eexists. split; [exact Hkeys |]. split; [exact Hin |].
  destruct (calculate_aspects_sound three_bodies 8 _ Hkeys Hin)
    as (d1 & d2 & row & _ & _ & Hne & _ & _ & _ & _ & _ & _ & _ & Horb & _).
  split; [exact Hne | exact Horb].
Defined.

(** X19. Conversely no aspect is missed: two bodies stored in that order
    whose distance is within [min(orb, max_orb)] of the angle of a row
    of [ASPECTS] appear in the returned list with that row's kind and
    with that gap as orb. *)
Theorem calculate_aspects_complete (positions : dict BodyPosition)
    (max_orb : R) (i j : nat) (planet1 planet2 : string)
    (data1 data2 : BodyPosition) (row : AspectDef)
    (Hi : nth_error positions i = Some (planet1, data1))
    (Hj : nth_error positions j = Some (planet2, data2))
    (Hij : (i < j)%nat) (Hrow : In row ASPECTS)
    (Horb : Rabs (calculate_distance (longitude data1) (longitude data2)
                  - Constants.angle row)
            <= Rmin (Constants.orb row) max_orb) :
  exists a,
    In a (calculate_aspects positions max_orb)
    /\ Aspects.planet1 a = planet1 /\ Aspects.planet2 a = planet2
    /\ Aspects.aspect a = Constants.name row
    /\ Aspects.orb a =
       Rabs (calculate_distance (longitude data1) (longitude data2)
             - Constants.angle row).
Proof.
  eexists. split.
  - exact (aspect_of_pair positions max_orb i j planet1 planet2
             data1 data2 row Hi Hj Hij Hrow Horb).
  - repeat split.
Qed.

Lemma calculate_aspects_complete_witness :
  exists a,
    In a (calculate_aspects three_bodies 8)
    /\ Aspects.planet1 a = "Sun" /\ Aspects.planet2 a = "Mars"
    /\ Aspects.aspect a = "Carré".
Proof.
  assert (Horb :
    Rabs (calculate_distance (longitude (body_at 10 0.9856474))
                             (longitude (body_at 101 0.524))
          - Constants.angle (mkAspectDef "Carré" 90 8 "majeur" (-6)))
    <= Rmin (Constants.orb (mkAspectDef "Carré" 90 8 "majeur" (-6))) 8).
  { cbn [body_at longitude Constants.angle Constants.orb].
    rewrite (calculate_distance_value 10 101 91) by lra.
    replace (91 - 90) with 1 by lra. rewrite Rabs_R1.
    unfold Rmin. destruct (Rle_dec 8 8); lra. }
  destruct (calculate_aspects_complete three_bodies 8 0 2 "Sun" "Mars"
              (body_at 10 0.9856474) (body_at 101 0.524)
              (mkAspectDef "Carré" 90 8 "majeur" (-6))
              eq_refl eq_refl (Nat.lt_0_succ 1)
              (or_intror (or_intror (or_intror (or_introl eq_refl))))
              Horb)
    as (a & Hin & H1 & H2 & Hkind & _).
  exists a. repeat split; assumption.
Defined.

(** A negative [max_orb], or fewer than two bodies, leaves nothing to
    report. *)
Lemma calculate_aspects_nothing (positions : dict BodyPosition)
    (max_orb : R)
    (Hnone : max_orb < 0 \/ (List.length positions <= 1)%nat) :
  calculate_aspects positions max_orb = [].
Proof.
  destruct (calculate_aspects positions max_orb) as [| a rest] eqn:Hfound;
    [reflexivity | exfalso].
  assert (Hin : In a (calculate_aspects positions max_orb))
    by (rewrite Hfound; left; reflexivity).
  unfold calculate_aspects in Hin.
  apply in_calculate_aspects_with, in_aspects_found_exact in Hin.
  destruct Hin
    as (i & j & p1 & d1 & p2 & d2 & row & Hi & Hj & Hij & Hrow & Horb & _).
  destruct Hnone as [Hneg | Hfew].
  - pose proof (Rabs_pos (calculate_distance (longitude d1) (longitude d2)
                          - Constants.angle row)) as Hpos.
    pose proof (Rmin_r (Constants.orb row * 1.0) max_orb) as Hr.
    lra.
  - assert (j < List.length positions)%nat
      by (apply nth_error_Some; rewrite Hj; discriminate).
    lia.
Qed.

Lemma calculate_aspects_nothing_witness :
  -1 < 0 /\ calculate_aspects three_bodies (-1) = [].
Proof.
  assert (H : -1 < 0) by lra.
  split; [exact H |].
  exact (calculate_aspects_nothing three_bodies (-1) (or_introl H)).
Defined.

(** *** The two lunar nodes

    Every set of positions holds the two nodes half a circle apart, so
    the list of aspects of a chart is never empty. *)

Lemma set_new {V : Type} (d : dict V) (key : string) (v : V) :
  ~ In key (keys d) -> set d key v = d ++ [(key, v)].
Proof.
  induction d as [| [k v0] rest IH]; simpl; intros Hnew; [reflexivity |].
  destruct (String.eqb_spec key k) as [-> | Hne].
  - exfalso. apply Hnew. left. reflexivity.
  - f_equal. apply IH. intros Hin. apply Hnew. right. exact Hin.
Qed.

(** When the loop over the names ends without an error it has appended
    the names, in order, to the keys already there. *)
Lemma for_each_store_position_keys (jd : R) (names : list string) :
  forall positions positions' : dict BodyPosition,
    NoDup (keys positions ++ names) ->
    for_each names (store_position jd) positions = Ok positions' ->
    keys positions' = keys positions ++ names.
Proof.
  induction names as [| planet_name rest IH];
    intros positions positions' Hnodup Hrun; simpl in Hrun.
  - injection Hrun as <-. rewrite app_nil_r. reflexivity.
  - unfold store_position at 1 in Hrun.
    destruct (calculate_planet_position planet_name jd) as [position |];
      [| discriminate].
    cbn [bind] in Hrun.
    assert (Hnew : ~ In planet_name (keys positions)).
    { intros Hin. apply NoDup_remove_2 in Hnodup. apply Hnodup.
      apply in_or_app. left. exact Hin. }
    assert (Hnext : NoDup (keys (set positions planet_name position) ++ rest)).
    { rewrite (keys_set_new positions planet_name position Hnew),
        <- app_assoc.
      exact Hnodup. }
    rewrite (IH _ _ Hnext Hrun).
    rewrite (keys_set_new positions planet_name position Hnew), <- app_assoc.
    reflexivity.
Qed.

(** The set of positions, entry by entry: the ten classical bodies in
    the order of [planet_names], then the two nodes and Chiron. *)
Lemma calculate_all_planets_layout (jd : R) (positions : dict BodyPosition) :
  calculate_all_planets jd = Ok positions ->
  exists classical,
    keys classical = planet_names
    /\ positions =
       classical ++
       [("Node", _calculate_lunar_node jd);
        ("South_Node", _calculate_south_node (_calculate_lunar_node jd));
        ("Chiron", _calculate_chiron jd)].
Proof.
  intros Hreturned.
  destruct (calculate_all_planets_steps jd positions Hreturned)
    as (classical & Hrun & ->).
  assert (Hkeys : keys classical = planet_names).
  { apply (for_each_store_position_keys jd planet_names [] classical);
      [| exact Hrun].
    simpl. unfold planet_names.
    repeat (apply NoDup_cons; [simpl; intuition discriminate |]).
    apply NoDup_nil. }
  exists classical. split; [exact Hkeys |].
  rewrite (set_new classical "Node").
  2:{ rewrite Hkeys. unfold planet_names. simpl. intuition discriminate. }
  rewrite (set_new (classical ++ _) "South_Node").
  2:{ unfold keys. rewrite map_app. fold (keys classical). rewrite Hkeys.
      unfold planet_names. simpl. intuition discriminate. }
  rewrite (set_new ((classical ++ _) ++ _) "Chiron").
  2:{ unfold keys. rewrite !map_app. fold (keys classical). rewrite Hkeys.
      unfold planet_names. simpl. intuition discriminate. }
  rewrite <- !app_assoc. reflexivity.
Qed.



(** The two nodes are half a circle apart. *)
Lemma nodes_half_turn (jd : R) :
  calculate_distance
    (longitude (_calculate_lunar_node jd))
    (longitude (_calculate_south_node (_calculate_lunar_node jd))) = 180.
Proof.
  unfold _calculate_south_node, _calculate_lunar_node. cbn [longitude].
  apply opposite_distance, normalize_angle_range.
Qed.

(** The aspect the loops build for the two nodes and the row of the
    opposition is in the list. *)
Lemma nodes_aspect_listed (jd max_orb : R) (positions : dict BodyPosition) :
  calculate_all_planets jd = Ok positions -> 0 <= max_orb ->
  let north := _calculate_lunar_node jd in
  let south := _calculate_south_node north in
  In (mkAspect "Node" "South_Node" "Opposition" 180
        (calculate_distance (longitude north) (longitude south))
        (Rabs (calculate_distance (longitude north) (longitude south) - 180))
        "majeur" (-5)
        (_is_applying north south) (_is_separating north south))
     (calculate_aspects positions max_orb).
Proof.
  intros Hreturned Hmax north south.
  destruct (calculate_all_planets_layout jd positions Hreturned)
    as (classical & Hkeys & ->).
  assert (Hlen : List.length classical = 10%nat).
  { rewrite <- (length_map fst classical). fold (keys classical).
    rewrite Hkeys. reflexivity. }
  apply (aspect_of_pair _ max_orb 10 11 "Node" "South_Node" north south
           (mkAspectDef "Opposition" 180 8 "majeur" (-5))).
  - rewrite nth_error_app2 by lia. rewrite Hlen. reflexivity.
  - rewrite nth_error_app2 by lia. rewrite Hlen. reflexivity.
  - lia.
  - unfold ASPECTS. simpl. tauto.
  - unfold south, north. rewrite nodes_half_turn.
    cbn [Constants.angle Constants.orb].
    replace (180 - 180) with 0 by lra. rewrite Rabs_R0.
    unfold Rmin. destruct (Rle_dec 8 max_orb); lra.
Qed.



(* ------------------------------------------------------------------ *)
(** ** Aspect patterns                                                 *)
(* ------------------------------------------------------------------ *)

Import AspectPatterns.

Section FirstReturn.

Variables A B : Type.
Variable body : A -> option B.

Lemma first_return_some (xs : list A) (r : B) :
  first_return body xs = Some r -> exists x, In x xs /\ body x = Some r.
Proof.
  induction xs as [| x rest IH]; simpl; [discriminate |].
  destruct (body x) as [r' |] eqn:Hx.
  - intros H. injection H as <-. exists x. split; [left; reflexivity | exact Hx].
  - intros H. destruct (IH H) as (y & Hy & Hbody).
    exists y. split; [right; exact Hy | exact Hbody].
Qed.

Lemma first_return_none (xs : list A) :
  first_return body xs = None -> forall x, In x xs -> body x = None.
Proof.
  induction xs as [| x rest IH]; simpl; intros Hnone y Hy; [contradiction |].
  destruct (body x) as [r' |] eqn:Hx; [discriminate |].
  destruct Hy as [<- | Hy]; [exact Hx | apply IH; assumption].
Qed.

End FirstReturn.

Lemma in_of_kind (kind : string) (aspects : list Aspect) (a : Aspect) :
  In a (of_kind kind aspects) <-> has_kind aspects kind a.
Proof.
  unfold of_kind, has_kind. rewrite filter_In, String.eqb_eq. tauto.
Qed.

Lemma str_in_spec (name : string) (names : list string) :
  str_in name names = true <-> In name names.
Proof.
  unfold str_in. rewrite existsb_exists. split.
  - intros (x & Hx & He). apply String.eqb_eq in He. subst x. exact Hx.
  - intros Hin. exists name. split; [exact Hin | apply String.eqb_refl].
Qed.

(** *** The T-square *)

Ltac pick_touch :=
  first [ solve [left; repeat split; congruence]
        | solve [right; left; repeat split; congruence]
        | solve [right; right; left; repeat split; congruence]
        | solve [right; right; right; repeat split; congruence] ].

Lemma square_planets_of_cases (p1 p2 : string) (square : Aspect) :
  (square_planets_of p1 p2 square = []
   /\ forall third, ~ touches p1 p2 square third)
  \/ (exists third,
        square_planets_of p1 p2 square = [third]
        /\ touches p1 p2 square third).
Proof.
  unfold square_planets_of, touches.
  destruct (String.eqb_spec (Aspects.planet1 square) p1) as [E11 | N11],
           (String.eqb_spec (Aspects.planet2 square) p2) as [E22 | N22],
           (String.eqb_spec (Aspects.planet2 square) p1) as [E21 | N21],
           (String.eqb_spec (Aspects.planet1 square) p2) as [E12 | N12];
    cbn [andb negb];
    first
      [ left; split;
        [reflexivity
        | intros third [H | [H | [H | H]]];
          destruct H as (Ha & Hb & Hc); congruence]
      | right; eexists; split; [reflexivity | pick_touch] ].
Qed.

Lemma _find_t_square_cases (aspects : list Aspect) :
  (_find_t_square aspects = []
   /\ forall opposition square third,
        has_kind aspects "Opposition" opposition ->
        has_kind aspects "Carré" square ->
        ~ touches (Aspects.planet1 opposition) (Aspects.planet2 opposition)
            square third)
  \/ (exists opposition square third,
        has_kind aspects "Opposition" opposition
        /\ has_kind aspects "Carré" square
        /\ touches (Aspects.planet1 opposition) (Aspects.planet2 opposition)
             square third
        /\ _find_t_square aspects =
           [Aspects.planet1 opposition; Aspects.planet2 opposition; third]).
Proof.
  unfold _find_t_square.
  destruct (first_return _ (of_kind "Opposition" aspects))
    as [found |] eqn:Hfirst.
  - right. apply first_return_some in Hfirst.
    destruct Hfirst as (o & Ho & Hbody). cbv beta zeta in Hbody.
    destruct (flat_map (square_planets_of (Aspects.planet1 o)
                          (Aspects.planet2 o))
                (of_kind "Carré" aspects))
      as [| first rest] eqn:Hsquares; [discriminate |].
    injection Hbody as <-.
    assert (Hin : In first (first :: rest)) by (left; reflexivity).
    rewrite <- Hsquares in Hin. apply in_flat_map in Hin.
    destruct Hin as (s & Hs & Hin).
    destruct (square_planets_of_cases (Aspects.planet1 o) (Aspects.planet2 o) s)
      as [[Hnone _] | (third & Hone & Htouch)].
    + rewrite Hnone in Hin. contradiction.
    + rewrite Hone in Hin. destruct Hin as [<- | []].
      exists o, s, third.
      split; [apply in_of_kind, Ho |].
      split; [apply in_of_kind, Hs |].
      split; [exact Htouch | reflexivity].
  - left. split; [reflexivity |].
    intros o s third Ho Hs Htouch.
    pose proof (first_return_none _ _ _ _ Hfirst o
                  (proj2 (in_of_kind _ _ _) Ho)) as Hbody.
    cbv beta zeta in Hbody.
    destruct (flat_map (square_planets_of (Aspects.planet1 o)
                          (Aspects.planet2 o))
                (of_kind "Carré" aspects))
      as [| first rest] eqn:Hsquares; [| discriminate].
    destruct (square_planets_of_cases (Aspects.planet1 o) (Aspects.planet2 o) s)
      as [[_ Hno] | (third' & Hone & _)].
    + exact (Hno third Htouch).
    + assert (Hin : In third'
                (flat_map (square_planets_of (Aspects.planet1 o)
                             (Aspects.planet2 o))
                   (of_kind "Carré" aspects))).
      { apply in_flat_map. exists s.
        split; [apply in_of_kind, Hs | rewrite Hone; left; reflexivity]. }
      rewrite Hsquares in Hin. destruct Hin.
Qed.

(** X21. [_find_t_square] reports a T-square exactly when the list holds an
    opposition and ONE square that touches an end of it without lying
    on it; the second square of a T is never looked for.  What it
    returns is then the two ends of such an opposition followed by the
    far end of such a square, and the empty list otherwise. *)
Theorem find_t_square_one_square (aspects : list Aspect) :
  (_find_t_square aspects <> []
   <-> exists opposition square third,
         has_kind aspects "Opposition" opposition
         /\ has_kind aspects "Carré" square
         /\ touches (Aspects.planet1 opposition) (Aspects.planet2 opposition)
              square third)
  /\ (_find_t_square aspects = []
      \/ exists opposition square third,
           has_kind aspects "Opposition" opposition
           /\ has_kind aspects "Carré" square
           /\ touches (Aspects.planet1 opposition)
                (Aspects.planet2 opposition) square third
           /\ _find_t_square aspects =
              [Aspects.planet1 opposition; Aspects.planet2 opposition; third]).
Proof.
  destruct (_find_t_square_cases aspects)
    as [[Hnone Hno] | (o & s & third & Ho & Hs & Htouch & Hfound)].
  - split; [| left; exact Hnone].
    split.
    + intros Hsome. contradiction.
    + intros (o & s & third & Ho & Hs & Htouch).
      exfalso. exact (Hno o s third Ho Hs Htouch).
  - split.
    + split.
      * intros _. exists o, s, third.
        split; [exact Ho | split; [exact Hs | exact Htouch]].
      * intros _. rewrite Hfound. discriminate.
    + right. exists o, s, third.
      split; [exact Ho |]. split; [exact Hs |].
      split; [exact Htouch | exact Hfound].
Qed.

(** *** The grand trine *)

Lemma get_set {V : Type} (d : dict V) (key : string) (v : V) (other : string) :
  get (set d key v) other = if String.eqb other key then Some v else get d other.
Proof.
  destruct (String.eqb_spec other key) as [-> | Hne];
    [apply get_set_same | apply get_set_other, Hne].
Qed.

Lemma keys_set_old {V : Type} (d : dict V) (key : string) (v : V) :
  In key (keys d) -> keys (set d key v) = keys d.
Proof.
  induction d as [| [k v0] rest IH]; simpl; intros Hin; [contradiction |].
  destruct (String.eqb_spec key k) as [-> | Hne]; [reflexivity |].
  simpl. f_equal. apply IH. destruct Hin as [Heq | Hin]; [congruence | exact Hin].
Qed.

Lemma NoDup_keys_set {V : Type} (d : dict V) (key : string) (v : V) :
  NoDup (keys d) -> NoDup (keys (set d key v)).
Proof.
  intros Hnodup.
  destruct (in_dec string_dec key (keys d)) as [Hin | Hnew].
  - rewrite keys_set_old by exact Hin. exact Hnodup.
  - rewrite keys_set_new by exact Hnew.
    apply NoDup_app; [exact Hnodup | apply NoDup_cons; [intros [] | apply NoDup_nil] |].
    intros k Hk [<- | []]. contradiction.
Qed.

Lemma get_in_dict {V : Type} (d : dict V) (key : string) (v : V) :
  get d key = Some v -> In (key, v) d.
Proof.
  induction d as [| [k v0] rest IH]; simpl; [discriminate |].
  destruct (String.eqb_spec key k) as [-> | Hne].
  - intros H. injection H as ->. left. reflexivity.
  - intros H. right. apply IH, H.
Qed.

Lemma in_dict_get {V : Type} (d : dict V) (key : string) (v : V) :
  NoDup (keys d) -> In (key, v) d -> get d key = Some v.
Proof.
  intros Hnodup Hin. apply In_nth_error in Hin. destruct Hin as [i Hi].
  exact (get_nth_error d i key v Hnodup Hi).
Qed.

Lemma stored_set (d : dict (list string)) (key : string) (names : list string)
    (other : string) :
  stored (set d key names) other =
  if String.eqb other key then names else stored d other.
Proof.
  unfold stored. rewrite get_set. destruct (String.eqb other key); reflexivity.
Qed.

Lemma stored_default (d : dict (list string)) (key other : string) :
  stored (if contains d key then d else set d key []) other = stored d other.
Proof.
  unfold contains. destruct (get d key) as [names |] eqn:Hget; [reflexivity |].
  rewrite stored_set.
  destruct (String.eqb_spec other key) as [-> | Hne]; [| reflexivity].
  unfold stored. rewrite Hget. reflexivity.
Qed.

(** A name listed under a key: the key is in the dictionary, with that
    list. *)
Lemma stored_contains (d : dict (list string)) (p q : string) :
  In q (stored d p) -> contains d p = true /\ In (p, stored d p) d.
Proof.
  unfold stored, contains.
  destruct (get d p) as [names |] eqn:Hget; [| contradiction].
  intros _. split; [reflexivity | apply get_in_dict, Hget].
Qed.

(** One trine lists each of its two bodies under the other. *)
Lemma stored_link (d : dict (list string)) (trine : Aspect) (p q : string) :
  In q (stored (link d trine) p)
  <-> In q (stored d p) \/ joins trine p q.
Proof.
  unfold link, joins. cbv zeta.
  set (p1 := Aspects.planet1 trine). set (p2 := Aspects.planet2 trine).
  clearbody p1 p2.
  rewrite !stored_set, !stored_default.
  destruct (String.eqb_spec p p2) as [-> | Np2];
    destruct (String.eqb_spec p2 p1) as [E21 | N21];
    try destruct (String.eqb_spec p p1) as [-> | Np1];
    rewrite ?in_app_iff; simpl; try subst p2;
    intuition (subst; auto; try congruence).
Qed.

Lemma stored_links (trines : list Aspect) :
  forall (d : dict (list string)) (p q : string),
    In q (stored (fold_left link trines d) p)
    <-> In q (stored d p) \/ exists trine, In trine trines /\ joins trine p q.
Proof.
  induction trines as [| t rest IH]; intros d p q; simpl.
  - split; [intros H; left; exact H | intros [H | (t & [] & _)]; exact H].
  - rewrite IH, stored_link. split.
    + intros [[H | H] | (t' & Hin & H)].
      * left. exact H.
      * right. exists t. split; [left; reflexivity | exact H].
      * right. exists t'. split; [right; exact Hin | exact H].
    + intros [H | (t' & [<- | Hin] & H)].
      * left. left. exact H.
      * left. right. exact H.
      * right. exists t'. split; [exact Hin | exact H].
Qed.

Lemma NoDup_keys_links (trines : list Aspect) :
  forall d : dict (list string),
    NoDup (keys d) -> NoDup (keys (fold_left link trines d)).
Proof.
  induction trines as [| t rest IH]; intros d Hnodup; simpl; [exact Hnodup |].
  apply IH. unfold link. cbv zeta.
  repeat apply NoDup_keys_set.
  destruct (contains _ (Aspects.planet2 t)); [| apply NoDup_keys_set];
    (destruct (contains d (Aspects.planet1 t)); [| apply NoDup_keys_set]);
    exact Hnodup.
Qed.

Lemma _find_grand_trine_cases (aspects : list Aspect) :
  (_find_grand_trine aspects = []
   /\ forall a b c,
        ~ (in_trine aspects a b /\ in_trine aspects b c
           /\ in_trine aspects c a))
  \/ (exists a b c,
        _find_grand_trine aspects = [a; b; c]
        /\ in_trine aspects a b /\ in_trine aspects b c
        /\ in_trine aspects c a).
Proof.
  unfold _find_grand_trine. cbv zeta.
  set (d := fold_left link (of_kind "Trigone" aspects) []).
  assert (Hconn : forall p q, In q (stored d p) <-> in_trine aspects p q).
  { intros p q. unfold d. rewrite stored_links. unfold in_trine. split.
    - intros [[] | (t & Hin & Hj)]. exists t.
      split; [apply in_of_kind, Hin | exact Hj].
    - intros (t & Hkind & Hj). right. exists t.
      split; [apply in_of_kind, Hkind | exact Hj]. }
  assert (Hnodup : NoDup (keys d))
    by (apply NoDup_keys_links; constructor).
  destruct (first_return _ d) as [found |] eqn:Hfirst.
  - right. apply first_return_some in Hfirst.
    destruct Hfirst as ([a connections] & Hentry & Hbody).
    apply first_return_some in Hbody. destruct Hbody as (b & Hb & Hbody).
    destruct (contains d b); [| discriminate].
    apply first_return_some in Hbody. destruct Hbody as (c & Hc & Hbody).
    destruct (contains d c && str_in a (stored d c)) eqn:Hclose;
      [| discriminate].
    injection Hbody as <-.
    apply andb_true_iff in Hclose. destruct Hclose as [_ Hclose].
    apply str_in_spec in Hclose.
    assert (Hstored : stored d a = connections)
      by (unfold stored; rewrite (in_dict_get d a connections Hnodup Hentry);
          reflexivity).
    exists a, b, c. split; [reflexivity |].
    split; [apply Hconn; rewrite Hstored; exact Hb |].
    split; apply Hconn; assumption.
  - left. split; [reflexivity |].
    intros a b c (Hab & Hbc & Hca).
    apply Hconn in Hab, Hbc, Hca.
    destruct (stored_contains d a b Hab) as [_ Hentry].
    destruct (stored_contains d b c Hbc) as [Hb _].
    destruct (stored_contains d c a Hca) as [Hc _].
    pose proof (first_return_none _ _ _ _ Hfirst _ Hentry) as Hbody.
    cbv beta iota in Hbody.
    pose proof (first_return_none _ _ _ _ Hbody b Hab) as Hinner.
    cbv beta in Hinner. rewrite Hb in Hinner.
    pose proof (first_return_none _ _ _ _ Hinner c Hbc) as Hlast.
    cbv beta in Hlast. rewrite Hc in Hlast.
    rewrite (proj2 (str_in_spec a (stored d c)) Hca) in Hlast.
    discriminate Hlast.
Qed.

(** X22. [_find_grand_trine] reports a grand trine exactly when the list
    holds three trines that close a triangle: it returns three bodies
    joined two by two by trines of the list, and the empty list when no
    three bodies are so joined. *)
Theorem find_grand_trine_triangle (aspects : list Aspect) :
  (_find_grand_trine aspects <> []
   <-> exists a b c,
         in_trine aspects a b /\ in_trine aspects b c
         /\ in_trine aspects c a)
  /\ (_find_grand_trine aspects = []
      \/ exists a b c,
           _find_grand_trine aspects = [a; b; c]
           /\ in_trine aspects a b /\ in_trine aspects b c
           /\ in_trine aspects c a).
Proof.
  destruct (_find_grand_trine_cases aspects)
    as [[Hnone Hno] | (a & b & c & Hfound & Hab & Hbc & Hca)].
  - split; [| left; exact Hnone].
    split.
    + intros Hsome. contradiction.
    + intros (a & b & c & Htriangle). exfalso. exact (Hno a b c Htriangle).
  - split.
    + split.
      * intros _. exists a, b, c.
        split; [exact Hab | split; [exact Hbc | exact Hca]].
      * intros _. rewrite Hfound. discriminate.
    + right. exists a, b, c.
      split; [exact Hfound |].
      split; [exact Hab | split; [exact Hbc | exact Hca]].
Qed.

(** *** The Yod *)

Lemma each_later_pair_some {B : Type} (body : Aspect -> Aspect -> option B)
    (quincunxes : list Aspect) (r : B) :
  each_later_pair body quincunxes = Some r ->
  exists i j q1 q2,
    (i < j)%nat
    /\ nth_error quincunxes i = Some q1
    /\ nth_error quincunxes j = Some q2
    /\ body q1 q2 = Some r.
Proof.
  induction quincunxes as [| q later IH]; simpl; [discriminate |].
  destruct (first_return (body q) later) as [found |] eqn:Hfirst.
  - intros H. injection H as <-.
    apply first_return_some in Hfirst. destruct Hfirst as (q2 & Hin & Hbody).
    apply In_nth_error in Hin. destruct Hin as [j Hj].
    exists 0%nat, (S j), q, q2.
    split; [lia |]. split; [reflexivity |]. split; [exact Hj | exact Hbody].
  - intros H. destruct (IH H) as (i & j & q1 & q2 & Hij & Hi & Hj & Hbody).
    exists (S i), (S j), q1, q2.
    split; [lia |]. split; [exact Hi |]. split; [exact Hj | exact Hbody].
Qed.

Lemma yod_of_some (sextiles : list Aspect) (q1 q2 : Aspect)
    (found : list string) :
  yod_of sextiles q1 q2 = Some found ->
  exists apex other0 other1 sextile,
    found = [apex; other0; other1]
    /\ apex <> ""
    /\ joins q1 apex other0 /\ joins q2 apex other1
    /\ In sextile sextiles /\ joins sextile other0 other1.
Proof.
  unfold yod_of, shared_and_others, joins.
  destruct (String.eqb_spec (Aspects.planet1 q1) (Aspects.planet1 q2)) as [E1 | N1];
    [| destruct (String.eqb_spec (Aspects.planet1 q1) (Aspects.planet2 q2)) as [E2 | N2];
       [| destruct (String.eqb_spec (Aspects.planet2 q1) (Aspects.planet1 q2)) as [E3 | N3];
          [| destruct (String.eqb_spec (Aspects.planet2 q1) (Aspects.planet2 q2)) as [E4 | N4];
             [| discriminate]]]];
    match goal with
    | |- (if negb (String.eqb ?s "") then _ else _) = _ -> _ =>
        destruct (String.eqb_spec s "") as [Hempty | Hname];
        cbn [negb]; [discriminate |]
    end;
    intros Hfirst; apply first_return_some in Hfirst;
    destruct Hfirst as (sextile & Hin & Hbody);
    match type of Hbody with
    | (if ?c then _ else _) = _ =>
        destruct c eqn:Hmatch; [| discriminate]
    end;
    injection Hbody as <-;
    apply orb_true_iff in Hmatch;
    rewrite !andb_true_iff, !String.eqb_eq in Hmatch;
    do 4 eexists;
    (split; [reflexivity |]);
    (split; [exact Hname |]);
    (split; [tauto |]);
    (split; [first [left; split; [symmetry; eassumption | reflexivity]
                    | right; split; [reflexivity | symmetry; eassumption]
                    | tauto] |]);
    (split; [exact Hin | tauto]).
Qed.

Lemma _find_yod_shape (aspects : list Aspect) :
  _find_yod aspects = []
  \/ exists apex other0 other1, _find_yod aspects = [apex; other0; other1].
Proof.
  unfold _find_yod. cbv zeta.
  destruct (each_later_pair _ _) as [found |] eqn:Hpairs;
    [right | left; reflexivity].
  apply each_later_pair_some in Hpairs.
  destruct Hpairs as (i & j & q1 & q2 & _ & _ & _ & Hbody).
  apply yod_of_some in Hbody.
  destruct Hbody as (apex & other0 & other1 & _ & -> & _).
  exists apex, other0, other1. reflexivity.
Qed.

(** X23. Whatever [_find_yod] reports is a Yod of the list: a body with a
    name that is not empty, joined by two quincunxes, found at two
    different places of the list, to two bodies that a sextile of the
    list joins.  Otherwise it returns the empty list. *)
Theorem find_yod_sound (aspects : list Aspect) :
  _find_yod aspects = []
  \/ exists i j q1 q2 sextile apex other0 other1,
       _find_yod aspects = [apex; other0; other1]
       /\ apex <> ""
       /\ (i < j)%nat
       /\ nth_error (of_kind "Quincunce" aspects) i = Some q1
       /\ nth_error (of_kind "Quincunce" aspects) j = Some q2
       /\ joins q1 apex other0 /\ joins q2 apex other1
       /\ has_kind aspects "Sextile" sextile
       /\ joins sextile other0 other1.
Proof.
  unfold _find_yod. cbv zeta.
  destruct (each_later_pair _ _) as [found |] eqn:Hpairs;
    [right | left; reflexivity].
  apply each_later_pair_some in Hpairs.
  destruct Hpairs as (i & j & q1 & q2 & Hij & Hi & Hj & Hbody).
  apply yod_of_some in Hbody.
  destruct Hbody
    as (apex & other0 & other1 & sextile & -> & Hname & H1 & H2 & Hin & Hs).
  exists i, j, q1, q2, sextile, apex, other0, other1.
  split; [reflexivity |]. split; [exact Hname |]. split; [exact Hij |].
  split; [exact Hi |]. split; [exact Hj |].
  split; [exact H1 |]. split; [exact H2 |].
  split; [apply in_of_kind, Hin | exact Hs].
Qed.

(** *** The list of patterns *)

Ltac pattern_of Hin :=
  simpl in Hin;
  repeat match type of Hin with
    | _ \/ _ => destruct Hin as [<- | Hin]
    end;
  try contradiction.

(** X24. [calculate_aspect_patterns] names three bodies in every pattern it
    reports, and reports each type of pattern once at most.  It reports
    a "Grand Trigone" exactly when three bodies are joined two by two by
    trines of the list, and a "T-Carré" exactly when one square of the
    list touches an end of an opposition of the list. *)
Theorem calculate_aspect_patterns_reports (aspects : list Aspect) :
  let patterns := calculate_aspect_patterns aspects in
  (forall p, In p patterns -> List.length (planets p) = 3%nat)
  /\ NoDup (map pattern_type patterns)
  /\ ((exists p, In p patterns /\ pattern_type p = "Grand Trigone")
      <-> exists a b c,
            in_trine aspects a b /\ in_trine aspects b c
            /\ in_trine aspects c a)
  /\ ((exists p, In p patterns /\ pattern_type p = "T-Carré")
      <-> exists opposition square third,
            has_kind aspects "Opposition" opposition
            /\ has_kind aspects "Carré" square
            /\ touches (Aspects.planet1 opposition)
                 (Aspects.planet2 opposition) square third).
Proof.
  unfold calculate_aspect_patterns. cbv zeta.
  destruct (_find_grand_trine_cases aspects)
    as [[Hg Hnog] | (a & b & c & Hg & Hab & Hbc & Hca)];
    destruct (_find_t_square_cases aspects)
      as [[Ht Hnot] | (o & s & third & Ho & Hs & Htouch & Ht)];
    destruct (_find_yod_shape aspects)
      as [Hy | (apex & o0 & o1 & Hy)];
    rewrite Hg, Ht, Hy; unfold append_if_found; cbn [app];
    (split; [intros p Hin; pattern_of Hin; reflexivity |]);
    (split;
     [cbn [map pattern_type];
      repeat (apply NoDup_cons; [simpl; intuition discriminate |]);
      apply NoDup_nil |]);
    split;
    (split;
     [ intros (p & Hin & Hkind); pattern_of Hin;
       cbn [pattern_type] in Hkind; try discriminate Hkind;
       first [ exists a, b, c;
               split; [exact Hab | split; [exact Hbc | exact Hca]]
             | exists o, s, third;
               split; [exact Ho | split; [exact Hs | exact Htouch]] ]
     | intros Hex;
       first
         [ exfalso; destruct Hex as (a' & b' & c' & Htri);
           exact (Hnog a' b' c' Htri)
         | exfalso; destruct Hex as (o' & s' & third' & Ho' & Hs' & Htouch');
           exact (Hnot o' s' third' Ho' Hs' Htouch')
         | exists (mkPattern "Grand Trigone" [a; b; c]
                     "Harmonie et talents naturels");
           split; [simpl; auto | reflexivity]
         | exists (mkPattern "T-Carré"
                     [Aspects.planet1 o; Aspects.planet2 o; third]
                     "Tension créative et motivation");
           split; [simpl; auto | reflexivity] ] ]).
Qed.

(* ------------------------------------------------------------------ *)
(** ** The compatibility percentage, again                             *)
(* ------------------------------------------------------------------ *)

(** The scores of [ASPECTS] go from -6 (the square) to 10 (the
    conjunction). *)
Lemma ASPECTS_scores (row : AspectDef) :
  In row ASPECTS -> (-6 <= Constants.score row <= 10)%Z.
Proof.
  unfold ASPECTS. simpl.
  intros H; repeat destruct H as [<- | H]; try contradiction; simpl; lia.
Qed.

Lemma synastry_scores (chart1 chart2 : Chart) (a : SynastryAspect) :
  In a (find_synastry_aspects chart1 chart2) ->
  (-6 <= Calculator.score a <= 10)%Z.
Proof.
  unfold find_synastry_aspects. intros Hin.
  apply in_flat_map in Hin. destruct Hin as ([p1 d1] & _ & Hin).
  apply in_flat_map in Hin. destruct Hin as ([p2 d2] & _ & Hin).
  apply in_flat_map in Hin. destruct Hin as (row & Hrow & Hin).
  destruct (Math.leb _ _); [| contradiction].
  destruct Hin as [<- | []]. cbn [Calculator.score].
  apply ASPECTS_scores, Hrow.
Qed.

Lemma fold_scores_bounds (found : list SynastryAspect) :
  Forall (fun a => (-6 <= Calculator.score a <= 10)%Z) found ->
  forall total : Z,
    (total - 6 * Z.of_nat (List.length found)
     <= fold_left (fun total a => (total + Calculator.score a)%Z) found total
     <= total + 10 * Z.of_nat (List.length found))%Z.
Proof.
  induction 1 as [| a rest Ha Hrest IH]; intros total.
  - simpl. lia.
  - cbn [fold_left List.length]. specialize (IH (total + Calculator.score a)%Z).
    lia.
Qed.

(** X25. Whenever [calculate_compatibility] returns, at least one synastry
    aspect was found, and the percentage is [50 + 5 * score / count]:
    the clamp to [0,100] never acts.  Since no aspect scores less than
    -6 the percentage is never below 20, so the interpretation kept for
    percentages under 20 is never returned. *)
Theorem compatibility_percentage_floor (chart1 chart2 : Chart)
    (result : Compatibility)
    (Hreturned : calculate_compatibility chart1 chart2 = Ok result) :
  let count := Z.of_nat (List.length (synastry_aspects result)) in
  (0 < count)%Z
  /\ compatibility_percentage result =
     50 + 5 * IZR (compatibility_score result) / IZR count
  /\ 20 <= compatibility_percentage result <= 100
  /\ Calculator.interpretation result <>
     "Compatibilité très faible - Défis majeurs à surmonter".
Proof.
  destruct (find_synastry_aspects chart1 chart2) as [| a0 rest] eqn:Hfound.
  { rewrite (compatibility_without_aspects chart1 chart2 Hfound) in Hreturned.
    discriminate. }
  assert (Hscores :
    Forall (fun a => (-6 <= Calculator.score a <= 10)%Z)
           (find_synastry_aspects chart1 chart2)).
  { apply Forall_forall. intros a. apply synastry_scores. }
  pose proof (fold_scores_bounds _ Hscores 0%Z) as Hsum.
  fold (sum_scores (find_synastry_aspects chart1 chart2)) in Hsum.
  unfold calculate_compatibility in Hreturned.
  set (found := find_synastry_aspects chart1 chart2) in *.
  set (total := sum_scores found) in *.
  set (count := Z.of_nat (List.length found)) in *.
  assert (Hcount : (0 < count)%Z) by (unfold count; rewrite Hfound; simpl; lia).
  rewrite truediv_ok in Hreturned
    by (apply not_0_IZR; lia).
  unfold bind in Hreturned.
  apply (f_equal (fun outcome =>
                    match outcome with Ok v => v | Raise _ => result end))
    in Hreturned.
  subst result.
  unfold synastry_aspects, compatibility_percentage, compatibility_score,
    Calculator.interpretation.
  fold count. cbv zeta.
  assert (Hc : 0 < IZR count) by (apply IZR_lt; exact Hcount).
  assert (Hlow : -6 * IZR count <= IZR total).
  { rewrite <- mult_IZR. apply IZR_le. lia. }
  assert (Hhigh : IZR total <= 10 * IZR count).
  { rewrite <- mult_IZR. apply IZR_le. lia. }
  set (q := IZR total / IZR count).
  assert (Hq : q * IZR count = IZR total) by (unfold q; field; lra).
  assert (Hq6 : -6 <= q).
  { apply Rmult_le_reg_r with (IZR count); [exact Hc | rewrite Hq; lra]. }
  assert (Hq10 : q <= 10).
  { apply Rmult_le_reg_r with (IZR count); [exact Hc | rewrite Hq; lra]. }
  assert (Hratio :
    IZR (total + count * 10) / IZR (2 * (count * 10)) * 100 = 50 + 5 * q).
  { rewrite plus_IZR, !mult_IZR. unfold q. field. lra. }
  rewrite Hratio.
  assert (Hclamp : Rmax 0 (Rmin 100 (50 + 5 * q)) = 50 + 5 * q).
  { unfold Rmax, Rmin.
    destruct (Rle_dec 100 (50 + 5 * q)); destruct (Rle_dec 0 _); lra. }
  rewrite Hclamp.
  split; [exact Hcount |].
  split; [unfold q; lra |].
  split; [lra |].
  unfold _interpret_compatibility, Math.leb.
  destruct (Rle_dec 80 _); [discriminate |].
  destruct (Rle_dec 60 _); [discriminate |].
  destruct (Rle_dec 40 _); [discriminate |].
  destruct (Rle_dec 20 _); [discriminate | lra].
Qed.

Lemma compatibility_percentage_floor_witness :
  exists result,
    calculate_compatibility (chart_sun_at 0) (chart_sun_at 0) = Ok result
    /\ 20 <= compatibility_percentage result <= 100.
Proof.
  assert (Hsome : find_synastry_aspects (chart_sun_at 0) (chart_sun_at 0) <> []).
  { unfold find_synastry_aspects, chart_sun_at, body_at, ASPECTS.
    cbn [planet_positions flat_map app longitude].
    rewrite (calculate_distance_value 0 0 0) by lra.
    cbn [Constants.angle Constants.orb].
    decide_leb. discriminate. }
  destruct (compatibility_with_aspects _ _ Hsome) as (result & Hok & _).
  exists result. split; [exact Hok |].
  exact (proj1 (proj2 (proj2
           (compatibility_percentage_floor _ _ result Hok)))).
Defined.

(* ------------------------------------------------------------------ *)
(** ** Houses, elements and modalities of a chart                      *)
(* ------------------------------------------------------------------ *)

Import ChartAnalysis.

Lemma first_passing_range (planet_longitude : R) (cusps : list R) :
  (1 <= first_passing planet_longitude cusps <= 12)%Z.
Proof.
  unfold first_passing.
  destruct (find (house_test planet_longitude cusps) (seq 0 12))
    as [i |] eqn:Hfind; [| lia].
  destruct (find_seq_some _ _ _ _ Hfind) as (Hrange & _). lia.
Qed.

Section AssignHouses.

Variable cusps : list R.
Hypothesis twelve : (12 <= List.length cusps)%nat.

Lemma assign_loop (planet_positions : dict BodyPosition) :
  forall planet_houses : dict Z,
    NoDup (keys planet_houses ++ keys planet_positions) ->
    for_all planet_positions
      (fun planet_houses '(planet, data) =>
         let longitude := longitude data in
         and_then (get_planet_house longitude cusps) (fun house_num =>
         Returns (set planet_houses planet house_num)))
      planet_houses
    = Returns
        (planet_houses ++
         map (fun entry =>
                (fst entry, first_passing (longitude (snd entry)) cusps))
             planet_positions).
Proof.
  induction planet_positions as [| [planet data] rest IH];
    intros planet_houses Hnodup; cbn [for_all map].
  - rewrite app_nil_r. reflexivity.
  - simpl in Hnodup.
    assert (Hnew : ~ In planet (keys planet_houses)).
    { intros Hin. apply NoDup_remove_2 in Hnodup. apply Hnodup.
      apply in_or_app. left. exact Hin. }
    cbv zeta. rewrite (get_planet_house_twelve _ _ twelve).
    cbn [and_then fst snd].
    rewrite (set_new planet_houses planet _ Hnew).
    rewrite IH.
    + rewrite <- app_assoc. reflexivity.
    + unfold keys at 1. rewrite map_app. fold (keys planet_houses).
      rewrite <- app_assoc. exact Hnodup.
Qed.

Lemma _assign_planets_to_houses_returns (planet_positions : dict BodyPosition) :
  NoDup (keys planet_positions) ->
  _assign_planets_to_houses planet_positions cusps =
  Returns
    (map (fun entry =>
            (fst entry, first_passing (longitude (snd entry)) cusps))
         planet_positions).
Proof.
  intros Hkeys. unfold _assign_planets_to_houses. cbv zeta.
  pose proof (assign_loop planet_positions [] Hkeys) as Hloop.
  cbv zeta in Hloop. rewrite Hloop. reflexivity.
Qed.

Lemma get_assigned (planet_positions : dict BodyPosition) (planet : string)
    (data : BodyPosition) :
  NoDup (keys planet_positions) -> In (planet, data) planet_positions ->
  get (map (fun entry =>
              (fst entry, first_passing (longitude (snd entry)) cusps))
           planet_positions) planet =
  Some (first_passing (longitude data) cusps).
Proof.
  intros Hkeys Hin. apply in_dict_get.
  - unfold keys. rewrite map_map. exact Hkeys.
  - apply in_map_iff. exists (planet, data).
    split; [reflexivity | exact Hin].
Qed.

End AssignHouses.

(** X26. On a list of at least twelve cusps [_assign_planets_to_houses]
    keeps the bodies of the chart, in their order, and gives each the
    house [get_planet_house] finds for its longitude, a number from 1
    to 12. *)
Theorem assign_planets_to_houses_each (planet_positions : dict BodyPosition)
    (cusps : list R) (Hkeys : NoDup (keys planet_positions))
    (Hcusps : (12 <= List.length cusps)%nat) :
  exists planet_houses,
    _assign_planets_to_houses planet_positions cusps = Returns planet_houses
    /\ keys planet_houses = keys planet_positions
    /\ Forall (fun entry => (1 <= snd entry <= 12)%Z) planet_houses
    /\ forall planet data,
         In (planet, data) planet_positions ->
         exists house,
           get_planet_house (longitude data) cusps = Returns house
           /\ get planet_houses planet = Some house.
Proof.
  eexists. split; [apply _assign_planets_to_houses_returns; assumption |].
  split; [| split].
  - unfold keys. rewrite map_map. reflexivity.
  - apply Forall_forall. intros [planet house] Hin.
    apply in_map_iff in Hin. destruct Hin as ([p data] & Heq & _).
    injection Heq as _ <-. apply first_passing_range.
  - intros planet data Hin.
    exists (first_passing (longitude data) cusps).
    split; [apply get_planet_house_twelve, Hcusps |].
    apply get_assigned; assumption.
Qed.

Lemma assign_planets_to_houses_each_witness :
  NoDup (keys three_bodies)
  /\ (12 <= List.length (_equal_houses 100))%nat
  /\ exists planet_houses,
       _assign_planets_to_houses three_bodies (_equal_houses 100) =
       Returns planet_houses
       /\ keys planet_houses = ["Sun"; "Moon"; "Mars"].
Proof.
  assert (Hkeys : NoDup (keys three_bodies)).
  { unfold three_bodies, keys. simpl.
    repeat (apply NoDup_cons; [simpl; intuition discriminate |]).
    apply NoDup_nil. }
  assert (Hlen : (12 <= List.length (_equal_houses 100))%nat)
    by (rewrite (proj1 (_equal_houses_in_turn 100)); lia).
  split; [exact Hkeys |]. split; [exact Hlen |].
  destruct (assign_planets_to_houses_each three_bodies (_equal_houses 100)
              Hkeys Hlen) as (planet_houses & Hreturns & Hnames & _).
  exists planet_houses. split; [exact Hreturns | exact Hnames].
Defined.

Section Tally.

Variable table : dict (list Z).

Lemma get_count_sign (counts : dict Z) (sign_index : Z) (name : string)
    (n : Z) :
  name <> "" -> get counts name = Some n ->
  get (count_sign table counts sign_index) name =
  Some (n + (if String.eqb (first_table_with table sign_index) name
             then 1 else 0))%Z.
Proof.
  intros Hname Hget. unfold count_sign, first_table_with.
  destruct (first_return _ table) as [found |].
  - rewrite get_set. destruct (String.eqb_spec name found) as [-> | Hne].
    + rewrite String.eqb_refl. unfold count_of. rewrite Hget. reflexivity.
    + destruct (String.eqb_spec found name); [congruence |].
      rewrite Hget. f_equal. lia.
  - destruct (String.eqb_spec "" name); [congruence |].
    rewrite Hget. f_equal. lia.
Qed.

Lemma bodies_where_cons (test : BodyPosition -> bool) (planet : string)
    (data : BodyPosition) (rest : dict BodyPosition) :
  bodies_where test ((planet, data) :: rest) =
  ((if test data then 1 else 0) + bodies_where test rest)%Z.
Proof.
  unfold bodies_where. cbn [filter snd].
  destruct (test data); cbn [List.length]; lia.
Qed.

Lemma tally (name : string) (Hname : name <> "") :
  forall (positions : dict BodyPosition) (counts : dict Z) (n : Z),
    get counts name = Some n ->
    get (fold_left
           (fun counts '(planet, data) =>
              let longitude := longitude data in
              let sign_index := int (floordiv longitude 30) in
              count_sign table counts sign_index)
           positions counts) name =
    Some (n + bodies_where
                (fun data =>
                   String.eqb (first_table_with table (sign_of data)) name)
                positions)%Z.
Proof.
  induction positions as [| [planet data] rest IH];
    intros counts n Hget; cbn [fold_left].
  - unfold bodies_where. simpl. rewrite Z.add_0_r. exact Hget.
  - cbv zeta.
    rewrite (IH _ _ (get_count_sign counts _ name n Hname Hget)).
    rewrite bodies_where_cons. unfold sign_of. f_equal. lia.
Qed.

Lemma keys_count_sign (counts : dict Z) (sign_index : Z) :
  (forall name, In name (keys table) -> In name (keys counts)) ->
  keys (count_sign table counts sign_index) = keys counts.
Proof.
  intros Hcovered. unfold count_sign.
  destruct (first_return _ table) as [found |] eqn:Hfirst; [| reflexivity].
  apply first_return_some in Hfirst.
  destruct Hfirst as ([name signs] & Hin & Hbody).
  destruct (int_in sign_index signs); [| discriminate].
  injection Hbody as <-.
  apply keys_set_old, Hcovered.
  apply (in_map fst) in Hin. exact Hin.
Qed.

Lemma keys_tally :
  forall (positions : dict BodyPosition) (counts : dict Z),
    (forall name, In name (keys table) -> In name (keys counts)) ->
    keys (fold_left
            (fun counts '(planet, data) =>
               let longitude := longitude data in
               let sign_index := int (floordiv longitude 30) in
               count_sign table counts sign_index)
            positions counts) = keys counts.
Proof.
  induction positions as [| [planet data] rest IH];
    intros counts Hcovered; cbn [fold_left]; [reflexivity |].
  cbv zeta. rewrite IH.
  - apply keys_count_sign, Hcovered.
  - rewrite keys_count_sign by exact Hcovered. exact Hcovered.
Qed.

End Tally.

Lemma element_keys (positions : dict BodyPosition) :
  keys (_calculate_elements positions) = ["Feu"; "Terre"; "Air"; "Eau"].
Proof.
  unfold _calculate_elements.
  apply (keys_tally ELEMENTS positions
           [("Feu", 0%Z); ("Terre", 0%Z); ("Air", 0%Z); ("Eau", 0%Z)]).
  unfold ELEMENTS. simpl. tauto.
Qed.

Lemma element_count (positions : dict BodyPosition) (element : string) :
  In element ["Feu"; "Terre"; "Air"; "Eau"] ->
  get (_calculate_elements positions) element =
  Some (bodies_where
          (fun data => String.eqb (get_element (sign_of data)) element)
          positions).
Proof.
  intros Hin. unfold _calculate_elements, get_element.
  simpl in Hin.
  repeat (destruct Hin as [<- | Hin]); try contradiction;
    match goal with
    | |- get _ ?name = _ =>
        apply (tally ELEMENTS name ltac:(discriminate) positions
                 [("Feu", 0%Z); ("Terre", 0%Z); ("Air", 0%Z); ("Eau", 0%Z)]
                 0%Z eq_refl)
    end.
Qed.

Lemma modality_keys (positions : dict BodyPosition) :
  keys (_calculate_modalities positions) = ["Cardinal"; "Fixe"; "Mutable"].
Proof.
  unfold _calculate_modalities.
  apply (keys_tally MODALITIES positions
           [("Cardinal", 0%Z); ("Fixe", 0%Z); ("Mutable", 0%Z)]).
  unfold MODALITIES. simpl. tauto.
Qed.

Lemma modality_count (positions : dict BodyPosition) (modality : string) :
  In modality ["Cardinal"; "Fixe"; "Mutable"] ->
  get (_calculate_modalities positions) modality =
  Some (bodies_where
          (fun data => String.eqb (get_modality (sign_of data)) modality)
          positions).
Proof.
  intros Hin. unfold _calculate_modalities, get_modality.
  simpl in Hin.
  repeat (destruct Hin as [<- | Hin]); try contradiction;
    match goal with
    | |- get _ ?name = _ =>
        apply (tally MODALITIES name ltac:(discriminate) positions
                 [("Cardinal", 0%Z); ("Fixe", 0%Z); ("Mutable", 0%Z)]
                 0%Z eq_refl)
    end.
Qed.

(** X27. [_calculate_elements] and [_calculate_modalities] keep the keys
    they start from, in order, and count under each key the bodies
    whose sign [get_element], respectively [get_modality], puts
    there. *)
Theorem element_and_modality_counts (planet_positions : dict BodyPosition) :
  keys (_calculate_elements planet_positions) = ["Feu"; "Terre"; "Air"; "Eau"]
  /\ Forall
       (fun element =>
          get (_calculate_elements planet_positions) element =
          Some (bodies_where
                  (fun data => String.eqb (get_element (sign_of data)) element)
                  planet_positions))
       ["Feu"; "Terre"; "Air"; "Eau"]
  /\ keys (_calculate_modalities planet_positions) =
     ["Cardinal"; "Fixe"; "Mutable"]
  /\ Forall
       (fun modality =>
          get (_calculate_modalities planet_positions) modality =
          Some (bodies_where
                  (fun data =>
                     String.eqb (get_modality (sign_of data)) modality)
                  planet_positions))
       ["Cardinal"; "Fixe"; "Mutable"].
Proof.
  split; [apply element_keys |].
  split.
  { apply Forall_forall. intros element Hin.
    apply element_count, Hin. }
  split; [apply modality_keys |].
  apply Forall_forall. intros modality Hin.
  apply modality_count, Hin.
Qed.

Lemma sign_of_range (data : BodyPosition) :
  in_first_turn (longitude data) -> (0 <= sign_of data <= 11)%Z.
Proof.
  unfold in_first_turn, sign_of, floordiv. intros Hturn. rewrite int_IZR.
  pose proof (Zfloor_bound (longitude data / 30)) as Hk.
  split; [apply Zfloor_lub; simpl; lra |].
  assert (Zfloor (longitude data / 30) < 12)%Z by (apply lt_IZR; lra).
  lia.
Qed.

(** A sign has one element and one modality. *)
Lemma one_element_one_modality (sign_index : Z) :
  (0 <= sign_index <= 11)%Z ->
  ((if String.eqb (get_element sign_index) "Feu" then 1 else 0)
   + (if String.eqb (get_element sign_index) "Terre" then 1 else 0)
   + (if String.eqb (get_element sign_index) "Air" then 1 else 0)
   + (if String.eqb (get_element sign_index) "Eau" then 1 else 0) = 1)%Z
  /\ ((if String.eqb (get_modality sign_index) "Cardinal" then 1 else 0)
      + (if String.eqb (get_modality sign_index) "Fixe" then 1 else 0)
      + (if String.eqb (get_modality sign_index) "Mutable" then 1 else 0)
      = 1)%Z.
Proof.
  intros Hrange. each_sign Hrange; split; reflexivity.
Qed.

Lemma every_body_counted (positions : dict BodyPosition) :
  Forall (fun entry => in_first_turn (longitude (snd entry))) positions ->
  (bodies_where (fun data => String.eqb (get_element (sign_of data)) "Feu")
     positions
   + bodies_where (fun data => String.eqb (get_element (sign_of data)) "Terre")
       positions
   + bodies_where (fun data => String.eqb (get_element (sign_of data)) "Air")
       positions
   + bodies_where (fun data => String.eqb (get_element (sign_of data)) "Eau")
       positions
   = Z.of_nat (List.length positions))%Z
  /\ (bodies_where
        (fun data => String.eqb (get_modality (sign_of data)) "Cardinal")
        positions
      + bodies_where
          (fun data => String.eqb (get_modality (sign_of data)) "Fixe")
          positions
      + bodies_where
          (fun data => String.eqb (get_modality (sign_of data)) "Mutable")
          positions
      = Z.of_nat (List.length positions))%Z.
Proof.
  induction 1 as [| [planet data] rest Hhead Hrest IH].
  - split; reflexivity.
  - rewrite !bodies_where_cons. cbn [List.length]. rewrite Nat2Z.inj_succ.
    destruct (one_element_one_modality (sign_of data)
                (sign_of_range data Hhead)) as [He Hm].
    destruct IH as [IHe IHm].
    split; lia.
Qed.

Lemma count_of_get (counts : dict Z) (name : string) (n : Z) :
  get counts name = Some n -> count_of counts name = n.
Proof. intros Hget. unfold count_of. rewrite Hget. reflexivity. Qed.

(** X28. In a chart whose longitudes are all in [0,360) every body is
    counted under one element and under one modality: the four element
    counts add up to the number of bodies, and so do the three modality
    counts. *)
Theorem chart_counts_total (planet_positions : dict BodyPosition)
    (Hturn : Forall (fun entry => in_first_turn (longitude (snd entry)))
               planet_positions) :
  let element_counts := _calculate_elements planet_positions in
  let modality_counts := _calculate_modalities planet_positions in
  (count_of element_counts "Feu" + count_of element_counts "Terre"
   + count_of element_counts "Air" + count_of element_counts "Eau"
   = Z.of_nat (List.length planet_positions))%Z
  /\ (count_of modality_counts "Cardinal" + count_of modality_counts "Fixe"
      + count_of modality_counts "Mutable"
      = Z.of_nat (List.length planet_positions))%Z.
Proof.
  intros element_counts modality_counts.
  unfold element_counts, modality_counts.
  rewrite (count_of_get _ "Feu" _
             (element_count planet_positions "Feu" ltac:(simpl; tauto))),
    (count_of_get _ "Terre" _
       (element_count planet_positions "Terre" ltac:(simpl; tauto))),
    (count_of_get _ "Air" _
       (element_count planet_positions "Air" ltac:(simpl; tauto))),
    (count_of_get _ "Eau" _
       (element_count planet_positions "Eau" ltac:(simpl; tauto))),
    (count_of_get _ "Cardinal" _
       (modality_count planet_positions "Cardinal" ltac:(simpl; tauto))),
    (count_of_get _ "Fixe" _
       (modality_count planet_positions "Fixe" ltac:(simpl; tauto))),
    (count_of_get _ "Mutable" _
       (modality_count planet_positions "Mutable" ltac:(simpl; tauto))).
  apply every_body_counted, Hturn.
Qed.

Lemma chart_counts_total_witness :
  Forall (fun entry => in_first_turn (longitude (snd entry))) three_bodies
  /\ (count_of (_calculate_elements three_bodies) "Feu"
      + count_of (_calculate_elements three_bodies) "Terre"
      + count_of (_calculate_elements three_bodies) "Air"
      + count_of (_calculate_elements three_bodies) "Eau" = 3)%Z.
Proof.
  assert (Hturn : Forall (fun entry => in_first_turn (longitude (snd entry)))
                    three_bodies).
  { unfold three_bodies, body_at, in_first_turn.
    repeat apply Forall_cons; try apply Forall_nil; simpl; lra. }
  split; [exact Hturn |].
  exact (proj1 (chart_counts_total three_bodies Hturn)).
Defined.

(** *** Element compatibility *)

Lemma dominant_loop (elements1 elements2 : dict Z) (names : list string) :
  (forall element, In element names ->
     exists count1 count2,
       get elements1 element = Some count1
       /\ get elements2 element = Some count2) ->
  forall dominant : list string,
    for_each names
      (fun dominant element =>
         bind (getitem elements1 element)
           (fun count1 =>
              if (2 <? count1)%Z then Ok (dominant ++ [element])
              else
                bind (getitem elements2 element)
                  (fun count2 =>
                     if (2 <? count2)%Z then Ok (dominant ++ [element])
                     else Ok dominant)))
      dominant
    = Ok (dominant ++
          filter (fun element =>
                    (2 <? count_of elements1 element)%Z
                    || (2 <? count_of elements2 element)%Z)
                 names).
Proof.
  induction names as [| element rest IH]; intros Hstored dominant.
  - simpl. rewrite app_nil_r. reflexivity.
  - destruct (Hstored element (or_introl eq_refl))
      as (count1 & count2 & H1 & H2).
    cbn [for_each filter]. unfold getitem at 1 2.
    rewrite H1, (count_of_get _ _ _ H1), (count_of_get _ _ _ H2).
    cbn [bind].
    destruct (2 <? count1)%Z; cbn [Datatypes.orb bind].
    + rewrite IH by (intros e He; apply Hstored; right; exact He).
      rewrite <- app_assoc. reflexivity.
    + rewrite H2. cbn [bind].
      destruct (2 <? count2)%Z; cbn [bind].
      * rewrite IH by (intros e He; apply Hstored; right; exact He).
        rewrite <- app_assoc. reflexivity.
      * apply IH. intros e He. apply Hstored. right. exact He.
Qed.

(** X29. On the element counts of any two charts
    [_analyze_element_compatibility] returns a total score of 109: the
    loops run over the four element names of each chart and never read
    the counts, so the total says nothing about the charts.  The
    analysis has one entry per pair of elements, and the dominant
    elements are those counted more than twice in either chart. *)
Theorem element_compatibility_constant
    (positions1 positions2 : dict BodyPosition) :
  let elements1 := _calculate_elements positions1 in
  let elements2 := _calculate_elements positions2 in
  exists analysis,
    _analyze_element_compatibility elements1 elements2 = Ok analysis
    /\ total_score analysis = 109%Z
    /\ List.length (element_analysis analysis) = 16%nat
    /\ dominant_elements analysis =
       filter (fun element =>
                 (2 <? count_of elements1 element)%Z
                 || (2 <? count_of elements2 element)%Z)
              ["Feu"; "Terre"; "Air"; "Eau"].
Proof.
  intros elements1 elements2.
  pose proof (element_keys positions1) as Hk1.
  pose proof (element_keys positions2) as Hk2.
  pose proof (fun element => element_count positions1 element) as Hc1.
  pose proof (fun element => element_count positions2 element) as Hc2.
  fold elements1 in Hk1, Hc1. fold elements2 in Hk2, Hc2.
  clearbody elements1 elements2.
  assert (Hstored : forall element,
            In element ["Feu"; "Terre"; "Air"; "Eau"] ->
            exists count1 count2,
              get elements1 element = Some count1
              /\ get elements2 element = Some count2).
  { intros element Hin.
    eexists. eexists. split; [apply Hc1, Hin | apply Hc2, Hin]. }
  unfold _analyze_element_compatibility, _get_dominant_elements.
  rewrite Hk1, Hk2.
  match goal with
  | |- context [bind ?loops _] =>
      let totals := eval vm_compute in loops in
      change loops with totals
  end.
  cbn [bind].
  rewrite (dominant_loop elements1 elements2 _ Hstored []).
  cbn [bind app].
  eexists. split; [reflexivity |].
  cbn [total_score element_analysis dominant_elements].
  split; [reflexivity |]. split; reflexivity.
Qed.

(* ------------------------------------------------------------------ *)
(** ** The natal chart                                                 *)
(* ------------------------------------------------------------------ *)

Section NatalChartRaises.
Import NatalChart.

(** The set of positions is a dictionary of thirteen bodies with
    longitudes in [0,360). *)
Lemma calculate_all_planets_dictionary (jd : R)
    (positions : dict BodyPosition) :
  calculate_all_planets jd = Ok positions ->
  NoDup (keys positions)
  /\ Forall (fun entry => in_first_turn (longitude (snd entry))) positions.
Proof.
  intros Hreturned. split.
  - destruct (calculate_all_planets_layout jd positions Hreturned)
      as (classical & Hkeys & ->).
    unfold keys. rewrite map_app. fold (keys classical). rewrite Hkeys.
    unfold planet_names. simpl.
    repeat (apply NoDup_cons; [simpl; intuition discriminate |]).
    apply NoDup_nil.
  - destruct (calculate_all_planets_steps jd positions Hreturned)
      as (classical & Hrun & ->).
    set (P := fun entry : string * BodyPosition =>
                in_first_turn (longitude (snd entry))).
    assert (Hclassical : Forall P classical).
    { apply (for_each_store_position_Forall jd P planet_names)
        with (positions := []); [| constructor | exact Hrun].
      intros planet_name position Hpos.
      destruct (calculate_planet_position_shape _ _ _ Hpos) as (Hlon & _).
      exact Hlon. }
    repeat apply Forall_set; try exact Hclassical;
      unfold P, in_first_turn, _calculate_lunar_node, _calculate_south_node,
        _calculate_chiron;
      cbn [snd longitude]; apply normalize_angle_range.
Qed.

Lemma ZODIAC_SIGNS_getitem (sign_index : Z) :
  (0 <= sign_index <= 11)%Z ->
  exists sign_name, list_getitem ZODIAC_SIGNS sign_index = Returns sign_name.
Proof.
  intros Hrange. each_sign Hrange; eexists; reflexivity.
Qed.

(** The first loop of [_generate_interpretations] ends without an
    error when every longitude is in [0,360) and every body has a
    house. *)
Lemma planet_texts_returned (planet_houses : dict Z)
    (positions : dict BodyPosition) :
  Forall (fun entry =>
            in_first_turn (longitude (snd entry))
            /\ exists house_num, get planet_houses (fst entry) = Some house_num)
         positions ->
  forall texts : dict PlanetText,
  exists texts',
    for_all positions
      (fun planets '(planet, data) =>
         let sign_index := int (floordiv (longitude data) 30) in
         and_then (list_getitem ZODIAC_SIGNS sign_index) (fun sign =>
         and_then (lift (getitem planet_houses planet)) (fun house =>
         Returns
           (set planets planet
              (mkPlanetText
                 (planet ++ " en " ++ sign)%string
                 (planet ++ " en maison " ++ str house)%string
                 (Ephemeris.retrograde data))))))
      texts
    = Returns texts'.
Proof.
  induction 1 as [| [planet data] rest [Hturn [house_num Hhouse]] Hrest IH];
    intros texts.
  - exists texts. reflexivity.
  - cbn [for_all fst snd] in *.
    destruct (ZODIAC_SIGNS_getitem (sign_of data) (sign_of_range data Hturn))
      as [sign_name Hsign].
    unfold sign_of in Hsign. cbv zeta. rewrite Hsign.
    unfold getitem. rewrite Hhouse.
    cbn [and_then lift]. apply IH.
Qed.

(** X30. [calculate_natal_chart] never returns a chart.  When the positions
    are computed, the list of aspects holds at least the opposition of
    the two lunar nodes, and [_generate_interpretations], having gone
    through the bodies without an error, reads the key "interpretation"
    of the first aspect, which no aspect has: the call ends with
    [KeyError].  When the positions are not computed, the call ends
    with the error of the ephemeris. *)
Theorem calculate_natal_chart_never_returns (jd latitude longitude : R) :
  match calculate_all_planets jd with
  | Ok _ =>
      calculate_natal_chart jd latitude longitude =
      Raises (Builtin (KeyError "interpretation"))
  | Raise e =>
      calculate_natal_chart jd latitude longitude = Raises (Builtin e)
  end.
Proof.
  unfold calculate_natal_chart.
  destruct (calculate_all_planets jd) as [positions | e] eqn:Hpositions;
    [| reflexivity].
  cbn [lift and_then].
  rewrite (calculate_houses_returns jd latitude longitude "P")
    by discriminate.
  cbn [lift and_then]. cbv zeta.
  set (layout := mkHouseLayout _ _ _ _ _ _ _).
  destruct (calculate_all_planets_dictionary jd positions Hpositions)
    as [Hkeys Hturn].
  assert (Htwelve : (12 <= List.length (Houses.houses layout))%nat).
  { unfold layout. cbn [Houses.houses]. unfold division_of.
    cbn [String.eqb Ascii.eqb Bool.eqb].
    rewrite (proj1 (_placidus_houses_range _ _ latitude _
                      (_calculate_ascendant_range _ latitude)
                      (_calculate_mc_range _ latitude))).
    lia. }
  rewrite (_assign_planets_to_houses_returns _ Htwelve positions Hkeys).
  cbn [and_then].
  unfold _generate_interpretations.
  set (assigned :=
         map (fun entry =>
                (fst entry,
                 first_passing (Ephemeris.longitude (snd entry))
                   (Houses.houses layout)))
             positions).
  destruct (planet_texts_returned assigned positions)
    with (texts := @nil (string * PlanetText)) as [texts Htexts].
  { rewrite Forall_forall in Hturn. apply Forall_forall.
    intros [planet data] Hin. split; [exact (Hturn _ Hin) |].
    eexists. cbn [fst]. apply get_assigned; [exact Hkeys | exact Hin]. }
  cbv zeta in Htexts. cbv zeta. rewrite Htexts. cbn [and_then].
  assert (H8 : 0 <= 8.0) by lra.
  pose proof (nodes_aspect_listed jd 8.0 positions Hpositions H8) as Hin.
  cbv zeta in Hin.
  destruct (calculate_aspects positions 8.0) as [| first rest];
    [contradiction |].
  reflexivity.
Qed.

End NatalChartRaises.
